(** * QuantX: option analytics core, embedded in Rocq

    Shallow embedding of the numerical core of the QuantX backend
    ([backend/app]): the probability models, the Greeks, the volatility,
    open-interest and market services, the consensus score, the live
    strategy engine, the backtest engine and the routes over them.

    Number model.  Python [float] values are embedded as real numbers [R]:
    rounding, signed zeros, infinities and NaN are not represented, and
    overflow only where it is said below.
    What Python does instead of producing a number is kept:
    - [x / y] on Python floats raises [ZeroDivisionError] when [y = 0];
    - [math.log] raises [ValueError] outside [(0, +oo)], [math.sqrt] on
      negative arguments;
    - comparing a number with a string raises [TypeError];
    - numpy arithmetic does not raise on a zero denominator, it yields
      an infinity or NaN: such results are reported as [None]
      (see [backtest_engine]);
    - [math.exp] raises [OverflowError] beyond the largest double.  This is
      represented where the argument of the exponential is unbounded on
      ordinary market snapshots, in [machine_learning_probability]
      ([math_exp_checked]); elsewhere the exponential is total ([math_exp]):
      an overflow there, like the overflow of [x ** n], needs a volatility
      or a rate of several thousand per cent and is not represented.
    Division by a non-zero literal ([/ 252.0], [/ 3.0]) cannot raise and is
    written with the total division of [R].

    [scipy.stats.norm] is not part of the repository: [norm.pdf] is embedded
    as the standard normal density and [norm.cdf] as its integral.
    [numpy.random] is an interface: a generator state, and draws that return
    a sample with the next state. *)

From Stdlib Require Import Reals Lra Lia ZArith Ascii String.
From stdpp Require Import base decidable option list gmap strings.

Open Scope R_scope.
Set Warnings "-abstract-large-number".

(** ** Python primitives *)

#[global] Instance R_eq_dec : EqDecision R := Req_dec_T.
#[global] Instance R_inhabited : Inhabited R := populate 0.
#[global] Instance Rlt_rel_dec : RelDecision Rlt := Rlt_dec.
#[global] Instance Rle_rel_dec : RelDecision Rle := Rle_dec.
#[global] Instance Rgt_rel_dec : RelDecision Rgt := Rgt_dec.
#[global] Instance Rge_rel_dec : RelDecision Rge := Rge_dec.

(** The exceptions the embedded code can raise. *)
Inductive exn : Set :=
  | ZeroDivisionError
  | ValueError
  | TypeError
  | OverflowError.

(** Outcome of a Python call: a value, or a raised exception. *)
Inductive result (A : Type) : Type :=
  | Ok (a : A)
  | Raise (e : exn).
Arguments Ok {A} a.
Arguments Raise {A} e.

#[global] Instance result_ret : MRet result := @Ok.
#[global] Instance result_bind : MBind result := fun A B f m =>
  match m with
  | Ok a => f a
  | Raise e => Raise e
  end.

(** [x / y] on floats. *)
Definition truediv (x y : R) : result R :=
  if decide (y = 0) then Raise ZeroDivisionError else Ok (x / y).

(** [math.log], [math.sqrt], [math.exp]. *)
Definition math_log (x : R) : result R :=
  if decide (0 < x) then Ok (ln x) else Raise ValueError.

Definition math_sqrt (x : R) : result R :=
  if decide (0 <= x) then Ok (sqrt x) else Raise ValueError.

Definition math_exp (x : R) : R := exp x.



(** Builtin [sum]: starts from 0 and adds from the left. *)
Definition py_sum (xs : list R) : R := fold_left Rplus xs 0.

(** Builtin [int] on a float: truncation towards zero. *)
Definition py_int (x : R) : Z :=
  if decide (0 <= x) then Int_part x else (- Int_part (- x))%Z.

(** Builtin [enumerate]: the items of a list with their positions. *)
Definition enumerate {A : Type} (l : list A) : list (nat * A) :=
  zip (seq 0 (length l)) l.

(** [s.replace(old, new)] for one-character [old] and [new]. *)
Fixpoint replace_char (old new : ascii) (s : string) : string :=
  match s with
  | EmptyString => EmptyString
  | String c s' =>
      String (if decide (c = old) then new else c) (replace_char old new s')
  end.

(** Builtin [math.comb]: the binomial coefficient, by Pascal's rule. *)
Fixpoint comb (n k : nat) : nat :=
  match n, k with
  | _, O => 1
  | O, S _ => 0
  | S n', S k' => comb n' k' + comb n' k
  end.

(** ** [scipy.stats.norm] *)

(** [norm.pdf]: the standard normal density. *)
Definition norm_pdf (x : R) : R := exp (- (x * x) / 2) / sqrt (2 * PI).

Lemma norm_pdf_continuity : continuity norm_pdf.
Proof. unfold norm_pdf. reg. Qed.

Lemma norm_pdf_integrable (a b : R) : Riemann_integrable norm_pdf a b.
Proof.
  destruct (Rle_dec a b) as [Hab | Hab].
  - apply continuity_implies_RiemannInt; [exact Hab |].
    intros x _. apply norm_pdf_continuity.
  - apply RiemannInt_P1, continuity_implies_RiemannInt; [lra |].
    intros x _. apply norm_pdf_continuity.
Qed.

(** Oriented area under the density between [a] and [b]. *)
Definition gauss_area (a b : R) : R := RiemannInt (norm_pdf_integrable a b).

(** [norm.cdf]: one half plus the oriented area from 0 to [x]. *)
Definition norm_cdf (x : R) : R := 1 / 2 + gauss_area 0 x.

(** Auxiliary integrals for the bound of [norm.cdf]: the polar kernel
    [exp (- x^2 (1 + s^2) / 2) / (1 + s^2)], its derivative in [x], and
    their integrals over [s] in [[0, 1]]. *)
Definition polar_kernel (x s : R) : R :=
  exp (- (x * x) * (1 + s * s) / 2) / (1 + s * s).

Definition polar_kernel_dx (x s : R) : R :=
  - x * exp (- (x * x) * (1 + s * s) / 2).

Lemma polar_kernel_continuity (x : R) : continuity (polar_kernel x).
Proof.
  unfold polar_kernel. reg. intros s. nra.
Qed.

Lemma polar_kernel_dx_continuity (x : R) : continuity (polar_kernel_dx x).
Proof. unfold polar_kernel_dx. reg. Qed.

Lemma polar_kernel_integrable (x : R) : Riemann_integrable (polar_kernel x) 0 1.
Proof.
  apply continuity_implies_RiemannInt; [lra |].
  intros s _. apply polar_kernel_continuity.
Qed.

Lemma polar_kernel_dx_integrable (x : R) : Riemann_integrable (polar_kernel_dx x) 0 1.
Proof.
  apply continuity_implies_RiemannInt; [lra |].
  intros s _. apply polar_kernel_dx_continuity.
Qed.

Definition polar_mass (x : R) : R := RiemannInt (polar_kernel_integrable x).
Definition polar_mass_dx (x : R) : R := RiemannInt (polar_kernel_dx_integrable x).

(** ** [numpy.random] *)

(** The global generator of numpy: [seed n] is its state after
    [np.random.seed(n)]; a scalar draw returns a sample and the next state. *)
Class NumpyRandom : Type := {
  rng_state : Type;
  seed : Z -> rng_state;
  standard_normal : rng_state -> R * rng_state;
  poisson : R -> rng_state -> nat * rng_state
}.

(** A generator whose [k]-th draw is [(-1)^k] (and no jump arrival), to run
    the simulations on. *)
Definition alternating_generator : NumpyRandom :=
  {| rng_state := nat;
     seed := fun _ : Z => 0%nat;
     standard_normal := fun k : nat => ((- 1) ^ k, S k);
     poisson := fun (_ : R) (k : nat) => (0%nat, S k) |}.

(** [np.random.standard_normal(n)]: an array of [n] successive draws. *)
Fixpoint standard_normal_array `{NumpyRandom} (n : nat) (g : rng_state)
    : list R * rng_state :=
  match n with
  | O => ([], g)
  | S n' =>
      let '(z, g1) := standard_normal g in
      let '(zs, g2) := standard_normal_array n' g1 in
      (z :: zs, g2)
  end.

(** [np.random.poisson(lam)] raises [ValueError] on a negative rate. *)
Definition np_poisson `{NumpyRandom} (lam : R) (g : rng_state)
    : result (nat * rng_state) :=
  if decide (lam < 0) then Raise ValueError else Ok (poisson lam g).

(** ** [app/models/enums.py] *)

Module enums.

Inductive OptionType : Set := CALL | PUT.

Inductive StrategyMode : Set := LIVE | BACKTEST.

Inductive TrendDirection : Set := UP | DOWN | SIDEWAYS.

Inductive MarketRegime : Set := BULL | BEAR | RANGE | VOLATILE.

#[global] Instance OptionType_eq_dec : EqDecision OptionType.
Proof. solve_decision. Defined.

(** The [.name] of an enum member. *)
Definition TrendDirection_name (d : TrendDirection) : string :=
  match d with UP => "UP" | DOWN => "DOWN" | SIDEWAYS => "SIDEWAYS" end.

Definition MarketRegime_name (m : MarketRegime) : string :=
  match m with
  | BULL => "BULL" | BEAR => "BEAR" | RANGE => "RANGE" | VOLATILE => "VOLATILE"
  end.

End enums.

(** ** [app/models/schemas.py] (the records the core consumes and produces) *)

Module schemas.

Record ProbabilityResult : Type := {
  d2_probability : R;
  lognormal_itm_probability : R;
  binomial_itm_probability : R;
  monte_carlo_itm_probability : R;
  expected_move : R
}.

Record IVResponse : Type := {
  iv : R;
  iv_rank : option R;
  iv_percentile : option R;
  hv : option R
}.

Record OIResponse : Type := {
  spike_score : R;
  volume_oi_ratio : R;
  trend : string;
  anomaly_score : R;
  pcr_oi : option R;
  pcr_volume : option R
}.

Record MarketResponse : Type := {
  atr_trend : enums.TrendDirection;
  vwap_signal : string;
  bollinger_squeeze : R;
  trend_signal : enums.TrendDirection;
  mean_reversion_score : R;
  regime : enums.MarketRegime
}.

(** [details] is a [Dict[str, Any]]; the engine stores four floats in it. *)
Record ConsensusResponse : Type := {
  confidence_score : R;
  details : gmap string R
}.

End schemas.

(** ** [app/consensus/engine.py] *)

Module consensus_engine.
Import enums.

Definition regime_map : gmap string R :=
  {[ "BULL" := 70; "BEAR" := 30; "RANGE" := 50; "VOLATILE" := 40 ]}.

Definition weights : gmap string R :=
  {[ "probability" := 0.35; "volatility" := 0.25; "oi" := 0.15; "market" := 0.25 ]}.

(** Lines 18-20: the HV/IV component.  [IVResponse.iv] is a required float,
    so [volatility.iv is not None] always holds; the guard that remains is
    [hv is not None and hv > 0]. *)
Definition hv_iv_component (volatility : schemas.IVResponse) : result (list R) :=
  match schemas.hv volatility with
  | Some h =>
      if decide (h > 0) then
        q ← truediv h (schemas.iv volatility);
        mret [Rmin 2 q * 50]
      else mret []
  | None => mret []
  end.

Definition rank_component (volatility : schemas.IVResponse) : list R :=
  match schemas.iv_rank volatility with
  | Some k => [100 - Rabs (k - 50)]
  | None => []
  end.

Definition percentile_component (volatility : schemas.IVResponse) : list R :=
  match schemas.iv_percentile volatility with
  | Some k => [100 - Rabs (k - 50)]
  | None => []
  end.

(** Lines 18-25. *)
Definition vol_score (volatility : schemas.IVResponse) : result R :=
  c ← hv_iv_component volatility;
  let vol_components := c ++ rank_component volatility ++ percentile_component volatility in
  match vol_components with
  | [] => mret 50
  | _ => truediv (py_sum vol_components) (INR (length vol_components))
  end.

(** Lines 39-51: the weighted sum and its clamp. *)
Definition raw_score (prob_score vol_score oi_score market_score : R) : R :=
  prob_score * (weights !!! "probability")
  + vol_score * (weights !!! "volatility")
  + oi_score * (weights !!! "oi")
  + market_score * (weights !!! "market").

Definition confidence_score (prob_score vol_score oi_score market_score : R) : R :=
  Rmax 0 (Rmin 100 (raw_score prob_score vol_score oi_score market_score)).

Definition compute_consensus
    (probability : schemas.ProbabilityResult) (volatility : schemas.IVResponse)
    (oi : schemas.OIResponse) (market : schemas.MarketResponse)
    : result schemas.ConsensusResponse :=
  let prob_score :=
    100 * Rmax (schemas.d2_probability probability)
               (schemas.monte_carlo_itm_probability probability) in
  vol_score ← vol_score volatility;
  let oi_score :=
    100 - Rmin 100 (Rabs (schemas.spike_score oi) * 10 + schemas.anomaly_score oi * 10) in
  let mr_component := 50 + schemas.mean_reversion_score market * 10 in
  let trend_component :=
    if decide (TrendDirection_name (schemas.trend_signal market) = "UP") then 70
    else if decide (TrendDirection_name (schemas.trend_signal market) = "DOWN") then 30
    else 50 in
  let regime_component :=
    default 50 (regime_map !! MarketRegime_name (schemas.regime market)) in
  let market_score := (mr_component + trend_component + regime_component) / 3 in
  mret {| schemas.confidence_score :=
            confidence_score prob_score vol_score oi_score market_score;
          schemas.details :=
            {[ "probability_score" := prob_score;
               "volatility_score" := vol_score;
               "oi_score" := oi_score;
               "market_score" := market_score ]} |}.

End consensus_engine.

(** ** [app/services/probability.py] *)

Module probability.
Import enums.

Section models.
Context `{NumpyRandom}.

(** [t = max(days_to_expiry, 1) / 252.0] *)
Definition years (days_to_expiry : Z) : R := IZR (Z.max days_to_expiry 1) / 252.

Definition _d1_d2 (spot strike t iv r : R) : result (R * R) :=
  if decide (t <= 0 \/ iv <= 0 \/ spot <= 0 \/ strike <= 0) then mret (0, 0) else
  q ← truediv spot strike;
  l ← math_log q;
  s ← math_sqrt t;
  d1 ← truediv (l + (r + 0.5 * iv ^ 2) * t) (iv * s);
  s' ← math_sqrt t;
  let d2 := d1 - iv * s' in
  mret (d1, d2).

Definition black_scholes_d2_probability
    (spot strike : R) (days_to_expiry : Z) (iv : R) (option_type : OptionType)
    : result R :=
  let t := years days_to_expiry in
  '(_, d2) ← _d1_d2 spot strike t iv 0;
  if decide (option_type = CALL) then mret (norm_cdf d2)
  else mret (norm_cdf (- d2)).

Definition lognormal_itm_probability
    (spot strike : R) (days_to_expiry : Z) (iv : R) : result R :=
  let t := years days_to_expiry in
  if decide (spot <= 0 \/ strike <= 0 \/ iv <= 0 \/ t <= 0) then mret 0 else
  ls ← math_log spot;
  let mu := ls - 0.5 * iv ^ 2 * t in
  st ← math_sqrt t;
  let sigma := iv * st in
  lk ← math_log strike;
  z ← truediv (lk - mu) sigma;
  mret (1 - norm_cdf z).

(** [steps] is a non-negative [int] (default 50); [range(steps + 1)] is
    [seq 0 (steps + 1)]. *)
Definition binomial_itm_probability
    (spot strike : R) (days_to_expiry : Z) (iv : R) (steps : nat) : result R :=
  let t := years days_to_expiry in
  if decide (t <= 0 \/ iv <= 0) then mret 0 else
  dt ← truediv t (INR steps);
  sdt ← math_sqrt dt;
  let u := math_exp (iv * sdt) in
  d ← truediv 1 u;
  let p := 0.5 in
  let probs :=
    flat_map
      (fun i : nat =>
         let st := spot * u ^ i * d ^ (steps - i) in
         if decide (st >= strike)
         then [INR (comb steps i) * p ^ i * (1 - p) ^ (steps - i)]
         else [])
      (seq 0 (steps + 1)) in
  mret (py_sum probs).

(** [np.mean] of a boolean array: the fraction of [True]; numpy yields NaN
    (no exception) on an empty array, reported as [None]. *)
Definition np_mean_bool (bs : list bool) : option R :=
  match bs with
  | [] => None
  | _ => Some (INR (length (filter (fun b : bool => b = true) bs)) / INR (length bs))
  end.

(** [g] is the state of the global generator when the function is called
    (no seed is set); [np.exp] and [np.sqrt] do not raise, and [t > 0] where
    [np.sqrt(t)] is evaluated. *)
Definition monte_carlo_itm_probability (g : rng_state)
    (spot strike : R) (days_to_expiry : Z) (iv : R) (n_paths : nat) : option R :=
  let t := years days_to_expiry in
  if decide (t <= 0 \/ iv <= 0) then Some 0 else
  let z := (standard_normal_array n_paths g).1 in
  let st := map (fun zk : R => spot * exp (- 0.5 * iv ^ 2 * t + iv * sqrt t * zk)) z in
  np_mean_bool (map (fun s : R => bool_decide (s >= strike)) st).

(** The quotient of factorials is a true division of two [int]s whose
    divisor is a product of factorials, hence not zero. *)
Definition trinomial_tree_probability
    (spot strike : R) (days_to_expiry : Z) (iv : R) (steps : nat) : result R :=
  let t := years days_to_expiry in
  if decide (t <= 0 \/ iv <= 0) then mret 0 else
  dt ← truediv t (INR steps);
  s ← math_sqrt (1.5 * dt);
  let u := math_exp (iv * s) in
  d ← truediv 1 u;
  let m := 1 in
  a ← truediv (math_exp 0 - d) (u - d);
  let pu := a ^ 2 in
  b ← truediv (u - math_exp 0) (u - d);
  let pd := b ^ 2 in
  let pm := 1 - pu - pd in
  let probs :=
    flat_map
      (fun i : nat =>
         flat_map
           (fun j : nat =>
              let st := spot * u ^ i * m ^ (steps - i - j) * d ^ j in
              if decide (st >= strike) then
                if decide (i + j <= steps)%nat then
                  [INR (fact steps) / INR (fact i * fact j * fact (steps - i - j))
                   * pu ^ i * pd ^ j * pm ^ (steps - i - j)]
                else []
              else [])
           (seq 0 (steps - i + 1)))
      (seq 0 (steps + 1)) in
  mret (Rmin 1 (py_sum probs)).

(** [np.sqrt(t)] is evaluated where [t > 0]. *)
Definition expected_move (spot : R) (days_to_expiry : Z) (iv : R) : R :=
  let t := years days_to_expiry in
  if decide (spot <= 0 \/ iv <= 0 \/ t <= 0) then 0
  else spot * iv * sqrt t.

(** ** Additional probability models *)

Definition geometric_brownian_motion_probability
    (spot strike : R) (days_to_expiry : Z) (iv r : R) : result R :=
  let t := years days_to_expiry in
  if decide (spot <= 0 \/ strike <= 0 \/ iv <= 0 \/ t <= 0) then mret 0 else
  ls ← math_log spot;
  let mu := ls + (r - 0.5 * iv ^ 2) * t in
  st ← math_sqrt t;
  let sigma := iv * st in
  lk ← math_log strike;
  z ← truediv (lk - mu) sigma;
  mret (1 - norm_cdf z).

(** The inner loop of [heston_stochastic_volatility_probability]:
    [n_steps] updates of the price [s] and the variance [v]. *)
Fixpoint heston_steps (n_steps : nat) (kappa theta sigma_v rho dt : R)
    (s v : R) (g : rng_state) : result (R * R * rng_state) :=
  match n_steps with
  | O => mret (s, v, g)
  | S n' =>
      let '(z1, g1) := standard_normal g in
      c ← math_sqrt (1 - rho ^ 2);
      let '(z, g2) := standard_normal g1 in
      let z2 := rho * z1 + c * z in
      sv ← math_sqrt v;
      sdt ← math_sqrt dt;
      let v := Rmax 0.01 (v + kappa * (theta - v) * dt + sigma_v * sv * sdt * z2) in
      sv' ← math_sqrt v;
      sdt' ← math_sqrt dt;
      let s := s * math_exp (- 0.5 * v * dt + sv' * sdt' * z1) in
      heston_steps n' kappa theta sigma_v rho dt s v g2
  end.

(** The outer loop: [n_paths] simulated paths, counting those that end at
    or above the strike. *)
Fixpoint heston_paths (n_paths n_steps : nat) (kappa theta sigma_v rho dt : R)
    (spot strike v0 : R) (itm_count : nat) (g : rng_state)
    : result (nat * rng_state) :=
  match n_paths with
  | O => mret (itm_count, g)
  | S n' =>
      '(s, _, g') ← heston_steps n_steps kappa theta sigma_v rho dt spot v0 g;
      let itm_count := if decide (s >= strike) then S itm_count else itm_count in
      heston_paths n' n_steps kappa theta sigma_v rho dt spot strike v0 itm_count g'
  end.

Definition heston_stochastic_volatility_probability
    (spot strike : R) (days_to_expiry : Z) (iv : R) (v0 : option R)
    (kappa theta sigma_v rho : R) (n_paths : nat) : result R :=
  let t := years days_to_expiry in
  if decide (t <= 0 \/ iv <= 0) then mret 0 else
  let v0 := match v0 with Some v => v | None => iv ^ 2 end in
  let dt := t / 100 in
  q ← truediv t dt;
  (* over the reals [t / dt] is 100; in doubles the quotient can round
     below 100, and [int] then gives 99 steps *)
  let n_steps := Z.to_nat (py_int q) in
  let g := seed 42 in
  '(itm_count, _) ← heston_paths n_paths n_steps kappa theta sigma_v rho dt
                      spot strike v0 0 g;
  truediv (INR itm_count) (INR n_paths).


(** The loop over the jumps of one path. *)
Fixpoint jump_steps (n_jumps : nat) (mu_jump sigma_jump : R) (s : R) (g : rng_state)
    : R * rng_state :=
  match n_jumps with
  | O => (s, g)
  | S n' =>
      let '(z, g') := standard_normal g in
      let jump_size := math_exp (mu_jump + sigma_jump * z) in
      jump_steps n' mu_jump sigma_jump (s * jump_size) g'
  end.

Fixpoint jump_paths (n_paths : nat) (lambda_jump mu_jump sigma_jump : R)
    (spot strike iv t : R) (itm_count : nat) (g : rng_state)
    : result (nat * rng_state) :=
  match n_paths with
  | O => mret (itm_count, g)
  | S n' =>
      let s := spot in
      '(n_jumps, g1) ← np_poisson (lambda_jump * t) g;
      let '(z, g2) := standard_normal g1 in
      st ← math_sqrt t;
      let s := s * math_exp (- 0.5 * iv ^ 2 * t + iv * st * z) in
      let '(s, g3) := jump_steps n_jumps mu_jump sigma_jump s g2 in
      let itm_count := if decide (s >= strike) then S itm_count else itm_count in
      jump_paths n' lambda_jump mu_jump sigma_jump spot strike iv t itm_count g3
  end.

Definition jump_diffusion_probability
    (spot strike : R) (days_to_expiry : Z) (iv : R)
    (lambda_jump mu_jump sigma_jump : R) (n_paths : nat) : result R :=
  let t := years days_to_expiry in
  if decide (t <= 0 \/ iv <= 0) then mret 0 else
  let g := seed 42 in
  '(itm_count, _) ← jump_paths n_paths lambda_jump mu_jump sigma_jump
                      spot strike iv t 0 g;
  truediv (INR itm_count) (INR n_paths).

Fixpoint garch_steps (n_steps : nat) (alpha beta omega dt : R)
    (s v : R) (g : rng_state) : result (R * R * rng_state) :=
  match n_steps with
  | O => mret (s, v, g)
  | S n' =>
      let '(z, g') := standard_normal g in
      sv ← math_sqrt v;
      sdt ← math_sqrt dt;
      let s := s * math_exp (- 0.5 * v * dt + sv * sdt * z) in
      shock ←
        (if decide (s > 0) then
           sv' ← math_sqrt v;
           sdt' ← math_sqrt dt;
           back ← truediv s (math_exp (- 0.5 * v * dt + sv' * sdt' * z));
           ratio ← truediv s back;
           l ← math_log ratio;
           mret (l ^ 2)
         else mret 0);
      let v := omega + alpha * shock + beta * v in
      let v := Rmax 0.0001 v in
      garch_steps n' alpha beta omega dt s v g'
  end.

Fixpoint garch_paths (n_paths n_steps : nat) (alpha beta omega dt : R)
    (spot strike iv : R) (itm_count : nat) (g : rng_state)
    : result (nat * rng_state) :=
  match n_paths with
  | O => mret (itm_count, g)
  | S n' =>
      '(s, _, g') ← garch_steps n_steps alpha beta omega dt spot (iv ^ 2) g;
      let itm_count := if decide (s >= strike) then S itm_count else itm_count in
      garch_paths n' n_steps alpha beta omega dt spot strike iv itm_count g'
  end.

Definition garch_probability
    (spot strike : R) (days_to_expiry : Z) (iv : R)
    (alpha beta omega : R) (n_paths : nat) : result R :=
  let t := years days_to_expiry in
  if decide (t <= 0 \/ iv <= 0) then mret 0 else
  let dt := t / 100 in
  q ← truediv t dt;
  (* 100 over the reals, 99 or 100 in doubles, as in the Heston model *)
  let n_steps := Z.to_nat (py_int q) in
  let g := seed 42 in
  '(itm_count, _) ← garch_paths n_paths n_steps alpha beta omega dt
                      spot strike iv 0 g;
  truediv (INR itm_count) (INR n_paths).

(** [option_prices] is not used: the branch that would read it is [pass]. *)
Definition risk_neutral_density_probability
    (spot strike : R) (days_to_expiry : Z) (iv : R)
    (option_prices : option (gmap string R)) : result R :=
  let t := years days_to_expiry in
  if decide (spot <= 0 \/ strike <= 0 \/ iv <= 0 \/ t <= 0) then mret 0 else
  '(_, d2) ← _d1_d2 spot strike t iv 0;
  mret (norm_cdf d2).


End models.

End probability.

(** ** [app/services/greeks.py] *)

Module greeks.
Import enums.

Definition years (days_to_expiry : Z) : R := IZR (Z.max days_to_expiry 1) / 252.

Definition _d1_d2 (spot strike t iv r : R) : result (R * R) :=
  if decide (t <= 0 \/ iv <= 0 \/ spot <= 0 \/ strike <= 0) then mret (0, 0) else
  q ← truediv spot strike;
  l ← math_log q;
  s ← math_sqrt t;
  d1 ← truediv (l + (r + 0.5 * iv ^ 2) * t) (iv * s);
  s' ← math_sqrt t;
  let d2 := d1 - iv * s' in
  mret (d1, d2).

Definition black_scholes_price
    (spot strike : R) (days_to_expiry : Z) (iv : R) (option_type : OptionType)
    (rate : R) : result R :=
  let t := years days_to_expiry in
  '(d1, d2) ← _d1_d2 spot strike t iv rate;
  if decide (option_type = CALL)
  then mret (spot * norm_cdf d1 - strike * math_exp (- rate * t) * norm_cdf d2)
  else mret (strike * math_exp (- rate * t) * norm_cdf (- d2) - spot * norm_cdf (- d1)).

(** The dict of six floats that [compute_greeks] returns. *)
Definition greeks_dict (price delta gamma theta vega rho : R) : gmap string R :=
  {[ "price" := price; "delta" := delta; "gamma" := gamma;
     "theta" := theta; "vega" := vega; "rho" := rho ]}.

Definition compute_greeks
    (spot strike : R) (days_to_expiry : Z) (iv : R) (option_type : OptionType)
    (rate : R) : result (gmap string R) :=
  let t := years days_to_expiry in
  if decide (t <= 0 \/ iv <= 0 \/ spot <= 0 \/ strike <= 0)
  then mret (greeks_dict 0 0 0 0 0 0) else
  '(d1, d2) ← _d1_d2 spot strike t iv rate;
  price ← black_scholes_price spot strike days_to_expiry iv option_type rate;
  let '(delta, rho) :=
    if decide (option_type = CALL)
    then (norm_cdf d1, t * strike * math_exp (- rate * t) * norm_cdf d2)
    else (norm_cdf d1 - 1, - t * strike * math_exp (- rate * t) * norm_cdf (- d2)) in
  s1 ← math_sqrt t;
  gamma ← truediv (norm_pdf d1) (spot * iv * s1);
  s2 ← math_sqrt t;
  let vega := spot * norm_pdf d1 * s2 / 100 in
  s3 ← math_sqrt t;
  decay ← truediv (spot * norm_pdf d1 * iv) (2 * s3);
  let theta :=
    (- decay
     - rate * strike * math_exp (- rate * t)
       * norm_cdf (if decide (option_type = CALL) then d2 else - d2)) / 252 in
  mret (greeks_dict price delta gamma theta vega rho).

End greeks.

(** ** [app/services/volatility.py] *)

Module volatility.

Definition iv_rank (iv : R) (history : list R) : result R :=
  match history with
  | [] => mret 0
  | _ =>
      let count := sum_list ((fun _ : R => 1%nat) <$> filter (fun x : R => x <= iv) history) in
      truediv (100 * INR count) (INR (length history))
  end.

Definition iv_percentile (iv : R) (history : list R) : result R :=
  match history with
  | [] => mret 0
  | _ =>
      let below := sum_list ((fun _ : R => 1%nat) <$> filter (fun x : R => x < iv) history) in
      truediv (100 * INR below) (INR (length history))
  end.

(** [t = max(days_to_expiry, 1) / 252.0] *)
Definition years (days_to_expiry : Z) : R := IZR (Z.max days_to_expiry 1) / 252.

(** [np.log]: outside [(0, +oo)] numpy yields [-inf] or NaN (no exception);
    what the code computes from such a value is not represented: [None]. *)
Definition np_log (x : R) : option R :=
  if decide (0 < x) then Some (ln x) else None.

(** [np.sqrt]: NaN, reported as [None], on a negative argument. *)
Definition np_sqrt (x : R) : option R :=
  if decide (0 <= x) then Some (sqrt x) else None.

(** Lines 9-23.  [spot / strike] divides two Python floats and raises on a
    zero strike; the rest is numpy arithmetic, evaluated where [t > 0] and
    [iv > 0]. *)
Definition _black_scholes_price (spot strike t r iv : R)
    (option_type : enums.OptionType) : result (option R) :=
  if decide (t <= 0 \/ iv <= 0) then
    mret (Some (Rmax 0 (if decide (option_type = enums.CALL)
                        then spot - strike else strike - spot)))
  else
    q ← truediv spot strike;
    mret (l ← np_log q;
          let d1 := (l + (r + 0.5 * iv ^ 2) * t) / (iv * sqrt t) in
          let d2 := d1 - iv * sqrt t in
          if decide (option_type = enums.CALL)
          then Some (spot * norm_cdf d1 - strike * exp (- r * t) * norm_cdf d2)
          else Some (strike * exp (- r * t) * norm_cdf (- d2) - spot * norm_cdf (- d1))).

(** The bisection loop of [implied_volatility]: [max_iter] turns left, on
    the bracket [[low, high]]. *)
Fixpoint implied_volatility_loop (max_iter : nat) (spot strike option_price t : R)
    (option_type : enums.OptionType) (rate tol : R) (low high : R)
    : result (option R) :=
  match max_iter with
  | O => mret (Some (0.5 * (low + high)))
  | S n =>
      let mid := 0.5 * (low + high) in
      price ← _black_scholes_price spot strike t rate mid option_type;
      match price with
      | None => mret None
      | Some price =>
          if decide (Rabs (price - option_price) < tol) then mret (Some mid)
          else if decide (price > option_price)
          then implied_volatility_loop n spot strike option_price t option_type
                 rate tol low mid
          else implied_volatility_loop n spot strike option_price t option_type
                 rate tol mid high
      end
  end.

(** Lines 26-50; the defaults are [rate = 0.0], [tol = 1e-5] and
    [max_iter = 50]. *)
Definition implied_volatility (spot strike option_price : R) (days_to_expiry : Z)
    (option_type : enums.OptionType) (rate tol : R) (max_iter : nat)
    : result (option R) :=
  let t := years days_to_expiry in
  if decide (option_price <= 0 \/ t <= 0) then mret (Some 0) else
  implied_volatility_loop max_iter spot strike option_price t option_type rate tol
    (1 / 1000000) 5.

(** [np.std(xs, ddof=1)]: the sample standard deviation; with fewer than
    two values numpy divides by zero into NaN. *)
Definition np_std_ddof1 (xs : list R) : option R :=
  let n := length xs in
  if decide (n <= 1)%nat then None else
  let mu := foldr Rplus 0 xs / INR n in
  Some (sqrt (foldr Rplus 0 ((fun x : R => (x - mu) ^ 2) <$> xs) / INR (n - 1))).

(** Lines 53-56; the default is [trading_days = 252]. *)
Definition historical_volatility (returns : list R) (trading_days : Z) : option R :=
  match returns with
  | [] => Some 0
  | _ =>
      sd ← np_std_ddof1 returns;
      s ← np_sqrt (IZR trading_days);
      Some (sd * s)
  end.

End volatility.

(** ** [app/strategies/engine.py] *)

Module strategy_engine.

(** Values of a [Dict[str, Any]] of filter parameters. *)
Inductive pyval : Type :=
  | PNum (x : R)
  | PStr (s : string)
  | PNone.

#[global] Instance pyval_eq_dec : EqDecision pyval.
Proof. solve_decision. Defined.

(** [x < v] for a number [x]: a [TypeError] unless [v] is a number. *)
Definition py_lt (x : R) (v : pyval) : result bool :=
  match v with
  | PNum y => Ok (bool_decide (x < y))
  | PStr _ | PNone => Raise TypeError
  end.

Record datetime : Type := {
  year : Z; month : Z; day : Z;
  hour : Z; minute : Z; second : Z; microsecond : Z
}.

Record Condition : Type := {
  indicator : string;
  operator : string;
  threshold : R
}.

Record Filter : Type := {
  name : string;
  params : gmap string pyval
}.

Record Action : Type := {
  side : string;
  quantity : Z;
  instrument : string
}.

Record ExitRule : Type := {
  type : string;
  value : R
}.

Record StrategyDefinition : Type := {
  strategy_name : string;
  mode : enums.StrategyMode;
  conditions : list Condition;
  filters : list Filter;
  actions : list Action;
  exits : list ExitRule;
  multi_leg : bool
}.

Record StrategyRunRequest : Type := {
  strategy : StrategyDefinition;
  symbol : string
}.

Record Trade : Type := {
  trade_time : datetime;
  trade_symbol : string;
  trade_side : string;
  trade_quantity : Z;
  trade_price : R;
  trade_pnl : R
}.

(** The dict returned by [run_live_strategy]. *)
Record RunResult : Type := {
  executed : bool;
  trades : list Trade;
  context : gmap string R
}.

(** [str.upper], on ASCII letters. *)
Definition upper_ascii (c : ascii) : ascii :=
  let n := nat_of_ascii c in
  if (97 <=? n)%nat && (n <=? 122)%nat then ascii_of_nat (n - 32) else c.

Fixpoint upper (s : string) : string :=
  match s with
  | EmptyString => EmptyString
  | String c s' => String (upper_ascii c) (upper s')
  end.

(** Code that reads the clock: [clock k] is what the [k]-th call of
    [datetime.utcnow()] returns; a computation takes the number of calls made
    so far and returns its value with the updated number, or raises. *)
Definition io (A : Type) : Type := nat -> result (A * nat).

#[global] Instance io_ret : MRet io := fun A a k => Ok (a, k).
#[global] Instance io_bind : MBind io := fun A B f m k =>
  match m k with
  | Ok (a, k') => f a k'
  | Raise e => Raise e
  end.

Definition lift {A : Type} (r : result A) : io A := fun k =>
  match r with
  | Ok a => Ok (a, k)
  | Raise e => Raise e
  end.

Definition utcnow (clock : nat -> datetime) : io datetime :=
  fun k => Ok (clock k, S k).

(** The context is the dict of numeric indicators built by the route;
    [context.get(name, 0.0)] is [default 0 (context !! name)]. *)
Definition _evaluate_condition (cond : Condition) (context : gmap string R) : bool :=
  let value := default 0 (context !! indicator cond) in
  let op := operator cond in
  let thr := threshold cond in
  if decide (op = ">") then bool_decide (value > thr)
  else if decide (op = "<") then bool_decide (value < thr)
  else if decide (op = ">=") then bool_decide (value >= thr)
  else if decide (op = "<=") then bool_decide (value <= thr)
  else if decide (op = "==") then bool_decide (value = thr)
  else if decide (op = "!=") then bool_decide (value <> thr)
  else false.

(** One turn of the loop of [_apply_filters]: [true] when the turn executes
    [return False]. *)
Definition filter_rejects (clock : nat -> datetime) (f : Filter)
    (context : gmap string R) : io bool :=
  low ← (if decide (name f = "min_volume")
         then lift (py_lt (default 0 (context !! "volume"))
                          (default (PNum 0) (params f !! "value")))
         else mret false);
  if (low : bool) then mret true else
  if decide (name f = "session") then
    let session := default PNone (params f !! "value") in
    now ← utcnow clock;
    mret (bool_decide (session = PStr "opening") && bool_decide (hour now > 10)%Z)
  else mret false.

Fixpoint _apply_filters (clock : nat -> datetime) (filters : list Filter)
    (context : gmap string R) : io bool :=
  match filters with
  | [] => mret true
  | f :: rest =>
      stop ← filter_rejects clock f context;
      if (stop : bool) then mret false else _apply_filters clock rest context
  end.

Fixpoint _build_trades_from_actions (clock : nat -> datetime)
    (actions : list Action) (price : R) : io (list Trade) :=
  match actions with
  | [] => mret []
  | a :: rest =>
      let side := upper (side a) in
      let qty := quantity a in
      now ← utcnow clock;
      ts ← _build_trades_from_actions clock rest price;
      mret ({| trade_time := now; trade_symbol := instrument a; trade_side := side;
               trade_quantity := qty; trade_price := price; trade_pnl := 0 |} :: ts)
  end.

Definition run_live_strategy (clock : nat -> datetime)
    (req : StrategyRunRequest) (context : gmap string R) : io RunResult :=
  let strat := strategy req in
  let all_conditions :=
    forallb (fun c => _evaluate_condition c context) (conditions strat) in
  filters_ok ← _apply_filters clock (filters strat) context;
  let should_trade := all_conditions && filters_ok in
  let price := default 0 (context !! "price") in
  trades ← (if should_trade
            then _build_trades_from_actions clock (actions strat) price
            else mret []);
  mret {| executed := should_trade; trades := trades; context := context |}.

Record StrategyBacktestRequest : Type := {
  backtest_strategy : StrategyDefinition;
  backtest_symbol : string;
  start_date : datetime;
  end_date : datetime;
  initial_capital : R
}.


End strategy_engine.

(** ** [app/backtest/engine.py] *)

Module backtest_engine.

Record BacktestStats : Type := {
  total_trades : nat;
  win_rate : R;
  profit_factor : R;
  max_drawdown : R;
  sharpe : R
}.

(** numpy division, element by element: a zero divisor yields an infinity
    or NaN (no exception), reported as [None]. *)
Definition np_divide (x y : R) : option R :=
  if decide (y = 0) then None else Some (x / y).

Definition np_sum (xs : list R) : R := foldr Rplus 0 xs.

(** [np.diff(a)]: [a[i+1] - a[i]]. *)
Fixpoint np_diff (a : list R) : list R :=
  match a with
  | x :: (y :: _) as rest => (y - x) :: np_diff rest
  | _ => []
  end.

(** [np.maximum.accumulate(a)], from the running maximum [m]. *)
Fixpoint maximum_accumulate_from (m : R) (a : list R) : list R :=
  match a with
  | [] => []
  | x :: rest => Rmax m x :: maximum_accumulate_from (Rmax m x) rest
  end.

Definition maximum_accumulate (a : list R) : list R :=
  match a with
  | [] => []
  | x :: rest => x :: maximum_accumulate_from x rest
  end.

(** [min] of a non-empty array. *)
Definition np_min (x : R) (xs : list R) : R := foldr Rmin x xs.

Definition np_mean (xs : list R) : option R :=
  np_divide (np_sum xs) (INR (length xs)).

(** [np.std]: the population standard deviation. *)
Definition np_std (xs : list R) : option R :=
  mu ← np_mean xs;
  var ← np_mean ((fun x : R => (x - mu) ^ 2) <$> xs);
  Some (sqrt var).

(** Line 29: [np.diff(equity_curve) / equity_curve[:-1]]. *)
Definition returns (equity_curve : list R) : option (list R) :=
  mapM (fun de : R * R => np_divide de.1 de.2)
       (zip (np_diff equity_curve) (removelast equity_curve)).

Definition compute_stats (equity_curve : list R) : option BacktestStats :=
  if decide (length equity_curve < 2)%nat then
    Some {| total_trades := 0; win_rate := 0; profit_factor := 0;
            max_drawdown := 0; sharpe := 0 |}
  else
  returns ← returns equity_curve;
  let total_trades := length returns in
  let wins := length (filter (fun r : R => r > 0) returns) in
  let losses := length (filter (fun r : R => r < 0) returns) in
  win_rate ← (if decide (total_trades = 0%nat) then Some 0
              else np_divide (INR wins) (INR total_trades));
  let gross_profit := np_sum (filter (fun r : R => r > 0) returns) in
  let gross_loss :=
    if decide (losses = 0%nat) then 0
    else - np_sum (filter (fun r : R => r < 0) returns) in
  let profit_factor :=
    if decide (gross_loss > 0) then gross_profit / gross_loss
    else if decide (gross_profit > 0) then 999
    else 0 in
  let peak := maximum_accumulate equity_curve in
  drawdowns ← mapM (fun ep : R * R => np_divide (ep.1 - ep.2) ep.2)
                   (zip equity_curve peak);
  let max_dd :=
    match drawdowns with
    | [] => 0
    | x :: xs => np_min x xs
    end in
  sharpe ← (if decide (length returns = 0%nat) then Some 0
            else
              mu ← np_mean returns;
              sd ← np_std returns;
              q ← np_divide mu (sd + 1 / 100000000);
              Some (q * sqrt 252));
  Some {| total_trades := total_trades; win_rate := win_rate;
          profit_factor := profit_factor; max_drawdown := max_dd;
          sharpe := sharpe |}.

Record BacktestResult : Type := {
  result_id : string;
  result_symbol : string;
  result_strategy_name : string;
  result_equity_curve : list R;
  result_trades : list strategy_engine.Trade;
  result_stats : BacktestStats
}.

(** Lines 8-13. *)
Definition _apply_fee_and_slippage (price fee_perc slippage_bps : R) (side : string)
    : R :=
  let fee := price * fee_perc in
  let slip := price * slippage_bps / 10000 in
  if decide (strategy_engine.upper side = "BUY") then price + fee + slip
  else price - fee - slip.

(** The loop of [equity_curve_from_trades]: the values appended to the
    curve, from the running [equity]. *)
Fixpoint equity_curve_loop (equity : R) (trades : list strategy_engine.Trade)
    : list R :=
  match trades with
  | [] => []
  | t :: rest =>
      let direction :=
        if decide (strategy_engine.upper (strategy_engine.trade_side t) = "BUY")
        then 1 else -1 in
      let equity :=
        equity + direction * IZR (strategy_engine.trade_quantity t)
                 * strategy_engine.trade_price t * 0.001 in
      equity :: equity_curve_loop equity rest
  end.

(** Lines 16-23. *)
Definition equity_curve_from_trades (initial_capital : R)
    (trades : list strategy_engine.Trade) : list R :=
  initial_capital :: equity_curve_loop initial_capital trades.

(** Lines 56-72: the trades of [run_backtest]. *)
Definition backtest_trades (req : strategy_engine.StrategyBacktestRequest)
    (prices : list R) : list strategy_engine.Trade :=
  flat_map
    (fun ip : nat * R =>
       if decide (ip.1 mod 10 = 0)%nat then
         map (fun a : strategy_engine.Action =>
                let side := strategy_engine.upper (strategy_engine.side a) in
                let exec_price := _apply_fee_and_slippage ip.2 0.0005 1 side in
                {| strategy_engine.trade_time := strategy_engine.start_date req;
                   strategy_engine.trade_symbol := strategy_engine.instrument a;
                   strategy_engine.trade_side := side;
                   strategy_engine.trade_quantity := strategy_engine.quantity a;
                   strategy_engine.trade_price := exec_price;
                   strategy_engine.trade_pnl := 0 |})
             (strategy_engine.actions (strategy_engine.backtest_strategy req))
       else [])
    (enumerate prices).

(** Lines 56-84.  The statistics, hence the result, are [None] where
    [compute_stats] meets a zero equity value. *)
Definition run_backtest (req : strategy_engine.StrategyBacktestRequest)
    (prices : list R) : option BacktestResult :=
  let trades := backtest_trades req prices in
  let equity_curve :=
    equity_curve_from_trades (strategy_engine.initial_capital req) trades in
  stats ← compute_stats equity_curve;
  let name :=
    strategy_engine.strategy_name (strategy_engine.backtest_strategy req) in
  Some {| result_id := String.append "bt_" (replace_char " " "_" name);
          result_symbol := strategy_engine.backtest_symbol req;
          result_strategy_name := name;
          result_equity_curve := equity_curve;
          result_trades := trades;
          result_stats := stats |}.

End backtest_engine.

(** ** [numpy.polyfit] *)

(** [np.arange(n)] *)
Definition np_arange (n : nat) : list R := INR <$> seq 0 n.

(** [np.polyfit(x, y, 1)[0]]: the slope of the least-squares line through
    the points [(x_i, y_i)], the covariance of [x] and [y] over the variance
    of [x].  It is [None] where the fit is not determined (no point, or all
    [x_i] equal). *)
Definition polyfit_slope (x y : list R) : option R :=
  mx ← backtest_engine.np_mean x;
  my ← backtest_engine.np_mean y;
  backtest_engine.np_divide
    (backtest_engine.np_sum (zip_with (fun a b : R => (a - mx) * (b - my)) x y))
    (backtest_engine.np_sum ((fun a : R => (a - mx) ^ 2) <$> x)).

(** ** [app/services/oi.py] *)

Module oi.

(** Lines 6-13.  [changes] has at least one element where [changes[-1]] is
    read.  The test [np.std(changes) == 0] is exact over the reals; in
    doubles the standard deviation of equal changes is exactly 0 on
    integer-valued series and can be a rounding residue on others, which the
    z-score then divides by. *)
Definition oi_spike_detector (oi_series : list R) : option R :=
  if decide (length oi_series < 2)%nat then Some 0 else
  let changes := backtest_engine.np_diff oi_series in
  sd ← backtest_engine.np_std changes;
  if decide (sd = 0) then Some 0 else
  final ← last changes;
  mu ← backtest_engine.np_mean changes;
  sd' ← backtest_engine.np_std changes;
  backtest_engine.np_divide (final - mu) sd'.

(** Lines 16-19. *)
Definition volume_oi_ratio (volume oi : R) : result R :=
  if decide (oi <= 0) then mret 0 else truediv volume oi.

(** Lines 22-32. *)
Definition multi_day_trend_classifier (oi_series : list R) : option string :=
  if decide (length oi_series < 2)%nat then Some "flat" else
  let x := np_arange (length oi_series) in
  slope ← polyfit_slope x oi_series;
  if decide (slope > 0) then Some "rising"
  else if decide (slope < 0) then Some "falling"
  else Some "flat".

(** Lines 35-39. *)
Definition oi_anomaly_score (oi_series : list R) : option R :=
  if decide (oi_series = []) then Some 0 else
  final ← last oi_series;
  mu ← backtest_engine.np_mean oi_series;
  sd ← backtest_engine.np_std oi_series;
  z ← backtest_engine.np_divide (final - mu) (sd + 1 / 100000000);
  Some (Rabs z).

(** Lines 42-50 and 53-59. *)
Definition calculate_pcr (put_oi call_oi : R) : result R :=
  if decide (call_oi <= 0) then mret 0 else truediv put_oi call_oi.

Definition calculate_pcr_volume (put_volume call_volume : R) : result R :=
  if decide (call_volume <= 0) then mret 0 else truediv put_volume call_volume.

(** The dict returned by [compute_oi_metrics]. *)
Record OIMetrics : Type := {
  metrics_spike_score : R;
  metrics_volume_oi_ratio : R;
  metrics_trend : string;
  metrics_anomaly_score : R
}.

(** Lines 62-72.  [None]: one of the numpy computations is not finite. *)
Definition compute_oi_metrics (oi_series volume_series : list R)
    : result (option OIMetrics) :=
  let oi_spike := oi_spike_detector oi_series in
  vol_oi ← volume_oi_ratio (default 0 (last volume_series)) (default 0 (last oi_series));
  let trend := multi_day_trend_classifier oi_series in
  let anomaly := oi_anomaly_score oi_series in
  mret (s ← oi_spike; t ← trend; a ← anomaly;
        Some {| metrics_spike_score := s; metrics_volume_oi_ratio := vol_oi;
                metrics_trend := t; metrics_anomaly_score := a |}).

End oi.

(** ** [app/services/market.py] *)

Module market.

(** [xs[-n:]] for [n >= 0]: the last [n] items, and the whole list for
    [n = 0] or [n] beyond the length. *)
Definition suffix (n : nat) (xs : list R) : list R :=
  if decide (n = 0%nat) then xs else drop (length xs - n) xs.

(** Lines 36-39.  [None]: numpy divides by a zero total into an infinity or
    NaN. *)
Definition vwap (prices volumes : list R) : option R :=
  if decide (prices = [] \/ volumes = [] \/ length prices <> length volumes)
  then Some 0
  else backtest_engine.np_divide
         (backtest_engine.np_sum (zip_with Rmult prices volumes))
         (backtest_engine.np_sum volumes + 1 / 100000000).

(** Lines 42-51. *)
Definition vwap_signal (prices volumes : list R) : option string :=
  if decide (prices = []) then Some "neutral" else
  v ← vwap prices volumes;
  final ← last prices;
  if decide (final > v * 1.001) then Some "above_vwap"
  else if decide (final < v * 0.999) then Some "below_vwap"
  else Some "near_vwap".

(** Lines 54-63; the defaults are [period = 20] and [num_std = 2.0].
    [None]: the window is empty (for [period = 0] and no data) or its mean
    is [-1e-8], and numpy yields NaN or an infinity. *)
Definition bollinger_squeeze (close : list R) (period : nat) (num_std : R) : option R :=
  if decide (length close < period)%nat then Some 0 else
  let window := suffix period close in
  ma ← backtest_engine.np_mean window;
  sd ← backtest_engine.np_std window;
  let upper := ma + num_std * sd in
  let lower := ma - num_std * sd in
  backtest_engine.np_divide (upper - lower) (ma + 1 / 100000000).

(** Lines 66-74. *)
Definition trend_model (close : list R) : option enums.TrendDirection :=
  if decide (length close < 2)%nat then Some enums.SIDEWAYS else
  slope ← polyfit_slope (np_arange (length close)) close;
  if decide (slope > 0) then Some enums.UP
  else if decide (slope < 0) then Some enums.DOWN
  else Some enums.SIDEWAYS.

(** Lines 77-84; the default is [lookback = 20].  [None]: the window is
    empty (for [lookback = 0] and no data), where numpy has no mean and no
    last value. *)
Definition mean_reversion_score (close : list R) (lookback : nat) : option R :=
  if decide (length close < lookback)%nat then Some 0 else
  let window := suffix lookback close in
  ma ← backtest_engine.np_mean window;
  sd0 ← backtest_engine.np_std window;
  let sd := sd0 + 1 / 100000000 in
  final ← last window;
  z ← backtest_engine.np_divide (final - ma) sd;
  Some (- z).

(** Lines 87-99.  [None]: a close that is not positive has no finite
    logarithm. *)
Definition market_regime (close : list R) : option enums.MarketRegime :=
  if decide (length close < 30)%nat then Some enums.RANGE else
  logs ← mapM volatility.np_log close;
  let returns := backtest_engine.np_diff logs in
  sd ← backtest_engine.np_std returns;
  let vol := sd * sqrt 252 in
  slope ← polyfit_slope (np_arange (length close)) close;
  if decide (vol < 0.15 /\ slope > 0) then Some enums.BULL
  else if decide (vol < 0.15 /\ slope < 0) then Some enums.BEAR
  else if decide (vol >= 0.15 /\ Rabs slope < 1 / 1000000) then Some enums.VOLATILE
  else Some enums.RANGE.

End market.

(** ** [app/api/routes.py] (the routes over the embedded services) *)

Module routes.


Record ProbabilityRequest : Type := {
  spot : R;
  strike : R;
  days_to_expiry : Z;
  iv : R;
  option_type : enums.OptionType
}.

(** Lines 721-755; [g] is the state of numpy's global generator when the
    route runs.  The inner [None]: the Monte Carlo mean is not finite. *)
Definition post_probability `{NumpyRandom} (g : rng_state) (req : ProbabilityRequest)
    : result (option schemas.ProbabilityResult) :=
  d2_prob ← probability.black_scholes_d2_probability
              (spot req) (strike req) (days_to_expiry req) (iv req) (option_type req);
  log_prob ← probability.lognormal_itm_probability
               (spot req) (strike req) (days_to_expiry req) (iv req);
  bin_prob ← probability.binomial_itm_probability
               (spot req) (strike req) (days_to_expiry req) (iv req) 50;
  let mc_prob := probability.monte_carlo_itm_probability g
                   (spot req) (strike req) (days_to_expiry req) (iv req) 10000 in
  let exp_move := probability.expected_move (spot req) (days_to_expiry req) (iv req) in
  mret (mc_prob ← mc_prob;
        Some {| schemas.d2_probability := d2_prob;
                schemas.lognormal_itm_probability := log_prob;
                schemas.binomial_itm_probability := bin_prob;
                schemas.monte_carlo_itm_probability := mc_prob;
                schemas.expected_move := exp_move |}).

Record IVRequest : Type := {
  iv_spot : R;
  iv_strike : R;
  iv_option_price : R;
  iv_days_to_expiry : Z;
  iv_option_type : enums.OptionType;
  iv_rate : R;
  historical_iv_series : option (list R)
}.

(** [x or []] for an optional list. *)
Definition or_empty (x : option (list R)) : list R := default [] x.

(** Lines 758-771.  The inner [None]: a numpy computation is not finite. *)
Definition post_iv (req : IVRequest) : result (option schemas.IVResponse) :=
  iv ← volatility.implied_volatility (iv_spot req) (iv_strike req)
         (iv_option_price req) (iv_days_to_expiry req) (iv_option_type req)
         (iv_rate req) (1 / 100000) 50;
  match iv with
  | None => mret None
  | Some iv =>
      let hv := volatility.historical_volatility
                  (or_empty (historical_iv_series req)) 252 in
      rank ← volatility.iv_rank iv (or_empty (historical_iv_series req));
      pct ← volatility.iv_percentile iv (or_empty (historical_iv_series req));
      mret (hv ← hv;
            Some {| schemas.iv := iv; schemas.iv_rank := Some rank;
                    schemas.iv_percentile := Some pct; schemas.hv := Some hv |})
  end.

(** Lines 786-806; [range(days)] is empty for [days <= 0]. *)
Definition post_oi (days : Z) : result (option schemas.OIResponse) :=
  let oi_series := (fun i : nat => 1000 + INR i * 10) <$> seq 0 (Z.to_nat days) in
  let vol_series := (fun i : nat => 100 + INR i * 5) <$> seq 0 (Z.to_nat days) in
  metrics ← oi.compute_oi_metrics oi_series vol_series;
  let put_oi := 1500000 in
  let call_oi := 1200000 in
  let put_volume := 500000 in
  let call_volume := 450000 in
  pcr_oi ← oi.calculate_pcr put_oi call_oi;
  pcr_volume ← oi.calculate_pcr_volume put_volume call_volume;
  mret (m ← metrics;
        Some {| schemas.spike_score := oi.metrics_spike_score m;
                schemas.volume_oi_ratio := oi.metrics_volume_oi_ratio m;
                schemas.trend := oi.metrics_trend m;
                schemas.anomaly_score := oi.metrics_anomaly_score m;
                schemas.pcr_oi := Some pcr_oi;
                schemas.pcr_volume := Some pcr_volume |}).

(** Lines 838-846: [_BACKTEST_STORE] is the module-level dict; a route takes
    the store and returns it updated. *)
Definition post_strategy_backtest (store : gmap string backtest_engine.BacktestResult)
    (req : strategy_engine.StrategyBacktestRequest)
    : option (backtest_engine.BacktestResult
              * gmap string backtest_engine.BacktestResult) :=
  let prices := (fun i : nat => 100 + INR i * 0.5) <$> seq 0 200 in
  result ← backtest_engine.run_backtest req prices;
  Some (result, <[backtest_engine.result_id result := result]> store).

(** Lines 968-983; [db] is the lookup in the collection [backtest_results],
    read only when the store has no such id. *)
Definition get_backtest_result (store : gmap string backtest_engine.BacktestResult)
    (db : string -> option backtest_engine.BacktestResult) (id : string)
    : backtest_engine.BacktestResult :=
  match store !! id with
  | Some r => r
  | None =>
      match db id with
      | None =>
          {| backtest_engine.result_id := id;
             backtest_engine.result_symbol := "N/A";
             backtest_engine.result_strategy_name := "N/A";
             backtest_engine.result_equity_curve := [];
             backtest_engine.result_trades := [];
             backtest_engine.result_stats :=
               {| backtest_engine.total_trades := 0; backtest_engine.win_rate := 0;
                  backtest_engine.profit_factor := 0;
                  backtest_engine.max_drawdown := 0; backtest_engine.sharpe := 0 |} |}
      | Some doc => doc
      end
  end.

End routes.

(** * Specification-level notions *)

(** A model call returns a probability: it does not raise, and its value
    lies in [0,1]. *)
Definition returns_probability (r : result R) : Prop :=
  exists v : R, r = Ok v /\ 0 <= v <= 1.

(** Following the spec's words (the consensus engine): the four sub-scores.
    The HV/IV component of the volatility sub-score counts when both values
    are present and the IV is positive. *)
Definition probability_sub_score (probability : schemas.ProbabilityResult) : R :=
  100 * Rmax (schemas.d2_probability probability)
             (schemas.monte_carlo_itm_probability probability).

Definition volatility_sub_score (volatility : schemas.IVResponse) : R :=
  let components :=
    match schemas.hv volatility with
    | Some h =>
        if decide (schemas.iv volatility > 0)
        then [Rmin 2 (h / schemas.iv volatility) * 50] else []
    | None => []
    end
    ++ match schemas.iv_rank volatility with
       | Some k => [100 - Rabs (k - 50)]
       | None => []
       end
    ++ match schemas.iv_percentile volatility with
       | Some k => [100 - Rabs (k - 50)]
       | None => []
       end in
  match components with
  | [] => 50
  | _ => foldr Rplus 0 components / INR (length components)
  end.

Definition oi_sub_score (oi : schemas.OIResponse) : R :=
  100 - Rmin 100 (Rabs (schemas.spike_score oi) * 10 + schemas.anomaly_score oi * 10).

Definition market_sub_score (market : schemas.MarketResponse) : R :=
  (50 + schemas.mean_reversion_score market * 10
   + match schemas.trend_signal market with
     | enums.UP => 70
     | enums.DOWN => 30
     | enums.SIDEWAYS => 50
     end
   + match schemas.regime market with
     | enums.BULL => 70
     | enums.BEAR => 30
     | enums.RANGE => 50
     | enums.VOLATILE => 40
     end) / 3.


(** Following the spec's words: the period-over-period returns of an equity
    curve, [(e(i+1) - e(i)) / e(i)]. *)
Fixpoint period_returns (equity_curve : list R) : list R :=
  match equity_curve with
  | x :: (y :: _) as rest => (y - x) / x :: period_returns rest
  | _ => []
  end.

(** Lines 32-42 of [compute_stats]: the profit factor, as a function of the
    returns. *)
Definition profit_factor_of (returns : list R) : R :=
  let losses := length (filter (fun r : R => r < 0) returns) in
  let gross_profit := backtest_engine.np_sum (filter (fun r : R => r > 0) returns) in
  let gross_loss :=
    if decide (losses = 0%nat) then 0
    else - backtest_engine.np_sum (filter (fun r : R => r < 0) returns) in
  if decide (gross_loss > 0) then gross_profit / gross_loss
  else if decide (gross_profit > 0) then 999
  else 0.

(** Following the spec's words: a condition holds when its comparison,
    one of [>], [<], [>=], [<=], [==], [!=], holds between the indicator's
    value (0.0 when the context has no such indicator) and the threshold. *)
Definition condition_holds (context : gmap string R)
    (c : strategy_engine.Condition) : Prop :=
  let v := default 0 (context !! strategy_engine.indicator c) in
  let thr := strategy_engine.threshold c in
  let op := strategy_engine.operator c in
  (op = ">" /\ v > thr) \/ (op = "<" /\ v < thr)
  \/ (op = ">=" /\ v >= thr) \/ (op = "<=" /\ v <= thr)
  \/ (op = "==" /\ v = thr) \/ (op = "!=" /\ v <> thr).

(** A filter passes at time [now]: a minimum-volume filter when the volume
    of the context is not below its numeric threshold, a session filter
    unless its session is "opening" and the hour is past 10; filters of
    other names always pass. *)
Definition filter_passes (now : strategy_engine.datetime) (context : gmap string R)
    (f : strategy_engine.Filter) : Prop :=
  (strategy_engine.name f = "min_volume" ->
   exists v : R,
     default (strategy_engine.PNum 0) (strategy_engine.params f !! "value")
       = strategy_engine.PNum v
     /\ ~ default 0 (context !! "volume") < v)
  /\ (strategy_engine.name f = "session" ->
      ~ (strategy_engine.params f !! "value" = Some (strategy_engine.PStr "opening")
         /\ (strategy_engine.hour now > 10)%Z)).

(** Every filter passes, each session filter at the clock reading it makes
    ([k] readings were made before). *)
Fixpoint filters_pass (clock : nat -> strategy_engine.datetime) (k : nat)
    (context : gmap string R) (fs : list strategy_engine.Filter) : Prop :=
  match fs with
  | [] => True
  | f :: rest =>
      filter_passes (clock k) context f
      /\ filters_pass clock
           (if decide (strategy_engine.name f = "session") then S k else k)
           context rest
  end.

(** The threshold of every minimum-volume filter is a number. *)
Definition filters_well_typed (fs : list strategy_engine.Filter) : Prop :=
  Forall
    (fun f : strategy_engine.Filter =>
       strategy_engine.name f = "min_volume" ->
       exists v : R,
         default (strategy_engine.PNum 0) (strategy_engine.params f !! "value")
           = strategy_engine.PNum v)
    fs.

(** The trade synthesized for an action at a price. *)
Definition trade_of_action (price : R) (a : strategy_engine.Action)
    (t : strategy_engine.Trade) : Prop :=
  strategy_engine.trade_symbol t = strategy_engine.instrument a
  /\ strategy_engine.trade_side t = strategy_engine.upper (strategy_engine.side a)
  /\ strategy_engine.trade_quantity t = strategy_engine.quantity a
  /\ strategy_engine.trade_price t = price
  /\ strategy_engine.trade_pnl t = 0.

(** An [IVResponse] with a zero IV and a positive HV (the route [/iv] yields
    [iv = 0.0] for a non-positive option price and [hv > 0] for a varying
    history), and neutral companions for it. *)
Definition zero_iv_volatility : schemas.IVResponse :=
  {| schemas.iv := 0; schemas.iv_rank := None;
     schemas.iv_percentile := None; schemas.hv := Some 0.2 |}.

Definition neutral_probability : schemas.ProbabilityResult :=
  {| schemas.d2_probability := 0.5; schemas.lognormal_itm_probability := 0.5;
     schemas.binomial_itm_probability := 0.5;
     schemas.monte_carlo_itm_probability := 0.5; schemas.expected_move := 0 |}.

Definition quiet_oi : schemas.OIResponse :=
  {| schemas.spike_score := 0; schemas.volume_oi_ratio := 0; schemas.trend := "flat";
     schemas.anomaly_score := 0; schemas.pcr_oi := None; schemas.pcr_volume := None |}.

Definition sideways_market : schemas.MarketResponse :=
  {| schemas.atr_trend := enums.SIDEWAYS; schemas.vwap_signal := "neutral";
     schemas.bollinger_squeeze := 0; schemas.trend_signal := enums.SIDEWAYS;
     schemas.mean_reversion_score := 0; schemas.regime := enums.RANGE |}.

(** The context that the route [/strategy/run-live] builds, a clock that
    reads 09:30 UTC, and the spec's example strategy, with the single
    condition [pcr_oi < 0.7]. *)
Definition route_context : gmap string R :=
  {[ "price" := 100; "volume" := 100000; "iv_rank" := 45;
     "price_above_vwap" := 1; "pcr_oi" := 1.25; "pcr_volume" := 1.11 ]}.

Definition morning_clock (k : nat) : strategy_engine.datetime :=
  {| strategy_engine.year := 2024; strategy_engine.month := 1;
     strategy_engine.day := 15; strategy_engine.hour := 9;
     strategy_engine.minute := 30; strategy_engine.second := Z.of_nat k;
     strategy_engine.microsecond := 0 |}.

Definition low_pcr_request : strategy_engine.StrategyRunRequest :=
  {| strategy_engine.strategy :=
       {| strategy_engine.strategy_name := "low pcr";
          strategy_engine.mode := enums.LIVE;
          strategy_engine.conditions :=
            [ {| strategy_engine.indicator := "pcr_oi";
                 strategy_engine.operator := "<";
                 strategy_engine.threshold := 0.7 |} ];
          strategy_engine.filters :=
            [ {| strategy_engine.name := "min_volume";
                 strategy_engine.params :=
                   {[ "value" := strategy_engine.PNum 50000 ]} |} ];
          strategy_engine.actions :=
            [ {| strategy_engine.side := "buy"; strategy_engine.quantity := 1;
                 strategy_engine.instrument := "NIFTY" |} ];
          strategy_engine.exits := [];
          strategy_engine.multi_leg := false |};
     strategy_engine.symbol := "NIFTY" |}.

(** The same strategy with its minimum-volume threshold typed as a
    string. *)
Definition quoted_threshold_request : strategy_engine.StrategyRunRequest :=
  {| strategy_engine.strategy :=
       {| strategy_engine.strategy_name := "low pcr";
          strategy_engine.mode := enums.LIVE;
          strategy_engine.conditions :=
            [ {| strategy_engine.indicator := "pcr_oi";
                 strategy_engine.operator := "<";
                 strategy_engine.threshold := 0.7 |} ];
          strategy_engine.filters :=
            [ {| strategy_engine.name := "min_volume";
                 strategy_engine.params :=
                   {[ "value" := strategy_engine.PStr "50000" ]} |} ];
          strategy_engine.actions :=
            [ {| strategy_engine.side := "buy"; strategy_engine.quantity := 1;
                 strategy_engine.instrument := "NIFTY" |} ];
          strategy_engine.exits := [];
          strategy_engine.multi_leg := false |};
     strategy_engine.symbol := "NIFTY" |}.

(** A request that trades when the IV rank is below 50, behind a
    minimum-volume filter and an opening-session filter. *)
Definition low_iv_rank_request : strategy_engine.StrategyRunRequest :=
  {| strategy_engine.strategy :=
       {| strategy_engine.strategy_name := "low iv rank";
          strategy_engine.mode := enums.LIVE;
          strategy_engine.conditions :=
            [ {| strategy_engine.indicator := "iv_rank";
                 strategy_engine.operator := "<";
                 strategy_engine.threshold := 50 |};
              {| strategy_engine.indicator := "unknown_indicator";
                 strategy_engine.operator := "<=";
                 strategy_engine.threshold := 0 |} ];
          strategy_engine.filters :=
            [ {| strategy_engine.name := "min_volume";
                 strategy_engine.params :=
                   {[ "value" := strategy_engine.PNum 50000 ]} |};
              {| strategy_engine.name := "session";
                 strategy_engine.params :=
                   {[ "value" := strategy_engine.PStr "opening" ]} |} ];
          strategy_engine.actions :=
            [ {| strategy_engine.side := "buy"; strategy_engine.quantity := 2;
                 strategy_engine.instrument := "NIFTY" |} ];
          strategy_engine.exits := [];
          strategy_engine.multi_leg := false |};
     strategy_engine.symbol := "NIFTY" |}.

(** A backtest request on the example strategy, which only buys; the same
    request under the name [low_pcr], with the underscore typed in; and a
    live request whose minimum-volume threshold is a string. *)
Definition buy_one_request : strategy_engine.StrategyBacktestRequest :=
  {| strategy_engine.backtest_strategy :=
       strategy_engine.strategy low_pcr_request;
     strategy_engine.backtest_symbol := "NIFTY";
     strategy_engine.start_date := morning_clock 0;
     strategy_engine.end_date := morning_clock 1;
     strategy_engine.initial_capital := 100000 |}.

Definition buy_one_request_underscored : strategy_engine.StrategyBacktestRequest :=
  {| strategy_engine.backtest_strategy :=
       {| strategy_engine.strategy_name := "low_pcr";
          strategy_engine.mode := enums.BACKTEST;
          strategy_engine.conditions := [];
          strategy_engine.filters := [];
          strategy_engine.actions :=
            [ {| strategy_engine.side := "BUY"; strategy_engine.quantity := 5;
                 strategy_engine.instrument := "BANKNIFTY" |} ];
          strategy_engine.exits := [];
          strategy_engine.multi_leg := false |};
     strategy_engine.backtest_symbol := "BANKNIFTY";
     strategy_engine.start_date := morning_clock 0;
     strategy_engine.end_date := morning_clock 1;
     strategy_engine.initial_capital := 50000 |}.

Definition string_threshold_request : strategy_engine.StrategyRunRequest :=
  {| strategy_engine.strategy :=
       {| strategy_engine.strategy_name := "string threshold";
          strategy_engine.mode := enums.LIVE;
          strategy_engine.conditions := [];
          strategy_engine.filters :=
            [ {| strategy_engine.name := "min_volume";
                 strategy_engine.params :=
                   {[ "value" := strategy_engine.PStr "50000" ]} |} ];
          strategy_engine.actions := [];
          strategy_engine.exits := [];
          strategy_engine.multi_leg := false |};
     strategy_engine.symbol := "NIFTY" |}.

(** Thirty closes that grow from 1 by a log-return of 0.005 a day. *)
Definition steady_rise : list R := (fun i : nat => exp (INR i * 0.005)) <$> seq 0 30.

(** A request of the route [/probability] for a CALL at the money. *)
Definition at_the_money_call_request : routes.ProbabilityRequest :=
  {| routes.spot := 100; routes.strike := 100; routes.days_to_expiry := 30;
     routes.iv := 0.2; routes.option_type := enums.CALL |}.

(** A probability result out of range (a d2 probability of 5), and a
    volatility response that carries the IV alone. *)
Definition out_of_range_probability : schemas.ProbabilityResult :=
  {| schemas.d2_probability := 5; schemas.lognormal_itm_probability := 0.5;
     schemas.binomial_itm_probability := 0.5;
     schemas.monte_carlo_itm_probability := 0.5; schemas.expected_move := 0 |}.

Definition bare_volatility : schemas.IVResponse :=
  {| schemas.iv := 0.2; schemas.iv_rank := None;
     schemas.iv_percentile := None; schemas.hv := None |}.

(** A volatility response with a positive IV, and the request of the route
    [/iv] for an option that is quoted at zero. *)
Definition positive_iv_volatility : schemas.IVResponse :=
  {| schemas.iv := 0.25; schemas.iv_rank := Some 40;
     schemas.iv_percentile := Some 35; schemas.hv := Some 0.2 |}.

Definition worthless_option_request : routes.IVRequest :=
  {| routes.iv_spot := 100; routes.iv_strike := 120; routes.iv_option_price := 0;
     routes.iv_days_to_expiry := 30; routes.iv_option_type := enums.CALL;
     routes.iv_rate := 0; routes.historical_iv_series := Some [0.18; 0.22] |}.

(** * Properties *)

(** ** Python primitives *)

Lemma truediv_Ok (x y : R) : y <> 0 -> truediv x y = Ok (x / y).
Proof. intros Hy. unfold truediv. destruct (decide (y = 0)); [contradiction | reflexivity]. Qed.

Lemma truediv_zero (x : R) : truediv x 0 = Raise ZeroDivisionError.
Proof. unfold truediv. destruct (decide (0 = 0)); [reflexivity | contradiction]. Qed.

Lemma math_log_Ok (x : R) : 0 < x -> math_log x = Ok (ln x).
Proof. intros Hx. unfold math_log. destruct (decide (0 < x)); [reflexivity | contradiction]. Qed.

Lemma math_sqrt_Ok (x : R) : 0 <= x -> math_sqrt x = Ok (sqrt x).
Proof. intros Hx. unfold math_sqrt. destruct (decide (0 <= x)); [reflexivity | contradiction]. Qed.

Lemma py_sum_foldr (xs : list R) : py_sum xs = foldr Rplus 0 xs.
Proof.
  unfold py_sum.
  assert (H : forall (l : list R) (a : R), fold_left Rplus l a = a + foldr Rplus 0 l).
  { induction l as [| x l IH]; intros a; cbn; [lra |]. rewrite IH. lra. }
  rewrite H. lra.
Qed.

(** ** [scipy.stats.norm]: reflection of the normal distribution function *)

Lemma norm_pdf_even (x : R) : norm_pdf (- x) = norm_pdf x.
Proof. unfold norm_pdf. do 2 f_equal. lra. Qed.

Lemma gauss_area_irrel (a b : R) (pr : Riemann_integrable norm_pdf a b) :
  RiemannInt pr = gauss_area a b.
Proof. apply RiemannInt_P5. Qed.

Lemma gauss_area_diag (a : R) : gauss_area a a = 0.
Proof. apply RiemannInt_P9. Qed.

Lemma gauss_area_swap (a b : R) : gauss_area a b = - gauss_area b a.
Proof. apply RiemannInt_P8. Qed.

Lemma primitive_gauss_area (a b : R) (h : a <= b)
    (C0 : forall x : R, a <= x <= b -> continuity_pt norm_pdf x) (t : R) :
  a <= t <= b -> primitive h (FTC_P1 h C0) t = gauss_area a t.
Proof.
  intros [H1 H2]. unfold primitive.
  destruct (Rle_dec a t) as [r | n]; [| lra].
  destruct (Rle_dec t b) as [r0 | n]; [| lra].
  apply gauss_area_irrel.
Qed.

(** The area over [[0, x]] equals the area over [[-x, 0]]: both
    [t |-> area 0 t] and [t |-> area (-t) 0] are antiderivatives of the
    (even) density on [[0, x]] and vanish at 0. *)
Lemma gauss_area_reflect (x : R) : 0 <= x -> gauss_area 0 x = gauss_area (- x) 0.
Proof.
  intros Hx.
  assert (h1 : - x <= 0) by lra.
  assert (C1 : forall t : R, - x <= t <= 0 -> continuity_pt norm_pdf t)
    by (intros; apply norm_pdf_continuity).
  assert (C2 : forall t : R, 0 <= t <= x -> continuity_pt norm_pdf t)
    by (intros; apply norm_pdf_continuity).
  set (P := primitive h1 (FTC_P1 h1 C1)).
  set (F := primitive Hx (FTC_P1 Hx C2)).
  set (G := fun t : R => - P (- t)).
  assert (HF : antiderivative norm_pdf F 0 x) by apply RiemannInt_P29.
  assert (HG : antiderivative norm_pdf G 0 x).
  { split; [| exact Hx]. intros t Ht.
    assert (HP : derivable_pt_lim P (- t) (norm_pdf (- t))).
    { apply RiemannInt_P28. lra. }
    assert (Hneg : derivable_pt_lim (fun s : R => - s) t (- 1)).
    { replace (-1) with (- (1)) by lra.
      apply (derivable_pt_lim_opp id). apply derivable_pt_lim_id. }
    pose proof (derivable_pt_lim_comp _ _ _ _ _ Hneg HP) as Hc.
    pose proof (derivable_pt_lim_opp _ _ _ Hc) as Ho.
    assert (Hd : derivable_pt_lim G t (norm_pdf t)).
    { replace (norm_pdf t) with (- (norm_pdf (- t) * -1))
        by (rewrite norm_pdf_even; lra).
      exact Ho. }
    exists (exist _ (norm_pdf t) Hd). reflexivity. }
  destruct (antiderivative_Ucte _ _ _ _ _ HF HG) as [c Hc].
  pose proof (Hc 0 ltac:(lra)) as H0.
  pose proof (Hc x ltac:(lra)) as H1.
  unfold F, G, P in H0, H1.
  rewrite primitive_gauss_area in H0, H1 by lra.
  rewrite primitive_gauss_area in H0, H1 by lra.
  rewrite gauss_area_diag in H0.
  rewrite gauss_area_diag in H1.
  replace (- 0) with 0 in H0 by lra.
  lra.
Qed.

Lemma gauss_area_odd (x : R) : gauss_area 0 (- x) = - gauss_area 0 x.
Proof.
  destruct (Rle_dec 0 x) as [Hx | Hx].
  - rewrite (gauss_area_swap 0 (- x)).
    rewrite <- gauss_area_reflect by exact Hx. reflexivity.
  - rewrite (gauss_area_reflect (- x)) by lra.
    replace (- - x) with x by lra.
    apply gauss_area_swap.
Qed.

Lemma norm_cdf_reflect (x : R) : norm_cdf x + norm_cdf (- x) = 1.
Proof. unfold norm_cdf. rewrite gauss_area_odd. lra. Qed.

Lemma norm_cdf_0 : norm_cdf 0 = 0.5.
Proof. unfold norm_cdf. rewrite gauss_area_diag. lra. Qed.

(** ** [scipy.stats.norm]: the normal distribution function lies in [0,1]

    The bound is the Gaussian integral: on [x >= 0] the function
    [area(0,x)^2 + polar_mass(x) / PI] has derivative 0, its value at 0 is
    [atan 1 / PI = 1/4], and the polar mass is not negative. *)

Lemma Rabs_bounds (x a : R) : Rabs x <= a -> - a <= x <= a.
Proof. unfold Rabs. destruct (Rcase_abs x); lra. Qed.

Lemma exp_second_order (y : R) :
  Rabs y <= 1 / 2 -> 0 <= exp y - 1 - y <= 2 * (y * y).
Proof.
  intros Hy.
  apply Rabs_bounds in Hy.
  pose proof (exp_ineq1_le y) as H1.
  pose proof (exp_ineq1_le (- y)) as H2.
  pose proof (exp_pos y) as Hp.
  assert (H3 : exp y * exp (- y) = 1) by (rewrite <- exp_plus, Rplus_opp_r; apply exp_0).
  split; [lra |].
  assert (H4 : exp y * (1 - y) <= 1) by nra.
  nra.
Qed.

Lemma kernel_quotient_bound (x h s : R) :
  h <> 0 -> Rabs h * (2 * Rabs x + 1) <= 1 / 2 -> Rabs h <= 1 -> 0 <= s <= 1 ->
  Rabs (polar_kernel_dx x s + (- / h) * (polar_kernel (x + h) s + (-1) * polar_kernel x s))
  <= ((2 * Rabs x + 1) * (2 * Rabs x + 1) + 1) * Rabs h.
Proof.
  intros Hh Hsmall Hh1 Hs.
  set (c := (1 + s * s) / 2).
  assert (Hc : 1 / 2 <= c <= 1) by (unfold c; nra).
  set (y := - c * (2 * x * h + h * h)).
  set (e0 := exp (- (x * x) * c)).
  assert (He0 : 0 < e0 <= 1).
  { split; [apply exp_pos |]. unfold e0. rewrite <- exp_0.
    destruct (Req_dec (- (x * x) * c) 0) as [-> | Hne]; [lra |].
    left. apply exp_increasing. nra. }
  assert (Hk1 : polar_kernel (x + h) s = e0 * exp y / (2 * c)).
  { unfold polar_kernel, e0, y, c. rewrite <- exp_plus. f_equal; [f_equal; field | field]. }
  assert (Hk0 : polar_kernel x s = e0 / (2 * c)).
  { unfold polar_kernel, e0, c. f_equal; [f_equal; field | field]. }
  assert (Hkx : polar_kernel_dx x s = - x * e0).
  { unfold polar_kernel_dx, e0, c. f_equal. f_equal. field. }
  rewrite Hk1, Hk0, Hkx.
  assert (Hy : Rabs y <= 1 / 2).
  { unfold y. rewrite Rabs_mult, Rabs_Ropp, (Rabs_pos_eq c) by lra.
    replace (2 * x * h + h * h) with (h * (2 * x + h)) by ring.
    rewrite Rabs_mult.
    assert (Rabs (2 * x + h) <= 2 * Rabs x + 1).
    { eapply Rle_trans; [apply Rabs_triang |]. rewrite Rabs_mult, (Rabs_pos_eq 2) by lra. lra. }
    pose proof (Rabs_pos h) as Hh0. pose proof (Rabs_pos (2 * x + h)) as Hx0.
    assert (Hp : Rabs h * Rabs (2 * x + h) <= Rabs h * (2 * Rabs x + 1))
      by (apply Rmult_le_compat_l; assumption).
    assert (Hp0 : 0 <= Rabs h * Rabs (2 * x + h)) by (apply Rmult_le_pos; assumption).
    nra. }
  pose proof (exp_second_order y Hy) as [Hr0 Hr1].
  set (r := exp y - 1 - y) in *.
  replace (- x * e0 + - / h * (e0 * exp y / (2 * c) + -1 * (e0 / (2 * c))))
    with (- e0 * (r / (2 * c * h) - h / 2)).
  2:{ unfold r, y. field. split; lra. }
  rewrite Rabs_mult, Rabs_Ropp, (Rabs_pos_eq e0) by lra.
  assert (Hb : Rabs (r / (2 * c * h) - h / 2)
               <= ((2 * Rabs x + 1) * (2 * Rabs x + 1) + 1) * Rabs h).
  { eapply Rle_trans; [apply Rabs_triang |].
    rewrite Rabs_Ropp.
    assert (Hhalf : Rabs (h / 2) <= Rabs h).
    { unfold Rdiv. rewrite Rabs_mult, (Rabs_pos_eq (/ 2)) by lra. pose proof (Rabs_pos h). lra. }
    assert (Hq : Rabs (r / (2 * c * h)) <= (2 * Rabs x + 1) * (2 * Rabs x + 1) * Rabs h).
    { unfold Rdiv. rewrite Rabs_mult, Rabs_inv, !Rabs_mult.
      rewrite (Rabs_pos_eq 2), (Rabs_pos_eq c), (Rabs_pos_eq r) by lra.
      assert (Hah : 0 < Rabs h) by (apply Rabs_pos_lt; exact Hh).
      apply Rmult_le_reg_r with (2 * c * Rabs h); [nra |].
      rewrite Rmult_assoc, Rinv_l by nra.
      assert (Hyy : y * y = c * c * (Rabs h * Rabs h) * ((2 * x + h) * (2 * x + h))).
      { unfold y. replace (Rabs h * Rabs h) with (h * h); [ring |].
        rewrite <- Rabs_mult. symmetry. apply Rabs_pos_eq. apply Rle_0_sqr. }
      assert (H2xh : (2 * x + h) * (2 * x + h) <= (2 * Rabs x + 1) * (2 * Rabs x + 1)).
      { assert (Rabs (2 * x + h) <= 2 * Rabs x + 1).
        { eapply Rle_trans; [apply Rabs_triang |]. rewrite Rabs_mult, (Rabs_pos_eq 2) by lra. lra. }
        replace ((2 * x + h) * (2 * x + h)) with (Rabs (2 * x + h) * Rabs (2 * x + h)).
        - pose proof (Rabs_pos (2 * x + h)). nra.
        - rewrite <- Rabs_mult. apply Rabs_pos_eq. apply Rle_0_sqr. }
      pose proof (Rabs_pos x).
      set (B := (2 * Rabs x + 1) * (2 * Rabs x + 1)) in *.
      set (w := (2 * x + h) * (2 * x + h)) in *.
      assert (0 <= w) by (unfold w; apply Rle_0_sqr).
      assert (Hr2 : r <= 2 * (c * c * (Rabs h * Rabs h) * w)) by lra.
      assert (Hcw : 0 <= c * w) by (apply Rmult_le_pos; lra).
      assert (Hcw1 : c * w <= c * B) by (apply Rmult_le_compat_l; lra).
      assert (Hcw2 : c * (c * w) <= 1 * (c * w)) by (apply Rmult_le_compat_r; lra).
      assert (Hhh : 0 <= Rabs h * Rabs h) by nra.
      assert (Hfin : r <= 2 * (c * B) * (Rabs h * Rabs h)).
      { eapply Rle_trans; [exact Hr2 |].
        replace (2 * (c * c * (Rabs h * Rabs h) * w))
          with (2 * (c * (c * w)) * (Rabs h * Rabs h)) by ring.
        apply Rmult_le_compat_r; [exact Hhh | lra]. }
      lra. }
    lra. }
  pose proof (Rabs_pos (r / (2 * c * h) - h / 2)).
  nra.
Qed.

Lemma RiemannInt_abs_bound (f : R -> R) (m : R) (pr : Riemann_integrable f 0 1) :
  (forall s, 0 <= s <= 1 -> Rabs (f s) <= m) -> Rabs (RiemannInt pr) <= m.
Proof.
  intros Hb.
  eapply Rle_trans; [apply (RiemannInt_P17 pr (RiemannInt_P16 pr)); lra |].
  eapply Rle_trans.
  - apply (RiemannInt_P19 (RiemannInt_P16 pr) (RiemannInt_P14 0 1 m)); [lra |].
    intros s Hs. unfold fct_cte. apply Hb. lra.
  - rewrite RiemannInt_P15. lra.
Qed.

Lemma polar_mass_derivative (x : R) : derivable_pt_lim polar_mass x (polar_mass_dx x).
Proof.
  intros eps Heps.
  set (a := 2 * Rabs x + 1).
  assert (Ha : 1 <= a) by (unfold a; pose proof (Rabs_pos x); lra).
  set (M := a * a + 1).
  assert (HM : 1 < M) by (unfold M; nra).
  assert (Hd : 0 < Rmin (/ (2 * a)) (eps / (2 * M))).
  { apply Rmin_glb_lt; [apply Rinv_0_lt_compat; lra |].
    apply Rdiv_lt_0_compat; lra. }
  exists (mkposreal _ Hd). cbn [pos].
  intros h Hh Hhd.
  assert (Hh1 : Rabs h < / (2 * a)) by (eapply Rlt_le_trans; [exact Hhd | apply Rmin_l]).
  assert (Hh2 : Rabs h < eps / (2 * M)) by (eapply Rlt_le_trans; [exact Hhd | apply Rmin_r]).
  assert (Hsmall : Rabs h * a <= 1 / 2).
  { apply Rmult_le_reg_r with (/ a); [apply Rinv_0_lt_compat; lra |].
    rewrite Rmult_assoc, Rinv_r by lra.
    replace (1 / 2 * / a) with (/ (2 * a)) by (field; lra). lra. }
  assert (Hle1 : Rabs h <= 1).
  { pose proof (Rabs_pos h). nra. }
  set (pr1 := RiemannInt_P10 (-1) (polar_kernel_integrable (x + h)) (polar_kernel_integrable x)).
  set (pr2 := RiemannInt_P10 (- / h) (polar_kernel_dx_integrable x) pr1).
  assert (Hint : RiemannInt pr2
                 = polar_mass_dx x + - / h * (polar_mass (x + h) + -1 * polar_mass x)).
  { unfold pr2. rewrite (RiemannInt_P13 (polar_kernel_dx_integrable x) pr1).
    unfold pr1.
    rewrite (RiemannInt_P13 (polar_kernel_integrable (x + h)) (polar_kernel_integrable x)).
    reflexivity. }
  replace ((polar_mass (x + h) - polar_mass x) / h - polar_mass_dx x)
    with (- RiemannInt pr2) by (rewrite Hint; field; exact Hh).
  rewrite Rabs_Ropp.
  eapply Rle_lt_trans.
  - apply RiemannInt_abs_bound with (m := M * Rabs h).
    intros s Hs. apply kernel_quotient_bound; assumption.
  - apply Rlt_le_trans with (M * (eps / (2 * M))).
    + apply Rmult_lt_compat_l; lra.
    + replace (M * (eps / (2 * M))) with (eps / 2) by (field; lra). lra.
Qed.

(** Fundamental theorem on a segment. *)
Lemma RiemannInt_antiderivative (f F : R -> R) (a b : R)
    (pr : Riemann_integrable f a b) :
  a <= b ->
  (forall x : R, a <= x <= b -> continuity_pt f x) ->
  (forall x : R, a <= x <= b -> derivable_pt_lim F x (f x)) ->
  RiemannInt pr = F b - F a.
Proof.
  intros h C0 HF.
  assert (HP : antiderivative f (primitive h (FTC_P1 h C0)) a b) by apply RiemannInt_P29.
  assert (HA : antiderivative f F a b).
  { split; [| exact h]. intros x Hx. exists (exist _ (f x) (HF x Hx)). reflexivity. }
  destruct (antiderivative_Ucte _ _ _ _ _ HP HA) as [c Hc].
  pose proof (Hc a ltac:(lra)) as Ha.
  pose proof (Hc b ltac:(lra)) as Hb.
  unfold primitive in Ha, Hb.
  destruct (Rle_dec a a) as [r1 | n]; [| lra].
  destruct (Rle_dec a b) as [r2 | n]; [| lra].
  destruct (Rle_dec b b) as [r3 | n]; [| lra].
  rewrite RiemannInt_P9 in Ha.
  rewrite (RiemannInt_P5 _ pr) in Hb.
  lra.
Qed.

Lemma gauss_area_derivative_on (X x : R) :
  0 <= x <= X -> exists F : R -> R,
    (forall t, 0 <= t <= X -> F t = gauss_area 0 t)
    /\ (forall t, 0 <= t <= X -> derivable_pt_lim F t (norm_pdf t)).
Proof.
  intros Hx.
  assert (HX : 0 <= X) by lra.
  assert (C0 : forall t : R, 0 <= t <= X -> continuity_pt norm_pdf t)
    by (intros; apply norm_pdf_continuity).
  exists (primitive HX (FTC_P1 HX C0)). split.
  - intros t Ht. unfold primitive.
    destruct (Rle_dec 0 t) as [r | n]; [| lra].
    destruct (Rle_dec t X) as [r0 | n]; [| lra].
    apply RiemannInt_P5.
  - intros t Ht. apply RiemannInt_P28. exact Ht.
Qed.

(** Substitution [u = x * s]. *)
Lemma scaled_density_area (x : R)
    (pr : Riemann_integrable (fun s : R => x * norm_pdf (x * s)) 0 1) :
  0 <= x -> RiemannInt pr = gauss_area 0 x.
Proof.
  intros Hx.
  destruct (gauss_area_derivative_on x x ltac:(lra)) as (F & HFv & HFd).
  rewrite (RiemannInt_antiderivative _ (fun s : R => F (x * s)) 0 1 pr).
  - rewrite Rmult_1_r, Rmult_0_r, !HFv by lra. rewrite gauss_area_diag. lra.
  - lra.
  - intros s _. reg. apply norm_pdf_continuity.
  - intros s Hs.
    assert (Hxs : 0 <= x * s <= x) by nra.
    assert (Hm : derivable_pt_lim (mult_real_fct x id) s (x * 1))
      by apply derivable_pt_lim_scal, derivable_pt_lim_id.
    pose proof (derivable_pt_lim_comp (mult_real_fct x id) F s (x * 1) (norm_pdf (x * s))
                  Hm (HFd _ Hxs)) as Hc.
    replace (x * norm_pdf (x * s)) with (norm_pdf (x * s) * (x * 1)) by ring.
    exact Hc.
Qed.

Lemma sqrt_2PI_pos : 0 < sqrt (2 * PI).
Proof. apply sqrt_lt_R0. pose proof PI_RGT_0. lra. Qed.

Lemma sqrt_2PI_sqr : sqrt (2 * PI) * sqrt (2 * PI) = 2 * PI.
Proof. apply sqrt_sqrt. pose proof PI_RGT_0. lra. Qed.

Lemma polar_mass_dx_area (x : R) :
  0 <= x ->
  polar_mass_dx x = - exp (- (x * x) / 2) * sqrt (2 * PI) * gauss_area 0 x.
Proof.
  intros Hx. unfold polar_mass_dx.
  set (K := - exp (- (x * x) / 2) * sqrt (2 * PI)).
  assert (prq : Riemann_integrable (fun s : R => x * norm_pdf (x * s)) 0 1).
  { apply continuity_implies_RiemannInt; [lra |]. intros s _. reg. apply norm_pdf_continuity. }
  set (pr3 := RiemannInt_P10 K (RiemannInt_P14 0 1 0) prq).
  rewrite (RiemannInt_P18 (polar_kernel_dx_integrable x) pr3).
  - unfold pr3. rewrite (RiemannInt_P13 (RiemannInt_P14 0 1 0) prq).
    rewrite RiemannInt_P15, scaled_density_area by exact Hx. lra.
  - lra.
  - intros s _. unfold polar_kernel_dx, fct_cte, K, norm_pdf.
    replace (- (x * x) * (1 + s * s) / 2)
      with (- (x * x) / 2 + - (x * s * (x * s)) / 2) by field.
    rewrite exp_plus. field. apply Rgt_not_eq, sqrt_2PI_pos.
Qed.

Lemma polar_mass_0 : polar_mass 0 = PI / 4.
Proof.
  unfold polar_mass.
  rewrite (RiemannInt_antiderivative _ atan 0 1).
  - rewrite atan_1, atan_0. lra.
  - lra.
  - intros s _. apply polar_kernel_continuity.
  - intros s _.
    replace (polar_kernel 0 s) with (/ (1 + s ^ 2)); [apply derivable_pt_lim_atan |].
    unfold polar_kernel.
    replace (- (0 * 0) * (1 + s * s) / 2) with 0 by field.
    rewrite exp_0. field. nra.
Qed.

Lemma polar_mass_nonneg (x : R) : 0 <= polar_mass x.
Proof.
  unfold polar_mass.
  assert (H01 : 0 <= 1) by lra.
  assert (Hle : forall s : R, 0 < s < 1 -> fct_cte 0 s <= polar_kernel x s).
  { intros s _. unfold fct_cte, polar_kernel.
    left. apply Rdiv_lt_0_compat; [apply exp_pos | nra]. }
  pose proof (RiemannInt_P19 (RiemannInt_P14 0 1 0) (polar_kernel_integrable x) H01 Hle) as H.
  rewrite RiemannInt_P15 in H. lra.
Qed.

(** The square of the area over [[0, X]] plus the polar mass over [PI] is
    constant, equal to its value 1/4 at 0. *)
Lemma gauss_area_sqr_polar (X : R) :
  0 <= X -> gauss_area 0 X * gauss_area 0 X + / PI * polar_mass X = 1 / 4.
Proof.
  intros HX.
  destruct (gauss_area_derivative_on X X ltac:(lra)) as (F & HFv & HFd).
  set (Q := (F * F + mult_real_fct (/ PI) polar_mass)%F).
  assert (HQ : forall x, 0 <= x <= X -> derivable_pt_lim Q x 0).
  { intros x Hx.
    pose proof (derivable_pt_lim_mult _ _ _ _ _ (HFd x Hx) (HFd x Hx)) as H1.
    pose proof (derivable_pt_lim_scal _ (/ PI) _ _ (polar_mass_derivative x)) as H2.
    pose proof (derivable_pt_lim_plus _ _ _ _ _ H1 H2) as H3.
    replace 0 with (norm_pdf x * F x + F x * norm_pdf x + / PI * polar_mass_dx x);
      [exact H3 |].
    rewrite polar_mass_dx_area, HFv by lra.
    unfold norm_pdf.
    pose proof sqrt_2PI_pos as Hr. pose proof sqrt_2PI_sqr as Hrr.
    pose proof PI_RGT_0 as Hpi.
    set (r := sqrt (2 * PI)) in *.
    replace (/ PI) with (2 / (r * r)) by (rewrite Hrr; field; lra).
    field. lra. }
  assert (A1 : antiderivative (fct_cte 0) Q 0 X).
  { split; [| exact HX]. intros x Hx. exists (exist _ 0 (HQ x Hx)). reflexivity. }
  assert (A2 : antiderivative (fct_cte 0) (fct_cte 0) 0 X).
  { split; [| exact HX]. intros x Hx.
    exists (exist _ 0 (derivable_pt_lim_const 0 x)). reflexivity. }
  destruct (antiderivative_Ucte _ _ _ _ _ A1 A2) as [c Hc].
  pose proof (Hc 0 ltac:(lra)) as H0.
  pose proof (Hc X ltac:(lra)) as H1.
  unfold Q, plus_fct, mult_fct, mult_real_fct, fct_cte in H0, H1.
  rewrite !HFv in H0, H1 by lra.
  rewrite gauss_area_diag, polar_mass_0 in H0.
  pose proof PI_RGT_0 as Hpi.
  assert (Hq : / PI * (PI / 4) = 1 / 4) by (field; lra).
  lra.
Qed.

Lemma gauss_area_half (x : R) : - (1 / 2) <= gauss_area 0 x <= 1 / 2.
Proof.
  assert (Hpos : forall X, 0 <= X -> - (1 / 2) <= gauss_area 0 X <= 1 / 2).
  { intros X HX.
    pose proof (gauss_area_sqr_polar X HX) as H.
    pose proof (polar_mass_nonneg X) as Hm.
    pose proof PI_RGT_0 as Hpi.
    assert (0 <= / PI * polar_mass X).
    { apply Rmult_le_pos; [left; apply Rinv_0_lt_compat; exact Hpi | exact Hm]. }
    nra. }
  destruct (Rle_dec 0 x) as [Hx | Hx]; [apply Hpos; exact Hx |].
  specialize (Hpos (- x) ltac:(lra)).
  rewrite gauss_area_odd in Hpos. lra.
Qed.

(** The normal distribution function takes its values in [0,1]. *)
Lemma norm_cdf_unit (x : R) : 0 <= norm_cdf x <= 1.
Proof. unfold norm_cdf. pose proof (gauss_area_half x). lra. Qed.

(** Decides the equalities between string literals of the goal. *)
Ltac decide_strings :=
  repeat match goal with
  | |- context [decide (?a = ?b)] =>
      first [ rewrite (decide_True (P := a = b)) by reflexivity
            | rewrite (decide_False (P := a = b)) by discriminate ]
  end.

(** ** Consensus engine *)

Section consensus.
Import consensus_engine.

Lemma raw_score_weights (p v o m : R) :
  raw_score p v o m = 0.35 * p + 0.25 * v + 0.15 * o + 0.25 * m.
Proof.
  unfold raw_score.
  change (weights !!! "probability") with 0.35.
  change (weights !!! "volatility") with 0.25.
  change (weights !!! "oi") with 0.15.
  change (weights !!! "market") with 0.25.
  lra.
Qed.

Lemma clamp_0_100 (x : R) : 0 <= Rmax 0 (Rmin 100 x) <= 100.
Proof.
  split.
  - apply Rmax_l.
  - apply Rmax_lub; [lra | apply Rmin_l].
Qed.

(** The HV/IV component raises exactly when it is selected with a zero IV. *)
Lemma hv_iv_component_cases (volatility : schemas.IVResponse) :
  (exists c, hv_iv_component volatility = Ok c)
  \/ (hv_iv_component volatility = Raise ZeroDivisionError
      /\ schemas.iv volatility = 0
      /\ exists h, schemas.hv volatility = Some h /\ h > 0).
Proof.
  unfold hv_iv_component.
  destruct (schemas.hv volatility) as [h |]; [| left; eexists; reflexivity].
  destruct (decide (h > 0)) as [Hh | Hh]; [| left; eexists; reflexivity].
  destruct (decide (schemas.iv volatility = 0)) as [Hiv | Hiv].
  - right. rewrite Hiv, truediv_zero. repeat split; eauto.
  - left. rewrite truediv_Ok by exact Hiv. eexists; reflexivity.
Qed.

Lemma vol_score_cases (volatility : schemas.IVResponse) :
  (exists v, vol_score volatility = Ok v)
  \/ (vol_score volatility = Raise ZeroDivisionError
      /\ schemas.iv volatility = 0
      /\ exists h, schemas.hv volatility = Some h /\ h > 0).
Proof.
  unfold vol_score.
  destruct (hv_iv_component_cases volatility) as [[c Hc] | (Hr & Hiv & Hh)].
  - left. rewrite Hc. cbn.
    destruct (c ++ rank_component volatility ++ percentile_component volatility)
      as [| x xs] eqn:E; [eexists; reflexivity |].
    rewrite truediv_Ok; [eexists; reflexivity |].
    apply not_0_INR. cbn [length]. lia.
  - right. rewrite Hr. cbn. auto.
Qed.

(** The volatility sub-score is defined unless a positive HV meets a zero
    IV. *)
Lemma vol_score_defined (volatility : schemas.IVResponse) :
  (forall h : R, schemas.hv volatility = Some h -> h > 0 -> schemas.iv volatility <> 0) ->
  exists v : R, vol_score volatility = Ok v.
Proof.
  intros Hiv.
  destruct (vol_score_cases volatility) as [Hv | (_ & Hz & h & Hh & Hpos)];
    [exact Hv |].
  exfalso. exact (Hiv h Hh Hpos Hz).
Qed.

(** Where the guard of the code and the condition of the spec agree (a
    present HV is positive, and so is the IV), the volatility sub-score is
    the one of the spec. *)
Lemma vol_score_spec (volatility : schemas.IVResponse) :
  (forall h : R, schemas.hv volatility = Some h -> h > 0 /\ schemas.iv volatility > 0) ->
  vol_score volatility = Ok (volatility_sub_score volatility).
Proof.
  intros Hagree. unfold vol_score, hv_iv_component, volatility_sub_score.
  assert (Hc : match schemas.hv volatility with
               | Some h =>
                   if decide (h > 0)
                   then q ← truediv h (schemas.iv volatility); mret [Rmin 2 q * 50]
                   else mret []
               | None => mret []
               end
               = Ok match schemas.hv volatility with
                    | Some h =>
                        if decide (schemas.iv volatility > 0)
                        then [Rmin 2 (h / schemas.iv volatility) * 50] else []
                    | None => []
                    end).
  { destruct (schemas.hv volatility) as [h |]; [| reflexivity].
    destruct (Hagree h eq_refl) as [Hh Hiv].
    destruct (decide (h > 0)) as [_ | Hn]; [| contradiction].
    destruct (decide (schemas.iv volatility > 0)) as [_ | Hn]; [| contradiction].
    rewrite truediv_Ok by lra. reflexivity. }
  rewrite Hc. cbn [mbind result_bind mret result_ret].
  unfold rank_component, percentile_component. cbv zeta.
  match goal with
  | |- match ?l with _ => _ end = _ => destruct l as [| x xs]
  end; [reflexivity |].
  rewrite truediv_Ok by (apply not_0_INR; cbn [length]; lia).
  rewrite py_sum_foldr. reflexivity.
Qed.

(** What [compute_consensus] returns, in the sub-scores of its inputs. *)
Lemma compute_consensus_Ok
    (probability : schemas.ProbabilityResult) (volatility : schemas.IVResponse)
    (oi : schemas.OIResponse) (market : schemas.MarketResponse) (v : R) :
  vol_score volatility = Ok v ->
  compute_consensus probability volatility oi market
  = Ok {| schemas.confidence_score :=
            Rmax 0 (Rmin 100 (0.35 * probability_sub_score probability + 0.25 * v
                              + 0.15 * oi_sub_score oi
                              + 0.25 * market_sub_score market));
          schemas.details :=
            {[ "probability_score" := probability_sub_score probability;
               "volatility_score" := v;
               "oi_score" := oi_sub_score oi;
               "market_score" := market_sub_score market ]} |}.
Proof.
  intros Hv. unfold compute_consensus. rewrite Hv.
  cbn [mbind result_bind mret result_ret].
  assert (Hm : (50 + schemas.mean_reversion_score market * 10
                + (if decide (enums.TrendDirection_name (schemas.trend_signal market)
                              = "UP")
                   then 70
                   else if decide (enums.TrendDirection_name
                                     (schemas.trend_signal market) = "DOWN")
                        then 30 else 50)
                + default 50 (regime_map
                                !! enums.MarketRegime_name (schemas.regime market)))
               / 3
               = market_sub_score market).
  { unfold market_sub_score. f_equal. f_equal; [f_equal |].
    - destruct (schemas.trend_signal market); cbn [enums.TrendDirection_name];
        decide_strings; reflexivity.
    - destruct (schemas.regime market); reflexivity. }
  rewrite Hm. unfold confidence_score. rewrite raw_score_weights. reflexivity.
Qed.

Lemma vol_score_zero_iv : vol_score zero_iv_volatility = Raise ZeroDivisionError.
Proof.
  unfold vol_score, hv_iv_component, zero_iv_volatility.
  cbn [schemas.hv schemas.iv].
  destruct (decide (0.2 > 0)) as [_ | Hn]; [| exfalso; lra].
  rewrite truediv_zero. reflexivity.
Qed.

End consensus.

(** C1.  The claim has [compute_consensus] return a confidence in [0,100]
    for all inputs.  With a zero IV beside a positive HV the HV/IV component
    of line 20 divides by zero: [compute_consensus] raises
    [ZeroDivisionError] and returns no confidence at all, here on a
    probability result that is out of range (the defect of C2). *)
Theorem compute_consensus_returns_no_confidence :
  consensus_engine.compute_consensus
    out_of_range_probability zero_iv_volatility quiet_oi sideways_market
  = Raise ZeroDivisionError
  /\ ~ exists r : schemas.ConsensusResponse,
        consensus_engine.compute_consensus
          out_of_range_probability zero_iv_volatility quiet_oi sideways_market
        = Ok r.
Proof.
  assert (H : consensus_engine.compute_consensus
                out_of_range_probability zero_iv_volatility quiet_oi sideways_market
              = Raise ZeroDivisionError).
  { unfold consensus_engine.compute_consensus. rewrite vol_score_zero_iv. reflexivity. }
  split; [exact H |].
  intros [r Hr]. rewrite H in Hr. discriminate Hr.
Qed.

(** X1.  The confidence of the consensus.  Unless a positive HV comes with
    an IV of zero, [compute_consensus] returns; the sub-scores it reports in
    [details] are those of its inputs: [100 * max(d2, Monte Carlo)], the
    volatility sub-score of lines 18-25,
    [100 - min(100, |spike| * 10 + anomaly * 10)] and the mean of the
    mean-reversion, trend and regime components; its [confidence_score] is
    the clamp to [0,100] of [0.35*p + 0.25*v + 0.15*o + 0.25*m] over these
    four sub-scores, and lies in [0,100] whatever the inputs are.  Where a
    present HV is positive and the IV is positive, the volatility sub-score
    is the one of the spec. *)
Theorem compute_consensus_confidence
    (probability : schemas.ProbabilityResult) (volatility : schemas.IVResponse)
    (oi : schemas.OIResponse) (market : schemas.MarketResponse) :
  (forall h : R, schemas.hv volatility = Some h -> h > 0 -> schemas.iv volatility <> 0) ->
  exists (r : schemas.ConsensusResponse) (v : R),
    consensus_engine.compute_consensus probability volatility oi market = Ok r
    /\ consensus_engine.vol_score volatility = Ok v
    /\ schemas.details r
       = {[ "probability_score" := probability_sub_score probability;
            "volatility_score" := v;
            "oi_score" := oi_sub_score oi;
            "market_score" := market_sub_score market ]}
    /\ schemas.confidence_score r
       = Rmax 0 (Rmin 100 (0.35 * probability_sub_score probability + 0.25 * v
                           + 0.15 * oi_sub_score oi + 0.25 * market_sub_score market))
    /\ 0 <= schemas.confidence_score r <= 100
    /\ ((forall h : R, schemas.hv volatility = Some h ->
                       h > 0 /\ schemas.iv volatility > 0) ->
        v = volatility_sub_score volatility).
Proof.
  intros Hiv.
  destruct (vol_score_defined volatility Hiv) as [v Hv].
  exists {| schemas.confidence_score :=
              Rmax 0 (Rmin 100 (0.35 * probability_sub_score probability + 0.25 * v
                                + 0.15 * oi_sub_score oi
                                + 0.25 * market_sub_score market));
            schemas.details :=
              {[ "probability_score" := probability_sub_score probability;
                 "volatility_score" := v;
                 "oi_score" := oi_sub_score oi;
                 "market_score" := market_sub_score market ]} |}, v.
  split; [apply compute_consensus_Ok, Hv |]. split; [exact Hv |].
  split; [reflexivity |]. split; [reflexivity |].
  split; [apply clamp_0_100 |].
  intros Hagree. rewrite (vol_score_spec volatility Hagree) in Hv.
  injection Hv as <-. reflexivity.
Qed.

Lemma compute_consensus_confidence_witness :
  exists r : schemas.ConsensusResponse,
    consensus_engine.compute_consensus
      out_of_range_probability bare_volatility quiet_oi sideways_market = Ok r
    /\ schemas.details r !! "probability_score" = Some 500
    /\ schemas.confidence_score r = 100.
Proof.
  assert (H : forall h : R, schemas.hv bare_volatility = Some h -> h > 0 ->
                schemas.iv bare_volatility <> 0) by (cbn; intros h Hh; discriminate Hh).
  destruct (compute_consensus_confidence out_of_range_probability bare_volatility
              quiet_oi sideways_market H)
    as (r & v & Hr & Hv & Hd & Hc & _ & _).
  assert (Hv50 : v = 50).
  { assert (H50 : consensus_engine.vol_score bare_volatility = Ok 50) by reflexivity.
    rewrite H50 in Hv. injection Hv as <-. reflexivity. }
  assert (Hp : probability_sub_score out_of_range_probability = 500).
  { unfold probability_sub_score, out_of_range_probability.
    cbn [schemas.d2_probability schemas.monte_carlo_itm_probability].
    rewrite Rmax_left by lra. lra. }
  assert (Ho : oi_sub_score quiet_oi = 100).
  { unfold oi_sub_score, quiet_oi. cbn [schemas.spike_score schemas.anomaly_score].
    rewrite Rabs_R0, Rmin_right by lra. lra. }
  assert (Hm : market_sub_score sideways_market = 50).
  { unfold market_sub_score, sideways_market.
    cbn [schemas.mean_reversion_score schemas.trend_signal schemas.regime]. lra. }
  exists r. split; [exact Hr |]. split.
  - rewrite Hd, Hp. reflexivity.
  - rewrite Hc, Hv50, Hp, Ho, Hm.
    rewrite Rmin_left by lra. apply Rmax_right. lra.
Defined.

(** C2.  With [hv = 0.2] present and [iv = 0], the guard of line 19
    ([hv > 0]) selects the HV/IV component and line 20 divides by the zero
    IV: the volatility sub-score, and with it [compute_consensus], raises
    [ZeroDivisionError].  With a negative IV the component is included as
    well: at [iv = -0.1] the sub-score is [min(2, -2) * 50 = -100]. *)
Theorem compute_consensus_zero_iv_raises :
  consensus_engine.vol_score zero_iv_volatility = Raise ZeroDivisionError
  /\ consensus_engine.compute_consensus
       neutral_probability zero_iv_volatility quiet_oi sideways_market
     = Raise ZeroDivisionError
  /\ consensus_engine.vol_score
       {| schemas.iv := - 0.1; schemas.iv_rank := None;
          schemas.iv_percentile := None; schemas.hv := Some 0.2 |}
     = Ok (- 100).
Proof.
  assert (H : consensus_engine.vol_score zero_iv_volatility = Raise ZeroDivisionError).
  { unfold consensus_engine.vol_score, consensus_engine.hv_iv_component,
      zero_iv_volatility.
    cbn [schemas.hv schemas.iv].
    destruct (decide (0.2 > 0)) as [_ | Hn]; [| exfalso; lra].
    rewrite truediv_zero. reflexivity. }
  split; [exact H |].
  split.
  - unfold consensus_engine.compute_consensus. rewrite H. reflexivity.
  - unfold consensus_engine.vol_score, consensus_engine.hv_iv_component,
      consensus_engine.rank_component, consensus_engine.percentile_component.
    cbn [schemas.hv schemas.iv schemas.iv_rank schemas.iv_percentile].
    destruct (decide (0.2 > 0)) as [_ | Hn]; [| exfalso; lra].
    rewrite truediv_Ok by lra. cbn [mbind result_bind mret result_ret app].
    rewrite truediv_Ok by (cbn; lra).
    f_equal. rewrite py_sum_foldr. cbn [foldr length INR].
    rewrite Rmin_right by lra. lra.
Qed.

(** ** Probability models: the closed forms *)

Section closed_forms.
Import enums probability.

Lemma years_pos (days_to_expiry : Z) : 0 < years days_to_expiry.
Proof.
  unfold years.
  assert (H : (1 <= Z.max days_to_expiry 1)%Z) by lia.
  apply IZR_le in H. lra.
Qed.

Lemma _d1_d2_degenerate (spot strike t iv r : R) :
  t <= 0 \/ iv <= 0 \/ spot <= 0 \/ strike <= 0 ->
  _d1_d2 spot strike t iv r = Ok (0, 0).
Proof.
  intros H. unfold _d1_d2.
  destruct (decide (t <= 0 \/ iv <= 0 \/ spot <= 0 \/ strike <= 0)); [reflexivity | contradiction].
Qed.

Lemma _d1_d2_regular (spot strike t iv r : R) :
  0 < t -> 0 < iv -> 0 < spot -> 0 < strike ->
  _d1_d2 spot strike t iv r
  = Ok ((ln (spot / strike) + (r + 0.5 * iv ^ 2) * t) / (iv * sqrt t),
        (ln (spot / strike) + (r + 0.5 * iv ^ 2) * t) / (iv * sqrt t) - iv * sqrt t).
Proof.
  intros Ht Hiv Hspot Hstrike. unfold _d1_d2.
  destruct (decide (t <= 0 \/ iv <= 0 \/ spot <= 0 \/ strike <= 0)) as [H | _]; [lra |].
  rewrite truediv_Ok by lra. cbn.
  rewrite math_log_Ok by (apply Rdiv_lt_0_compat; assumption). cbn.
  rewrite math_sqrt_Ok by lra. cbn.
  pose proof (sqrt_lt_R0 t Ht) as Hs.
  rewrite truediv_Ok by (apply Rgt_not_eq, Rmult_lt_0_compat; assumption).
  reflexivity.
Qed.

Lemma _d1_d2_total (spot strike t iv r : R) :
  exists d1 d2, _d1_d2 spot strike t iv r = Ok (d1, d2).
Proof.
  destruct (decide (t <= 0 \/ iv <= 0 \/ spot <= 0 \/ strike <= 0)) as [H | H].
  - exists 0, 0. apply _d1_d2_degenerate, H.
  - do 2 eexists. apply _d1_d2_regular; lra.
Qed.

End closed_forms.

(** C4.  At the same spot, strike, days to expiry and IV, the analytic-d2
    probabilities of the CALL and of the PUT are both returned and sum to
    exactly 1. *)
Theorem d2_probability_call_put_sum (spot strike : R) (days_to_expiry : Z) (iv : R) :
  exists pc pp : R,
    probability.black_scholes_d2_probability spot strike days_to_expiry iv enums.CALL = Ok pc
    /\ probability.black_scholes_d2_probability spot strike days_to_expiry iv enums.PUT = Ok pp
    /\ pc + pp = 1.
Proof.
  unfold probability.black_scholes_d2_probability.
  destruct (_d1_d2_total spot strike (probability.years days_to_expiry) iv 0)
    as (d1 & d2 & Hd).
  rewrite Hd. cbn.
  exists (norm_cdf d2), (norm_cdf (- d2)).
  repeat split. apply norm_cdf_reflect.
Qed.

(** C10.  When [iv <= 0], [spot <= 0] or [strike <= 0], [_d1_d2] returns
    the neutral pair (0, 0), the analytic-d2 probability is exactly 0.5 for
    the CALL and for the PUT, and the lognormal probability is exactly 0. *)
Theorem degenerate_defaults_disagree
    (spot strike : R) (days_to_expiry : Z) (iv : R) :
  iv <= 0 \/ spot <= 0 \/ strike <= 0 ->
  probability._d1_d2 spot strike (probability.years days_to_expiry) iv 0 = Ok (0, 0)
  /\ probability.black_scholes_d2_probability spot strike days_to_expiry iv enums.CALL
     = Ok 0.5
  /\ probability.black_scholes_d2_probability spot strike days_to_expiry iv enums.PUT
     = Ok 0.5
  /\ probability.lognormal_itm_probability spot strike days_to_expiry iv = Ok 0.
Proof.
  intros H.
  assert (Hd : probability._d1_d2 spot strike (probability.years days_to_expiry) iv 0
               = Ok (0, 0)) by (apply _d1_d2_degenerate; tauto).
  split; [exact Hd |].
  unfold probability.black_scholes_d2_probability, probability.lognormal_itm_probability.
  rewrite Hd. cbn.
  replace (- 0) with 0 by lra. rewrite norm_cdf_0.
  repeat split.
  destruct (decide (spot <= 0 \/ strike <= 0 \/ iv <= 0
                    \/ probability.years days_to_expiry <= 0)) as [_ | Hn];
    [reflexivity | tauto].
Qed.

Lemma degenerate_defaults_disagree_witness :
  (0 <= 0 \/ 100 <= 0 \/ 100 <= 0)
  /\ probability._d1_d2 100 100 (probability.years 30) 0 0 = Ok (0, 0)
  /\ probability.black_scholes_d2_probability 100 100 30 0 enums.CALL = Ok 0.5
  /\ probability.black_scholes_d2_probability 100 100 30 0 enums.PUT = Ok 0.5
  /\ probability.lognormal_itm_probability 100 100 30 0 = Ok 0.
Proof.
  assert (H : 0 <= 0 \/ 100 <= 0 \/ 100 <= 0) by (left; lra).
  split; [exact H | exact (degenerate_defaults_disagree 100 100 30 0 H)].
Defined.

(** ** Greeks *)

Section greeks_properties.
Import enums greeks.

Lemma greeks_years_pos (days_to_expiry : Z) : 0 < years days_to_expiry.
Proof.
  unfold years.
  assert (H : (1 <= Z.max days_to_expiry 1)%Z) by lia.
  apply IZR_le in H. lra.
Qed.

Lemma greeks_d1_d2_regular (spot strike t iv r : R) :
  0 < t -> 0 < iv -> 0 < spot -> 0 < strike ->
  exists d1 d2, _d1_d2 spot strike t iv r = Ok (d1, d2).
Proof.
  intros Ht Hiv Hspot Hstrike. unfold _d1_d2.
  destruct (decide (t <= 0 \/ iv <= 0 \/ spot <= 0 \/ strike <= 0)) as [H | _]; [lra |].
  rewrite truediv_Ok by lra. cbn.
  rewrite math_log_Ok by (apply Rdiv_lt_0_compat; assumption). cbn.
  rewrite math_sqrt_Ok by lra. cbn.
  pose proof (sqrt_lt_R0 t Ht) as Hs.
  rewrite truediv_Ok by (apply Rgt_not_eq, Rmult_lt_0_compat; assumption).
  do 2 eexists. reflexivity.
Qed.

(** Outside the zero guard, [compute_greeks] returns, with delta
    [norm_cdf d1] for the CALL and [norm_cdf d1 - 1] for the PUT. *)
Lemma compute_greeks_regular_delta
    (spot strike : R) (days_to_expiry : Z) (iv : R) (option_type : OptionType) (rate : R) :
  0 < iv -> 0 < spot -> 0 < strike ->
  exists (g : gmap string R) (d1 d2 : R),
    _d1_d2 spot strike (years days_to_expiry) iv rate = Ok (d1, d2)
    /\ compute_greeks spot strike days_to_expiry iv option_type rate = Ok g
    /\ g !! "delta"
       = Some (if decide (option_type = CALL) then norm_cdf d1 else norm_cdf d1 - 1).
Proof.
  intros Hiv Hspot Hstrike.
  pose proof (greeks_years_pos days_to_expiry) as Ht.
  destruct (greeks_d1_d2_regular spot strike _ iv rate Ht Hiv Hspot Hstrike)
    as (d1 & d2 & Hd).
  unfold compute_greeks, black_scholes_price.
  destruct (decide (years days_to_expiry <= 0 \/ iv <= 0 \/ spot <= 0 \/ strike <= 0))
    as [H | _]; [lra |].
  rewrite Hd. cbn.
  pose proof (sqrt_lt_R0 _ Ht) as Hs.
  destruct (decide (option_type = CALL)) as [Hc | Hc]; cbn.
  all: rewrite math_sqrt_Ok by lra; cbn.
  all: rewrite !truediv_Ok
         by (apply Rgt_not_eq; repeat apply Rmult_lt_0_compat; first [assumption | lra]).
  all: cbn.
  all: eexists _, d1, d2; repeat split; reflexivity.
Qed.

End greeks_properties.

(** C5 as stated fails: with [iv = 0] the zero guard returns delta 0 for
    the CALL and for the PUT, so the difference is 0 and not 1. *)
Lemma delta_parity_fails_at_zero_iv :
  exists gc gp : gmap string R,
    greeks.compute_greeks 100 100 30 0 enums.CALL 0 = Ok gc
    /\ greeks.compute_greeks 100 100 30 0 enums.PUT 0 = Ok gp
    /\ gc !! "delta" = Some 0
    /\ gp !! "delta" = Some 0
    /\ 0 - 0 <> 1.
Proof.
  exists (greeks.greeks_dict 0 0 0 0 0 0), (greeks.greeks_dict 0 0 0 0 0 0).
  unfold greeks.compute_greeks.
  destruct (decide (greeks.years 30 <= 0 \/ 0 <= 0 \/ 100 <= 0 \/ 100 <= 0))
    as [_ | Hn]; [| exfalso; apply Hn; right; left; lra].
  repeat split; try reflexivity. lra.
Qed.

(** C5, amended.  For [iv > 0], [spot > 0] and [strike > 0], at identical
    inputs [compute_greeks] returns for the CALL and for the PUT, and the
    CALL delta minus the PUT delta is exactly 1. *)
Theorem delta_call_minus_put
    (spot strike : R) (days_to_expiry : Z) (iv rate : R) :
  0 < iv -> 0 < spot -> 0 < strike ->
  exists (gc gp : gmap string R) (dc dp : R),
    greeks.compute_greeks spot strike days_to_expiry iv enums.CALL rate = Ok gc
    /\ greeks.compute_greeks spot strike days_to_expiry iv enums.PUT rate = Ok gp
    /\ gc !! "delta" = Some dc
    /\ gp !! "delta" = Some dp
    /\ dc - dp = 1.
Proof.
  intros Hiv Hspot Hstrike.
  destruct (compute_greeks_regular_delta spot strike days_to_expiry iv enums.CALL rate
              Hiv Hspot Hstrike) as (gc & d1 & d2 & Hd & Hgc & Hdc).
  destruct (compute_greeks_regular_delta spot strike days_to_expiry iv enums.PUT rate
              Hiv Hspot Hstrike) as (gp & d1' & d2' & Hd' & Hgp & Hdp).
  rewrite Hd in Hd'. injection Hd' as <- <-.
  exists gc, gp, (norm_cdf d1), (norm_cdf d1 - 1).
  repeat split; try assumption. lra.
Qed.

Lemma delta_call_minus_put_witness :
  (0 < 0.2 /\ 0 < 100 /\ 0 < 100)
  /\ exists (gc gp : gmap string R) (dc dp : R),
       greeks.compute_greeks 100 100 30 0.2 enums.CALL 0 = Ok gc
       /\ greeks.compute_greeks 100 100 30 0.2 enums.PUT 0 = Ok gp
       /\ gc !! "delta" = Some dc
       /\ gp !! "delta" = Some dp
       /\ dc - dp = 1.
Proof.
  assert (H1 : 0 < 0.2) by lra.
  assert (H2 : 0 < 100) by lra.
  split; [repeat split; assumption |].
  exact (delta_call_minus_put 100 100 30 0.2 0 H1 H2 H2).
Defined.



(** ** IV rank and IV percentile *)

Section rank_percentile.
Import volatility.

Lemma sum_list_ones {A : Type} (l : list A) :
  sum_list ((fun _ : A => 1%nat) <$> l) = length l.
Proof. induction l as [| x l IH]; cbn; [reflexivity | now rewrite IH]. Qed.

Lemma length_filter_lt_le (iv : R) (history : list R) :
  (length (filter (fun x : R => (x < iv)%R) history)
   <= length (filter (fun x : R => (x <= iv)%R) history))%nat.
Proof.
  induction history as [| x l IH]; [reflexivity |].
  rewrite !filter_cons.
  destruct (decide (x < iv)) as [Hlt | Hlt]; destruct (decide (x <= iv)) as [Hle | Hle];
    cbn; try lia.
  exfalso. lra.
Qed.

(** A count of selected samples over the number of samples, times 100,
    lies in [0,100]. *)
Lemma percentage_bounds (k n : nat) :
  (k <= n)%nat -> (0 < n)%nat -> 0 <= 100 * INR k / INR n <= 100.
Proof.
  intros Hk Hn.
  assert (H0 : 0 < INR n) by (apply lt_0_INR; exact Hn).
  assert (H1 : 0 <= INR k) by apply pos_INR.
  assert (H2 : INR k <= INR n) by (apply le_INR; exact Hk).
  split.
  - apply Rmult_le_pos; [lra | left; apply Rinv_0_lt_compat; exact H0].
  - apply Rmult_le_reg_r with (INR n); [exact H0 |].
    unfold Rdiv. rewrite Rmult_assoc, Rinv_l by lra. lra.
Qed.

Lemma iv_rank_eq (iv x : R) (l : list R) :
  iv_rank iv (x :: l)
  = Ok (100 * INR (length (filter (fun y : R => y <= iv) (x :: l))) / INR (length (x :: l))).
Proof.
  unfold iv_rank. rewrite sum_list_ones.
  apply truediv_Ok, not_0_INR. cbn [length]. lia.
Qed.

Lemma iv_percentile_eq (iv x : R) (l : list R) :
  iv_percentile iv (x :: l)
  = Ok (100 * INR (length (filter (fun y : R => y < iv) (x :: l))) / INR (length (x :: l))).
Proof.
  unfold iv_percentile. rewrite sum_list_ones.
  apply truediv_Ok, not_0_INR. cbn [length]. lia.
Qed.

End rank_percentile.

(** C7.  For every current IV and every history, [iv_rank] returns 100
    times the fraction of samples [<=] the current IV and [iv_percentile]
    100 times the fraction of samples [<] it; the rank is at least the
    percentile, both lie in [0,100], and both are exactly 0 on an empty
    history. *)
Theorem iv_rank_iv_percentile (iv : R) (history : list R) :
  exists rank pct : R,
    volatility.iv_rank iv history = Ok rank
    /\ volatility.iv_percentile iv history = Ok pct
    /\ rank = match history with
              | [] => 0
              | _ => 100 * (INR (length (filter (fun x : R => x <= iv) history))
                            / INR (length history))
              end
    /\ pct = match history with
             | [] => 0
             | _ => 100 * (INR (length (filter (fun x : R => x < iv) history))
                           / INR (length history))
             end
    /\ pct <= rank
    /\ 0 <= pct <= 100
    /\ 0 <= rank <= 100.
Proof.
  destruct history as [| x l].
  - exists 0, 0. cbn. repeat split; try reflexivity; lra.
  - eexists _, _.
    split; [apply iv_rank_eq |]. split; [apply iv_percentile_eq |].
    set (n := length (x :: l)).
    set (kle := length (filter (fun y : R => y <= iv) (x :: l))).
    set (klt := length (filter (fun y : R => y < iv) (x :: l))).
    assert (Hn : (0 < n)%nat) by (unfold n; cbn [length]; lia).
    assert (Hle : (kle <= n)%nat) by apply length_filter.
    assert (Hlt : (klt <= n)%nat) by apply length_filter.
    assert (Hk : (klt <= kle)%nat) by apply length_filter_lt_le.
    assert (H0 : 0 < INR n) by (apply lt_0_INR; exact Hn).
    split; [unfold Rdiv; ring |]. split; [unfold Rdiv; ring |].
    split.
    + apply Rmult_le_compat_r; [left; apply Rinv_0_lt_compat; exact H0 |].
      apply le_INR in Hk. lra.
    + split; apply percentage_bounds; assumption.
Qed.

(** ** Probability models: the lattices and the simulation *)

Section lattices.
Import probability.

Lemma comb_gt (n k : nat) : (n < k)%nat -> comb n k = 0%nat.
Proof.
  revert k. induction n as [| n IH]; intros k Hk.
  - destruct k; [lia | reflexivity].
  - destruct k as [| k]; [lia |].
    cbn [comb]. rewrite (IH k), (IH (S k)) by lia. reflexivity.
Qed.

Lemma C_n_0 (n : nat) : C n 0 = 1.
Proof.
  unfold C. rewrite Nat.sub_0_r. cbn [fact INR].
  field. apply INR_fact_neq_0.
Qed.

Lemma C_n_n (n : nat) : C n n = 1.
Proof.
  unfold C. rewrite Nat.sub_diag. cbn [fact INR].
  field. apply INR_fact_neq_0.
Qed.

(** [math.comb] agrees with the real binomial coefficient. *)
Lemma INR_comb (n k : nat) : (k <= n)%nat -> INR (comb n k) = C n k.
Proof.
  revert k. induction n as [| n IH]; intros k Hk.
  - assert (k = 0%nat) as -> by lia. cbn. rewrite C_n_0. reflexivity.
  - destruct k as [| k].
    + cbn [comb]. rewrite C_n_0. reflexivity.
    + cbn [comb]. rewrite plus_INR.
      destruct (decide (k < n)%nat) as [Hlt | Hge].
      * rewrite !IH by lia. apply pascal. exact Hlt.
      * assert (k = n) as -> by lia.
        rewrite IH by lia. rewrite comb_gt by lia.
        rewrite !C_n_n. cbn. lra.
Qed.

Lemma foldr_Rplus_snoc (l : list R) (x : R) :
  foldr Rplus 0 (l ++ [x]) = foldr Rplus 0 l + x.
Proof. induction l as [| y l IH]; cbn; [lra | rewrite IH; lra]. Qed.

Lemma foldr_seq_sum_f_R0 (w : nat -> R) (n : nat) :
  foldr Rplus 0 (map w (seq 0 (S n))) = sum_f_R0 w n.
Proof.
  induction n as [| n IH].
  - cbn. lra.
  - rewrite seq_S, map_app.
    change (map w [(0 + S n)%nat]) with [w (S n)].
    rewrite foldr_Rplus_snoc, IH. reflexivity.
Qed.

(** The binomial(n, 1/2) weights of all terminal nodes sum to 1. *)
Lemma binomial_weights_total (n : nat) :
  foldr Rplus 0
    (map (fun i : nat => INR (comb n i) * 0.5 ^ i * (1 - 0.5) ^ (n - i)) (seq 0 (S n))) = 1.
Proof.
  rewrite foldr_seq_sum_f_R0.
  rewrite (sum_eq _ (fun i : nat => C n i * 0.5 ^ i * 0.5 ^ (n - i))).
  - rewrite <- binomial. replace (0.5 + 0.5) with 1 by lra. apply pow1.
  - intros i Hi. rewrite INR_comb by exact Hi.
    replace (1 - 0.5) with 0.5 by lra. reflexivity.
Qed.

(** Summing the weights of a selection of nodes gives between 0 and the
    sum over all nodes. *)
Lemma selected_sum_bounds (w : nat -> R) (f : nat -> list R) (l : list nat) :
  (forall i, 0 <= w i) ->
  (forall i, f i = [w i] \/ f i = []) ->
  0 <= foldr Rplus 0 (flat_map f l) <= foldr Rplus 0 (map w l).
Proof.
  intros Hw Hf. induction l as [| i l IH]; cbn; [lra |].
  specialize (Hw i).
  destruct (Hf i) as [-> | ->]; cbn; lra.
Qed.

Lemma foldr_Rplus_nonneg (l : list R) :
  Forall (fun x : R => 0 <= x) l -> 0 <= foldr Rplus 0 l.
Proof. induction 1; cbn; lra. Qed.


Lemma binomial_itm_probability_unit
    (spot strike : R) (days_to_expiry : Z) (iv : R) (steps : nat) :
  (0 < steps)%nat ->
  exists v : R,
    binomial_itm_probability spot strike days_to_expiry iv steps = Ok v /\ 0 <= v <= 1.
Proof.
  intros Hsteps. unfold binomial_itm_probability.
  pose proof (years_pos days_to_expiry) as Ht.
  destruct (decide (years days_to_expiry <= 0 \/ iv <= 0)) as [_ | Hn];
    [exists 0; split; [reflexivity | lra] |].
  assert (Hs : 0 < INR steps) by (apply lt_0_INR; exact Hsteps).
  rewrite truediv_Ok by lra. cbn.
  rewrite math_sqrt_Ok by (left; apply Rdiv_lt_0_compat; assumption). cbn.
  unfold math_exp.
  rewrite truediv_Ok by (apply Rgt_not_eq, exp_pos). cbn.
  eexists. split; [reflexivity |].
  rewrite py_sum_foldr, Nat.add_1_r.
  match goal with
  | |- 0 <= foldr Rplus 0 (flat_map ?f _) <= 1 =>
      pose proof (selected_sum_bounds
                    (fun i : nat => INR (comb steps i) * 0.5 ^ i * (1 - 0.5) ^ (steps - i))
                    f (seq 0 (S steps))) as Hsel
  end.
  rewrite binomial_weights_total in Hsel. apply Hsel.
  - intros i. repeat apply Rmult_le_pos; [apply pos_INR | apply pow_le; lra | apply pow_le; lra].
  - intros i. cbv zeta.
    destruct (decide (_ >= strike)); [left | right]; reflexivity.
Qed.



Lemma np_mean_bool_unit (bs : list bool) :
  bs <> [] -> exists v : R, np_mean_bool bs = Some v /\ 0 <= v <= 1.
Proof.
  intros Hbs. destruct bs as [| b bs]; [contradiction |].
  unfold np_mean_bool. eexists. split; [reflexivity |].
  set (l := b :: bs).
  assert (Hn : 0 < INR (length l)) by (apply lt_0_INR; unfold l; cbn [length]; lia).
  assert (Hk : INR (length (filter (fun b0 : bool => b0 = true) l)) <= INR (length l))
    by (apply le_INR, length_filter).
  pose proof (pos_INR (length (filter (fun b0 : bool => b0 = true) l))) as Hk0.
  split.
  - apply Rmult_le_pos; [exact Hk0 | left; apply Rinv_0_lt_compat; exact Hn].
  - apply Rmult_le_reg_r with (INR (length l)); [exact Hn |].
    unfold Rdiv. rewrite Rmult_assoc, Rinv_l by lra. lra.
Qed.

Lemma standard_normal_array_length `{NumpyRandom} (n : nat) (g : rng_state) :
  length (standard_normal_array n g).1 = n.
Proof.
  revert g. induction n as [| n IH]; intros g; [reflexivity |].
  cbn [standard_normal_array].
  destruct (standard_normal g) as [z g1].
  specialize (IH g1). destruct (standard_normal_array n g1) as [zs g2].
  cbn in *. now rewrite IH.
Qed.

Lemma monte_carlo_itm_probability_unit `{NumpyRandom} (g : rng_state)
    (spot strike : R) (days_to_expiry : Z) (iv : R) (n_paths : nat) :
  (0 < n_paths)%nat ->
  exists v : R,
    monte_carlo_itm_probability g spot strike days_to_expiry iv n_paths = Some v
    /\ 0 <= v <= 1.
Proof.
  intros Hn. unfold monte_carlo_itm_probability.
  destruct (decide (years days_to_expiry <= 0 \/ iv <= 0)) as [_ | _];
    [exists 0; split; [reflexivity | lra] |].
  apply np_mean_bool_unit.
  intros Hnil. apply (f_equal length) in Hnil.
  rewrite !length_map, standard_normal_array_length in Hnil. cbn in Hnil. lia.
Qed.

End lattices.

(** ** Probability models: closed forms on the normal distribution function *)

Section normal_models.
Import enums probability.

Lemma black_scholes_d2_probability_unit
    (spot strike : R) (days_to_expiry : Z) (iv : R) (option_type : OptionType) :
  returns_probability
    (black_scholes_d2_probability spot strike days_to_expiry iv option_type).
Proof.
  unfold black_scholes_d2_probability.
  destruct (_d1_d2_total spot strike (years days_to_expiry) iv 0) as (d1 & d2 & Hd).
  rewrite Hd. cbn [mbind result_bind mret result_ret].
  destruct (decide (option_type = CALL)); eexists; (split; [reflexivity |]);
    apply norm_cdf_unit.
Qed.

Lemma one_minus_norm_cdf_unit (z : R) : 0 <= 1 - norm_cdf z <= 1.
Proof. pose proof (norm_cdf_unit z). lra. Qed.

Lemma lognormal_itm_probability_unit
    (spot strike : R) (days_to_expiry : Z) (iv : R) :
  returns_probability (lognormal_itm_probability spot strike days_to_expiry iv).
Proof.
  unfold lognormal_itm_probability.
  destruct (decide (spot <= 0 \/ strike <= 0 \/ iv <= 0 \/ years days_to_expiry <= 0))
    as [_ | Hn]; [exists 0; split; [reflexivity | lra] |].
  rewrite math_log_Ok by lra. cbn [mbind result_bind mret result_ret].
  rewrite math_sqrt_Ok by lra. cbn [mbind result_bind mret result_ret].
  rewrite math_log_Ok by lra. cbn [mbind result_bind mret result_ret].
  assert (Hs : 0 < sqrt (years days_to_expiry)) by (apply sqrt_lt_R0; lra).
  rewrite truediv_Ok by (apply Rgt_not_eq, Rmult_lt_0_compat; lra). cbn [mbind result_bind mret result_ret].
  eexists. split; [reflexivity | apply one_minus_norm_cdf_unit].
Qed.













End normal_models.

(** ** Probability models: the seeded simulations *)

Section simulations.
Import probability.
Context `{NumpyRandom}.

Lemma fraction_bounds (k n : nat) :
  (k <= n)%nat -> (0 < n)%nat -> 0 <= INR k / INR n <= 1.
Proof.
  intros Hk Hn.
  assert (H0 : 0 < INR n) by (apply lt_0_INR; exact Hn).
  assert (H1 : 0 <= INR k) by apply pos_INR.
  assert (H2 : INR k <= INR n) by (apply le_INR; exact Hk).
  split.
  - apply Rmult_le_pos; [lra | left; apply Rinv_0_lt_compat; exact H0].
  - apply Rmult_le_reg_r with (INR n); [exact H0 |].
    unfold Rdiv. rewrite Rmult_assoc, Rinv_l by lra. lra.
Qed.










End simulations.



(** ** Backtest statistics *)

Section backtest_statistics.
Import backtest_engine.

Lemma np_divide_Some (x y : R) : y <> 0 -> np_divide x y = Some (x / y).
Proof. intros Hy. unfold np_divide. destruct (decide (y = 0)); [contradiction | reflexivity]. Qed.

Lemma returns_period_returns (equity_curve : list R) :
  Forall (fun e : R => e <> 0) equity_curve ->
  returns equity_curve = Some (period_returns equity_curve).
Proof.
  unfold returns.
  induction equity_curve as [| x c IH]; intros Hnz; [reflexivity |].
  destruct c as [| y c]; [reflexivity |].
  inversion Hnz as [| ? ? Hx Hc]; subst.
  specialize (IH Hc).
  change (np_diff (x :: y :: c)) with ((y - x) :: np_diff (y :: c)).
  change (removelast (x :: y :: c)) with (x :: removelast (y :: c)).
  change (period_returns (x :: y :: c)) with ((y - x) / x :: period_returns (y :: c)).
  change (mapM ?f (zip ((y - x) :: ?d) (x :: ?r)))
    with (q ← np_divide (y - x) x; k ← mapM f (zip d r); mret (q :: k)).
  rewrite np_divide_Some by exact Hx. cbn [mbind option_bind].
  rewrite IH. reflexivity.
Qed.

Lemma maximum_accumulate_from_nonzero (m : R) (a : list R) :
  m <> 0 -> Forall (fun e : R => e <> 0) a ->
  Forall (fun e : R => e <> 0) (maximum_accumulate_from m a).
Proof.
  intros Hm Ha. revert m Hm.
  induction Ha as [| x a Hx Ha IH]; intros m Hm; cbn; constructor.
  - unfold Rmax. destruct (Rle_dec m x); assumption.
  - apply IH. unfold Rmax. destruct (Rle_dec m x); assumption.
Qed.

Lemma maximum_accumulate_nonzero (a : list R) :
  Forall (fun e : R => e <> 0) a -> Forall (fun e : R => e <> 0) (maximum_accumulate a).
Proof.
  intros Ha. destruct Ha as [| x a Hx Ha]; cbn; constructor; [exact Hx |].
  apply maximum_accumulate_from_nonzero; assumption.
Qed.

Lemma drawdowns_defined (equity_curve peak : list R) :
  Forall (fun e : R => e <> 0) peak ->
  is_Some (mapM (fun ep : R * R => np_divide (ep.1 - ep.2) ep.2) (zip equity_curve peak)).
Proof.
  intros Hp. apply mapM_is_Some.
  revert equity_curve. induction Hp as [| q peak Hq Hp IH]; intros [| e c]; cbn; constructor.
  - cbn. rewrite np_divide_Some by exact Hq. eexists; reflexivity.
  - apply IH.
Qed.

Lemma np_mean_defined (xs : list R) :
  xs <> [] -> is_Some (np_mean xs).
Proof.
  intros Hxs. unfold np_mean. rewrite np_divide_Some; [eexists; reflexivity |].
  apply not_0_INR. destruct xs; [contradiction | cbn; lia].
Qed.

Lemma sharpe_defined (returns : list R) :
  returns <> [] ->
  is_Some (mu ← np_mean returns;
           sd ← np_std returns;
           q ← np_divide mu (sd + 1 / 100000000);
           Some (q * sqrt 252)).
Proof.
  intros Hr.
  destruct (np_mean_defined returns Hr) as [mu Hmu].
  unfold np_std. rewrite Hmu. cbn [mbind option_bind].
  destruct (np_mean_defined ((fun x : R => (x - mu) ^ 2) <$> returns)) as [var Hvar].
  { destruct returns; [contradiction | discriminate]. }
  rewrite Hvar. cbn [mbind option_bind].
  pose proof (sqrt_pos var) as Hs.
  rewrite np_divide_Some by lra. cbn [mbind option_bind]. eexists; reflexivity.
Qed.

(** On an equity curve without a zero value all of [compute_stats] is
    defined, and its profit factor is the one of the period returns. *)
Lemma compute_stats_defined (equity_curve : list R) :
  Forall (fun e : R => e <> 0) equity_curve ->
  exists stats : BacktestStats,
    compute_stats equity_curve = Some stats
    /\ profit_factor stats = profit_factor_of (period_returns equity_curve).
Proof.
  intros Hnz. unfold compute_stats.
  destruct (decide (length equity_curve < 2)%nat) as [Hlen | Hlen].
  - eexists. split; [reflexivity |].
    destruct equity_curve as [| x [| y c]]; cbn in Hlen; try lia.
    + unfold profit_factor_of. cbn. repeat case_decide; first [reflexivity | lra | lia].
    + unfold profit_factor_of. cbn. repeat case_decide; first [reflexivity | lra | lia].
  - rewrite returns_period_returns by exact Hnz. cbn [mbind option_bind].
    set (rs := period_returns equity_curve).
    assert (Hrs : rs <> []).
    { unfold rs. destruct equity_curve as [| x [| y c]]; cbn in Hlen; try lia. discriminate. }
    destruct (decide (length rs = 0%nat)) as [Hz | Hz];
      [destruct rs; [contradiction | discriminate] |].
    rewrite np_divide_Some by (apply not_0_INR; exact Hz). cbn [mbind option_bind].
    destruct (drawdowns_defined equity_curve (maximum_accumulate equity_curve)
                (maximum_accumulate_nonzero _ Hnz)) as [dd Hdd].
    rewrite Hdd. cbn [mbind option_bind].
    destruct (sharpe_defined rs Hrs) as [sh Hsh].
    rewrite Hsh. cbn [mbind option_bind].
    eexists. split; reflexivity.
Qed.

Lemma np_sum_cons (x : R) (xs : list R) : np_sum (x :: xs) = x + np_sum xs.
Proof. reflexivity. Qed.

Lemma np_sum_positive_part_nonneg (rs : list R) :
  0 <= np_sum (filter (fun r : R => r > 0) rs).
Proof.
  induction rs as [| r rs IH]; [cbn; lra |].
  rewrite filter_cons. destruct (decide (r > 0)); [| exact IH].
  rewrite np_sum_cons. lra.
Qed.

Lemma np_sum_positive_part_pos (rs : list R) :
  Exists (fun r : R => 0 < r) rs -> 0 < np_sum (filter (fun r : R => r > 0) rs).
Proof.
  induction 1 as [r rs Hr | r rs _ IH]; rewrite filter_cons.
  - destruct (decide (r > 0)) as [_ | Hn]; [| lra].
    rewrite np_sum_cons. pose proof (np_sum_positive_part_nonneg rs). lra.
  - destruct (decide (r > 0)); [| exact IH].
    rewrite np_sum_cons. lra.
Qed.

Lemma np_sum_negative_part_nonpos (rs : list R) :
  np_sum (filter (fun r : R => r < 0) rs) <= 0.
Proof.
  induction rs as [| r rs IH]; [cbn; lra |].
  rewrite filter_cons. destruct (decide (r < 0)); [| exact IH].
  rewrite np_sum_cons. lra.
Qed.

Lemma np_sum_negative_part_neg (rs : list R) :
  Exists (fun r : R => r < 0) rs -> np_sum (filter (fun r : R => r < 0) rs) < 0.
Proof.
  induction 1 as [r rs Hr | r rs _ IH]; rewrite filter_cons.
  - destruct (decide (r < 0)) as [_ | Hn]; [| lra].
    rewrite np_sum_cons. pose proof (np_sum_negative_part_nonpos rs). lra.
  - destruct (decide (r < 0)); [| exact IH].
    rewrite np_sum_cons. lra.
Qed.

Lemma filter_negative_nil (rs : list R) :
  Forall (fun r : R => 0 <= r) rs -> filter (fun r : R => r < 0) rs = [].
Proof.
  induction 1 as [| r rs Hr _ IH]; [reflexivity |].
  rewrite filter_cons. destruct (decide (r < 0)); [lra | exact IH].
Qed.

Lemma filter_negative_not_nil (rs : list R) :
  Exists (fun r : R => r < 0) rs -> length (filter (fun r : R => r < 0) rs) <> 0%nat.
Proof.
  induction 1 as [r rs Hr | r rs _ IH]; rewrite filter_cons.
  - destruct (decide (r < 0)); [discriminate | lra].
  - destruct (decide (r < 0)); [discriminate | exact IH].
Qed.

Lemma profit_factor_of_sentinel (rs : list R) :
  Forall (fun r : R => 0 <= r) rs -> Exists (fun r : R => 0 < r) rs ->
  profit_factor_of rs = 999.
Proof.
  intros Hall Hex. unfold profit_factor_of.
  rewrite filter_negative_nil by exact Hall.
  pose proof (np_sum_positive_part_pos rs Hex).
  change (length (@nil R)) with 0%nat.
  destruct (decide (0%nat = 0%nat)) as [_ | Hn]; [| contradiction].
  destruct (decide (0 > 0)) as [H0 | _]; [lra |].
  destruct (decide (_ > 0)) as [_ | Hn]; [reflexivity | lra].
Qed.

Lemma profit_factor_of_ratio (rs : list R) :
  Exists (fun r : R => r < 0) rs ->
  - np_sum (filter (fun r : R => r < 0) rs) > 0
  /\ profit_factor_of rs
     = np_sum (filter (fun r : R => r > 0) rs)
       / - np_sum (filter (fun r : R => r < 0) rs).
Proof.
  intros Hex. unfold profit_factor_of.
  pose proof (np_sum_negative_part_neg rs Hex) as Hneg.
  split; [lra |].
  destruct (decide (length _ = 0%nat)) as [Hz | _];
    [exfalso; exact (filter_negative_not_nil rs Hex Hz) |].
  destruct (decide (_ > 0)) as [_ | Hn]; [reflexivity | lra].
Qed.

Lemma profit_factor_of_nonneg (rs : list R) : 0 <= profit_factor_of rs.
Proof.
  unfold profit_factor_of.
  destruct (decide (_ > 0)) as [Hgl | _].
  - apply Rmult_le_pos; [apply np_sum_positive_part_nonneg |].
    left. apply Rinv_0_lt_compat. exact Hgl.
  - destruct (decide (_ > 0)); lra.
Qed.

End backtest_statistics.

(** C9 as stated fails: on the equity curve [0; 1; 0; -1] the period
    returns are [1/0], [-1] and [-1/0].  numpy divides into an infinite gross
    profit and an infinite gross loss, and their quotient, the profit factor,
    is NaN: [compute_stats] returns no statistics with a profit factor at or
    above 0. *)
Lemma compute_stats_no_profit_factor_on_zero_equity :
  backtest_engine.compute_stats [0; 1; 0; -1] = None
  /\ ~ exists stats : backtest_engine.BacktestStats,
        backtest_engine.compute_stats [0; 1; 0; -1] = Some stats
        /\ 0 <= backtest_engine.profit_factor stats.
Proof.
  assert (H : backtest_engine.compute_stats [0; 1; 0; -1] = None).
  { unfold backtest_engine.compute_stats.
    destruct (decide (length [0; 1; 0; -1]%R < 2)%nat) as [Hlen | _];
      [cbn in Hlen; lia |].
    assert (Hr : backtest_engine.returns [0; 1; 0; -1] = None).
    { assert (H0 : forall x : R, backtest_engine.np_divide x 0 = None).
      { intros x. unfold backtest_engine.np_divide.
        destruct (decide (0 = 0)) as [_ | Hn]; [reflexivity | contradiction]. }
      unfold backtest_engine.returns. cbn. rewrite (H0 (1 - 0)). reflexivity. }
    rewrite Hr. reflexivity. }
  split; [exact H |].
  intros (stats & Hstats & _). rewrite H in Hstats. discriminate Hstats.
Qed.

(** C9, amended.  On every equity curve without a zero value (on a zero
    value numpy divides into an infinity or NaN), [compute_stats] returns
    statistics
    whose profit factor is exactly 999 when no period return is negative and
    at least one is positive, is the gross positive return divided by the
    gross negative return when at least one period return is negative, and
    is never negative. *)
Theorem compute_stats_profit_factor (equity_curve : list R) :
  Forall (fun e : R => e <> 0) equity_curve ->
  exists stats : backtest_engine.BacktestStats,
    backtest_engine.compute_stats equity_curve = Some stats
    /\ backtest_engine.returns equity_curve = Some (period_returns equity_curve)
    /\ (Forall (fun r : R => 0 <= r) (period_returns equity_curve) ->
        Exists (fun r : R => 0 < r) (period_returns equity_curve) ->
        backtest_engine.profit_factor stats = 999)
    /\ (Exists (fun r : R => r < 0) (period_returns equity_curve) ->
        - backtest_engine.np_sum (filter (fun r : R => r < 0) (period_returns equity_curve)) > 0
        /\ backtest_engine.profit_factor stats
           = backtest_engine.np_sum (filter (fun r : R => r > 0) (period_returns equity_curve))
             / - backtest_engine.np_sum
                   (filter (fun r : R => r < 0) (period_returns equity_curve)))
    /\ 0 <= backtest_engine.profit_factor stats.
Proof.
  intros Hnz.
  destruct (compute_stats_defined equity_curve Hnz) as (stats & Hstats & Hpf).
  exists stats. rewrite Hpf.
  split; [exact Hstats |].
  split; [apply returns_period_returns, Hnz |].
  split; [apply profit_factor_of_sentinel |].
  split; [apply profit_factor_of_ratio | apply profit_factor_of_nonneg].
Qed.

Lemma compute_stats_profit_factor_witness :
  Forall (fun e : R => e <> 0) [100; 110; 121]
  /\ exists stats : backtest_engine.BacktestStats,
       backtest_engine.compute_stats [100; 110; 121] = Some stats
       /\ backtest_engine.profit_factor stats = 999.
Proof.
  assert (H : Forall (fun e : R => e <> 0) [100; 110; 121])
    by (repeat constructor; lra).
  split; [exact H |].
  destruct (compute_stats_profit_factor [100; 110; 121] H)
    as (stats & Hstats & _ & Hsentinel & _).
  exists stats. split; [exact Hstats |].
  apply Hsentinel; cbn.
  - constructor; [| constructor; [| constructor]];
      apply Rlt_le, Rdiv_lt_0_compat; lra.
  - constructor. apply Rdiv_lt_0_compat; lra.
Defined.

(** ** Strategy decision engine *)

Section strategy_decision.
Import strategy_engine.

Variable clock : nat -> datetime.
Variable context : gmap string R.

Lemma _evaluate_condition_holds (c : Condition) :
  _evaluate_condition c context = true <-> condition_holds context c.
Proof.
  unfold _evaluate_condition, condition_holds.
  destruct c as [ind op thr]. cbn [indicator operator threshold].
  set (v := default 0 (context !! ind)).
  repeat case_decide; subst;
    rewrite ?bool_decide_eq_true;
    (split;
     [ intros Hv; first [discriminate Hv | tauto]
     | intros [[Eop Hop] | [[Eop Hop] | [[Eop Hop] | [[Eop Hop] | [[Eop Hop] | [Eop Hop]]]]]];
       first [exact Hop | discriminate Eop | contradiction] ]).
Qed.

Lemma forallb_conditions (cs : list Condition) :
  forallb (fun c => _evaluate_condition c context) cs = true
  <-> Forall (condition_holds context) cs.
Proof.
  induction cs as [| c cs IH]; cbn.
  - split; [constructor | reflexivity].
  - rewrite andb_true_iff, IH, _evaluate_condition_holds.
    split; [intros [? ?]; constructor; assumption | inversion 1; auto].
Qed.

Lemma session_is_opening (f : Filter) :
  default PNone (params f !! "value") = PStr "opening"
  <-> params f !! "value" = Some (PStr "opening").
Proof.
  destruct (params f !! "value") as [v |]; cbn; split; congruence.
Qed.

(** One turn of the filter loop returns, and rejects exactly when the
    filter does not pass at the current clock reading. *)
Lemma filter_rejects_spec (f : Filter) (k : nat) :
  (name f = "min_volume" ->
   exists v : R, default (PNum 0) (params f !! "value") = PNum v) ->
  exists b : bool,
    filter_rejects clock f context k
    = Ok (b, if decide (name f = "session") then S k else k)
    /\ (b = false <-> filter_passes (clock k) context f).
Proof.
  intros Hty. unfold filter_rejects, filter_passes.
  destruct (decide (name f = "min_volume")) as [Hmv | Hmv].
  - destruct (Hty Hmv) as [v Hv].
    assert (Hs : name f <> "session") by (rewrite Hmv; discriminate).
    destruct (decide (name f = "session")) as [| _]; [contradiction |].
    rewrite Hv. unfold mbind, io_bind, lift, py_lt, mret, io_ret.
    destruct (bool_decide (default 0 (context !! "volume") < v)) eqn:Hlt.
    + exists true. split; [reflexivity |].
      apply bool_decide_eq_true in Hlt.
      split; [discriminate |].
      intros [Hpass _]. destruct (Hpass Hmv) as (v' & Hv' & Hn).
      injection Hv' as Hvv. subst v'. contradiction.
    + exists false. split; [reflexivity |].
      apply bool_decide_eq_false in Hlt.
      split; [| reflexivity].
      intros _. split; [intros _; exists v; split; [reflexivity | exact Hlt] |].
      intros Hs'. contradiction.
  - unfold mbind, io_bind, mret, io_ret, utcnow.
    destruct (decide (name f = "session")) as [Hs | Hs].
    + eexists. split; [reflexivity |].
      rewrite andb_false_iff, !bool_decide_eq_false, session_is_opening.
      split.
      * intros Hor. split; [intros; contradiction |]. intros _ [H1 H2].
        destruct Hor; contradiction.
      * intros [_ Hpass]. specialize (Hpass Hs).
        destruct (decide (params f !! "value" = Some (PStr "opening"))) as [Ho | Ho];
          [right; intros Hh; apply Hpass; split; assumption | left; exact Ho].
    + exists false. split; [reflexivity |].
      split; [| reflexivity]. intros _. split; intros; contradiction.
Qed.

Lemma _apply_filters_spec (fs : list Filter) (k : nat) :
  filters_well_typed fs ->
  exists (b : bool) (k' : nat),
    _apply_filters clock fs context k = Ok (b, k')
    /\ (b = true <-> filters_pass clock k context fs).
Proof.
  intros Hty. revert k.
  induction Hty as [| f fs Hf Hfs IH]; intros k.
  - exists true, k. split; [reflexivity |]. cbn. tauto.
  - destruct (filter_rejects_spec f k Hf) as (b & Hb & Hpass).
    cbn [_apply_filters filters_pass].
    unfold mbind at 1, io_bind at 1. rewrite Hb.
    destruct b.
    + exists false. eexists. split; [reflexivity |].
      split; [discriminate |]. intros [Hp _]. apply Hpass in Hp. discriminate.
    + destruct (IH (if decide (name f = "session") then S k else k))
        as (b' & k' & Hrest & Hiff).
      exists b', k'. split; [exact Hrest |].
      rewrite Hiff. split; [intros Hr; split; [apply Hpass; reflexivity | exact Hr] |].
      intros [_ Hr]. exact Hr.
Qed.

Lemma _build_trades_from_actions_spec (acts : list Action) (price : R) (k : nat) :
  exists (ts : list Trade) (k' : nat),
    _build_trades_from_actions clock acts price k = Ok (ts, k')
    /\ Forall2 (trade_of_action price) acts ts.
Proof.
  revert k. induction acts as [| a acts IH]; intros k.
  - exists [], k. split; [reflexivity | constructor].
  - destruct (IH (S k)) as (ts & k' & Hts & Hall).
    cbn [_build_trades_from_actions].
    unfold mbind at 1, io_bind at 1, utcnow.
    unfold mbind at 1, io_bind at 1. rewrite Hts.
    eexists _, k'. split; [reflexivity |].
    constructor; [| exact Hall].
    unfold trade_of_action. cbn. repeat split; reflexivity.
Qed.

End strategy_decision.

(** A minimum-volume filter whose value is a string or [None] makes the
    comparison of line 34 raise, before any condition decides. *)
Lemma run_live_strategy_ill_typed
    (clock : nat -> strategy_engine.datetime)
    (req : strategy_engine.StrategyRunRequest) (context : gmap string R) (k : nat)
    (f : strategy_engine.Filter) (rest : list strategy_engine.Filter) :
  strategy_engine.filters (strategy_engine.strategy req) = f :: rest ->
  strategy_engine.name f = "min_volume" ->
  (strategy_engine.params f !! "value" = Some strategy_engine.PNone
   \/ exists s : string, strategy_engine.params f !! "value" = Some (strategy_engine.PStr s)) ->
  strategy_engine.run_live_strategy clock req context k = Raise TypeError.
Proof.
  intros Hfs Hname Hval.
  unfold strategy_engine.run_live_strategy. cbv zeta. rewrite Hfs.
  unfold mbind at 1, strategy_engine.io_bind at 1.
  cbn [strategy_engine._apply_filters].
  unfold mbind at 1, strategy_engine.io_bind at 1.
  unfold strategy_engine.filter_rejects.
  unfold mbind at 1, strategy_engine.io_bind at 1.
  destruct (decide (strategy_engine.name f = "min_volume")) as [_ | Hn]; [| contradiction].
  destruct Hval as [Hv | [s Hv]]; rewrite Hv; reflexivity.
Qed.

(** C8 as stated fails: the spec's example strategy, with the condition
    [pcr_oi < 0.7] false on the context, and a minimum-volume threshold that
    arrives as the string "50000", is not skipped: the comparison of the
    volume with the string raises [TypeError], and no result, executed or
    not, is produced. *)
Lemma run_live_strategy_raises_on_quoted_threshold :
  strategy_engine.run_live_strategy morning_clock quoted_threshold_request route_context
    0%nat
  = Raise TypeError
  /\ ~ exists (r : strategy_engine.RunResult) (k' : nat),
        strategy_engine.run_live_strategy morning_clock quoted_threshold_request
          route_context 0%nat
        = Ok (r, k').
Proof.
  assert (H : strategy_engine.run_live_strategy morning_clock quoted_threshold_request
                route_context 0%nat = Raise TypeError).
  { apply (run_live_strategy_ill_typed morning_clock quoted_threshold_request
             route_context 0%nat
             {| strategy_engine.name := "min_volume";
                strategy_engine.params :=
                  {[ "value" := strategy_engine.PStr "50000" ]} |}
             []).
    - reflexivity.
    - reflexivity.
    - right. exists "50000". reflexivity. }
  split; [exact H |].
  intros (r & k' & Hr). rewrite H in Hr. discriminate Hr.
Qed.

(** C8, amended.  For a strategy whose minimum-volume thresholds are numbers,
    [run_live_strategy] returns; [executed] is true exactly when every
    condition holds and every filter passes; then there is one trade per
    action, in order, at the context's price with PnL 0; otherwise
    [executed] is false and the trade list is empty.  A condition on an
    indicator that the context lacks evaluates as on the value 0.0.  With the
    single condition [pcr_oi < 0.7] and a context where [pcr_oi] is 1.25 the
    strategy is skipped with no trade. *)
Theorem run_live_strategy_executes_iff
    (clock : nat -> strategy_engine.datetime)
    (req : strategy_engine.StrategyRunRequest) (context : gmap string R) (k : nat) :
  filters_well_typed (strategy_engine.filters (strategy_engine.strategy req)) ->
  exists (r : strategy_engine.RunResult) (k' : nat),
    strategy_engine.run_live_strategy clock req context k = Ok (r, k')
    /\ (strategy_engine.executed r = true
        <-> Forall (condition_holds context) (strategy_engine.conditions (strategy_engine.strategy req))
            /\ filters_pass clock k context (strategy_engine.filters (strategy_engine.strategy req)))
    /\ (strategy_engine.executed r = true ->
        Forall2 (trade_of_action (default 0 (context !! "price")))
                (strategy_engine.actions (strategy_engine.strategy req)) (strategy_engine.trades r))
    /\ (strategy_engine.executed r = false -> strategy_engine.trades r = [])
    /\ (forall c : strategy_engine.Condition,
          context !! strategy_engine.indicator c = None ->
          strategy_engine._evaluate_condition c context
          = strategy_engine._evaluate_condition
              c (<[strategy_engine.indicator c := 0]> context))
    /\ (strategy_engine.conditions (strategy_engine.strategy req)
          = [ {| strategy_engine.indicator := "pcr_oi";
                 strategy_engine.operator := "<";
                 strategy_engine.threshold := 0.7 |} ] ->
        context !! "pcr_oi" = Some 1.25 ->
        strategy_engine.executed r = false /\ strategy_engine.trades r = []).
Proof.
  intros Hty.
  set (strat := strategy_engine.strategy req) in *.
  destruct (_apply_filters_spec clock context (strategy_engine.filters strat) k Hty)
    as (fok & k1 & Hf & Hfiff).
  unfold strategy_engine.run_live_strategy. fold strat.
  unfold mbind at 1, strategy_engine.io_bind at 1. rewrite Hf.
  set (conds := forallb (fun c => strategy_engine._evaluate_condition c context)
                        (strategy_engine.conditions strat)).
  assert (Hmissing :
    forall c : strategy_engine.Condition,
      context !! strategy_engine.indicator c = None ->
      strategy_engine._evaluate_condition c context
      = strategy_engine._evaluate_condition
          c (<[strategy_engine.indicator c := 0]> context)).
  { intros c Hc. unfold strategy_engine._evaluate_condition.
    rewrite Hc, lookup_insert_eq. reflexivity. }
  assert (Hexample :
    strategy_engine.conditions strat
      = [ {| strategy_engine.indicator := "pcr_oi";
             strategy_engine.operator := "<";
             strategy_engine.threshold := 0.7 |} ] ->
    context !! "pcr_oi" = Some 1.25 -> conds = false).
  { intros Hc Hctx. unfold conds. rewrite Hc. cbn.
    unfold strategy_engine._evaluate_condition. cbn. rewrite Hctx. cbn.
    repeat case_decide; try congruence.
    all: rewrite bool_decide_eq_false_2 by lra; reflexivity. }
  destruct (conds && fok) eqn:Hshould.
  - destruct (_build_trades_from_actions_spec clock (strategy_engine.actions strat)
                (default 0 (context !! "price")) k1) as (ts & k2 & Hts & Hall).
    unfold mbind, strategy_engine.io_bind. rewrite Hts.
    eexists _, k2. split; [reflexivity |]. cbn.
    apply andb_true_iff in Hshould as [Hc Hfok].
    split.
    { split; [intros _ | reflexivity].
      split; [apply forallb_conditions; exact Hc | apply Hfiff; exact Hfok]. }
    split; [intros _; exact Hall |].
    split; [discriminate |].
    split; [exact Hmissing |].
    intros He Hctx. rewrite (Hexample He Hctx) in Hc. discriminate.
  - unfold mbind, strategy_engine.io_bind, mret, strategy_engine.io_ret.
    eexists _, k1. split; [reflexivity |]. cbn.
    split.
    { split; [discriminate |]. intros [Hc Hp].
      apply forallb_conditions in Hc. apply Hfiff in Hp.
      fold conds in Hc. rewrite Hc, Hp in Hshould. discriminate. }
    split; [discriminate |].
    split; [reflexivity |].
    split; [exact Hmissing |].
    intros _ _. split; reflexivity.
Qed.

Lemma run_live_strategy_executes_iff_witness :
  filters_well_typed (strategy_engine.filters (strategy_engine.strategy low_pcr_request))
  /\ exists (r : strategy_engine.RunResult) (k' : nat),
       strategy_engine.run_live_strategy morning_clock low_pcr_request route_context 0%nat
       = Ok (r, k')
       /\ strategy_engine.executed r = false
       /\ strategy_engine.trades r = [].
Proof.
  assert (Hty : filters_well_typed
                  (strategy_engine.filters (strategy_engine.strategy low_pcr_request))).
  { constructor; [| constructor]. intros _. exists 50000. reflexivity. }
  split; [exact Hty |].
  destruct (run_live_strategy_executes_iff morning_clock low_pcr_request route_context
              0%nat Hty)
    as (r & k' & Hrun & _ & _ & _ & _ & Hskip).
  exists r, k'. split; [exact Hrun |].
  apply Hskip; reflexivity.
Defined.

(** ** Worked examples *)

(** Resolves comparisons, [Rmin], [Rmax] and [Rabs] between numerals. *)
Ltac numerals :=
  repeat match goal with
    | |- context [Rmin ?a ?b] =>
        first [rewrite (Rmin_left a b) by lra | rewrite (Rmin_right a b) by lra]
    | |- context [Rmax ?a ?b] =>
        first [rewrite (Rmax_left a b) by lra | rewrite (Rmax_right a b) by lra]
    | |- context [Rabs ?a] =>
        first [rewrite (Rabs_pos_eq a) by lra | rewrite (Rabs_left a) by lra]
    | |- context [bool_decide ?P] =>
        first [rewrite (bool_decide_eq_true_2 P) by first [lra | lia | reflexivity]
              | rewrite (bool_decide_eq_false_2 P) by first [lra | lia | discriminate]]
    | |- context [decide ?P] =>
        first [rewrite (decide_True (P := P)) by first [lra | lia | reflexivity]
              | rewrite (decide_False (P := P)) by first [lra | lia | discriminate]]
    end.

Example iv_rank_example :
  volatility.iv_rank 0.2 [0.1; 0.2; 0.3] = Ok (100 * 2 / 3)
  /\ volatility.iv_percentile 0.2 [0.1; 0.2; 0.3] = Ok (100 * 1 / 3).
Proof.
  rewrite iv_rank_eq, iv_percentile_eq.
  rewrite !filter_cons, !filter_nil. numerals.
  split; f_equal; cbn [length INR]; lra.
Qed.

Example compute_consensus_example :
  exists r : schemas.ConsensusResponse,
    consensus_engine.compute_consensus
      {| schemas.d2_probability := 0.46; schemas.lognormal_itm_probability := 0.46;
         schemas.binomial_itm_probability := 0.5;
         schemas.monte_carlo_itm_probability := 0.47; schemas.expected_move := 6.9 |}
      {| schemas.iv := 0.2; schemas.iv_rank := Some 40;
         schemas.iv_percentile := Some 35; schemas.hv := Some 0.18 |}
      {| schemas.spike_score := 0.5; schemas.volume_oi_ratio := 0.1;
         schemas.trend := "rising"; schemas.anomaly_score := 1;
         schemas.pcr_oi := None; schemas.pcr_volume := None |}
      {| schemas.atr_trend := enums.UP; schemas.vwap_signal := "above";
         schemas.bollinger_squeeze := 0.04; schemas.trend_signal := enums.UP;
         schemas.mean_reversion_score := 0.2; schemas.regime := enums.BULL |}
    = Ok r
    /\ schemas.confidence_score r = 953 / 15.
Proof.
  unfold consensus_engine.compute_consensus, consensus_engine.vol_score,
    consensus_engine.hv_iv_component, consensus_engine.rank_component,
    consensus_engine.percentile_component.
  cbn [schemas.hv schemas.iv schemas.iv_rank schemas.iv_percentile].
  numerals. rewrite truediv_Ok by lra. cbn [mbind result_bind mret result_ret app].
  rewrite truediv_Ok by (cbn; lra). cbn [mbind result_bind].
  eexists. split; [reflexivity |].
  cbn [schemas.confidence_score schemas.d2_probability
       schemas.monte_carlo_itm_probability schemas.spike_score schemas.anomaly_score
       schemas.mean_reversion_score schemas.trend_signal schemas.regime
       enums.MarketRegime_name].
  change (default 50 (consensus_engine.regime_map !! "BULL")) with 70.
  unfold consensus_engine.confidence_score. rewrite raw_score_weights.
  rewrite py_sum_foldr. cbn [foldr length INR].
  numerals. lra.
Qed.

Example run_live_strategy_executes_example :
  strategy_engine.run_live_strategy morning_clock low_iv_rank_request route_context 0%nat
  = Ok ({| strategy_engine.executed := true;
           strategy_engine.trades :=
             [ {| strategy_engine.trade_time := morning_clock 1;
                  strategy_engine.trade_symbol := "NIFTY";
                  strategy_engine.trade_side := "BUY";
                  strategy_engine.trade_quantity := 2;
                  strategy_engine.trade_price := 100;
                  strategy_engine.trade_pnl := 0 |} ];
           strategy_engine.context := route_context |}, 2%nat).
Proof.
  unfold strategy_engine.run_live_strategy, low_iv_rank_request.
  cbn [strategy_engine.strategy strategy_engine.conditions strategy_engine.filters
       strategy_engine.actions forallb].
  unfold strategy_engine._evaluate_condition.
  cbn [strategy_engine.indicator strategy_engine.operator strategy_engine.threshold].
  change (route_context !! "iv_rank") with (Some 45).
  change (route_context !! "unknown_indicator") with (@None R).
  change (route_context !! "price") with (Some 100).
  cbv [from_option Datatypes.id].
  numerals.
  cbn [strategy_engine._apply_filters strategy_engine._build_trades_from_actions].
  unfold strategy_engine.filter_rejects.
  cbn [strategy_engine.name strategy_engine.params].
  numerals.
  change (route_context !! "volume") with (Some 100000).
  change (({[ "value" := strategy_engine.PNum 50000 ]} : gmap string _) !! "value")
    with (Some (strategy_engine.PNum 50000)).
  change (({[ "value" := strategy_engine.PStr "opening" ]} : gmap string _) !! "value")
    with (Some (strategy_engine.PStr "opening")).
  cbv [from_option Datatypes.id].
  unfold mbind, strategy_engine.io_bind, strategy_engine.lift, strategy_engine.py_lt,
    strategy_engine.utcnow, mret, strategy_engine.io_ret.
  numerals.
  cbn [morning_clock strategy_engine.hour].
  numerals.
  reflexivity.
Qed.

Example monte_carlo_example :
  @probability.monte_carlo_itm_probability alternating_generator
    0%nat 100 100 30 0.2 2
  = Some (1 / 2).
Proof.
  unfold probability.monte_carlo_itm_probability.
  pose proof (years_pos 30) as Ht.
  destruct (decide (probability.years 30 <= 0 \/ 0.2 <= 0)) as [Hd | _]; [lra |].
  cbn [standard_normal_array standard_normal alternating_generator fst map].
  set (t := probability.years 30) in *.
  assert (Hs : 0 < sqrt t) by (apply sqrt_lt_R0; exact Ht).
  assert (Hup : 100 * exp (- 0.5 * 0.2 ^ 2 * t + 0.2 * sqrt t * (-1) ^ 0) >= 100).
  { assert (Hs1 : sqrt t * sqrt t = t) by (apply sqrt_sqrt; lra).
    assert (Ht1 : t <= 1).
    { unfold t, probability.years. change (Z.max 30 1) with 30%Z. lra. }
    assert (Hs2 : sqrt t <= 1) by nra.
    pose proof (exp_ineq1_le (- 0.5 * 0.2 ^ 2 * t + 0.2 * sqrt t * (-1) ^ 0)) as He.
    nra. }
  assert (Hdown : ~ 100 * exp (- 0.5 * 0.2 ^ 2 * t + 0.2 * sqrt t * (-1) ^ 1) >= 100).
  { intros Hge.
    assert (Hlt : exp (- 0.5 * 0.2 ^ 2 * t + 0.2 * sqrt t * (-1) ^ 1) < exp 0).
    { apply exp_increasing. nra. }
    rewrite exp_0 in Hlt. lra. }
  rewrite (bool_decide_eq_true_2 _ Hup), (bool_decide_eq_false_2 _ Hdown).
  unfold probability.np_mean_bool.
  rewrite !filter_cons, filter_nil.
  destruct (decide (true = true)) as [_ | Hn]; [| contradiction].
  destruct (decide (false = true)) as [Hn | _]; [discriminate |].
  cbn [length INR]. f_equal; lra.
Qed.

(** * Properties of the services, the backtests and the routes *)

(** * Further properties of the embedded code *)

(** ** The normal distribution function is monotone *)

Lemma norm_pdf_pos (x : R) : 0 < norm_pdf x.
Proof.
  unfold norm_pdf. apply Rdiv_lt_0_compat; [apply exp_pos | apply sqrt_2PI_pos].
Qed.

Lemma gauss_area_nonneg (a b : R) : a <= b -> 0 <= gauss_area a b.
Proof.
  intros Hab. unfold gauss_area.
  assert (Hle : forall s : R, a < s < b -> fct_cte 0 s <= norm_pdf s).
  { intros s _. unfold fct_cte. left. apply norm_pdf_pos. }
  pose proof (RiemannInt_P19 (RiemannInt_P14 a b 0) (norm_pdf_integrable a b) Hab Hle) as H.
  rewrite RiemannInt_P15 in H. lra.
Qed.

Lemma gauss_area_chasles (a b c : R) :
  gauss_area a b + gauss_area b c = gauss_area a c.
Proof. unfold gauss_area. apply RiemannInt_P26. Qed.

Lemma norm_cdf_monotone (x y : R) : x <= y -> norm_cdf x <= norm_cdf y.
Proof.
  intros Hxy. unfold norm_cdf.
  pose proof (gauss_area_chasles 0 x y) as Hc.
  pose proof (gauss_area_nonneg x y Hxy). lra.
Qed.

(** ** Greeks *)

Section greeks_formulas.
Import enums greeks.

Lemma greeks_d1_d2_total (spot strike t iv r : R) :
  exists d1 d2, _d1_d2 spot strike t iv r = Ok (d1, d2).
Proof.
  destruct (decide (t <= 0 \/ iv <= 0 \/ spot <= 0 \/ strike <= 0)) as [H | H].
  - exists 0, 0. unfold _d1_d2.
    destruct (decide (t <= 0 \/ iv <= 0 \/ spot <= 0 \/ strike <= 0));
      [reflexivity | contradiction].
  - apply greeks_d1_d2_regular; lra.
Qed.

(** Outside the zero guard, the six entries of [compute_greeks] in closed
    form. *)
Lemma compute_greeks_regular
    (spot strike : R) (days_to_expiry : Z) (iv : R) (option_type : OptionType) (rate : R) :
  0 < iv -> 0 < spot -> 0 < strike ->
  exists d1 d2 : R,
    _d1_d2 spot strike (years days_to_expiry) iv rate = Ok (d1, d2)
    /\ compute_greeks spot strike days_to_expiry iv option_type rate
       = Ok (greeks_dict
               (if decide (option_type = CALL)
                then spot * norm_cdf d1
                     - strike * exp (- rate * years days_to_expiry) * norm_cdf d2
                else strike * exp (- rate * years days_to_expiry) * norm_cdf (- d2)
                     - spot * norm_cdf (- d1))
               (if decide (option_type = CALL) then norm_cdf d1 else norm_cdf d1 - 1)
               (norm_pdf d1 / (spot * iv * sqrt (years days_to_expiry)))
               ((- (spot * norm_pdf d1 * iv / (2 * sqrt (years days_to_expiry)))
                 - rate * strike * exp (- rate * years days_to_expiry)
                   * norm_cdf (if decide (option_type = CALL) then d2 else - d2)) / 252)
               (spot * norm_pdf d1 * sqrt (years days_to_expiry) / 100)
               (if decide (option_type = CALL)
                then years days_to_expiry * strike
                     * exp (- rate * years days_to_expiry) * norm_cdf d2
                else - years days_to_expiry * strike
                     * exp (- rate * years days_to_expiry) * norm_cdf (- d2))).
Proof.
  intros Hiv Hspot Hstrike.
  pose proof (greeks_years_pos days_to_expiry) as Ht.
  destruct (greeks_d1_d2_regular spot strike _ iv rate Ht Hiv Hspot Hstrike)
    as (d1 & d2 & Hd).
  exists d1, d2. split; [exact Hd |].
  unfold compute_greeks, black_scholes_price.
  destruct (decide (years days_to_expiry <= 0 \/ iv <= 0 \/ spot <= 0 \/ strike <= 0))
    as [H | _]; [lra |].
  rewrite Hd. cbn.
  pose proof (sqrt_lt_R0 _ Ht) as Hs.
  unfold math_exp.
  destruct (decide (option_type = CALL)) as [Hc | Hc]; cbn.
  all: rewrite math_sqrt_Ok by lra; cbn.
  all: rewrite !truediv_Ok
         by (apply Rgt_not_eq; repeat apply Rmult_lt_0_compat; first [assumption | lra]).
  all: cbn.
  all: reflexivity.
Qed.

End greeks_formulas.

(** X2.  Signs and ranges of the Greeks.  For [iv > 0], [spot > 0] and
    [strike > 0]: gamma and vega are positive and the same for the CALL and
    the PUT, with [vega = gamma * spot^2 * iv * t / 100]; the CALL delta lies
    in [0,1] and the PUT delta in [-1,0]; the CALL rho is not negative and
    the PUT rho not positive; and for [rate >= 0] theta is not positive for
    either side. *)
Theorem compute_greeks_signs
    (spot strike : R) (days_to_expiry : Z) (iv rate : R) :
  0 < iv -> 0 < spot -> 0 < strike ->
  exists (gc gp : gmap string R) (gamma vega dc dp rc rp tc tp : R),
    greeks.compute_greeks spot strike days_to_expiry iv enums.CALL rate = Ok gc
    /\ greeks.compute_greeks spot strike days_to_expiry iv enums.PUT rate = Ok gp
    /\ gc !! "gamma" = Some gamma /\ gp !! "gamma" = Some gamma
    /\ gc !! "vega" = Some vega /\ gp !! "vega" = Some vega
    /\ gc !! "delta" = Some dc /\ gp !! "delta" = Some dp
    /\ gc !! "rho" = Some rc /\ gp !! "rho" = Some rp
    /\ gc !! "theta" = Some tc /\ gp !! "theta" = Some tp
    /\ 0 < gamma /\ 0 < vega
    /\ vega = gamma * spot ^ 2 * iv * greeks.years days_to_expiry / 100
    /\ 0 <= dc <= 1 /\ -1 <= dp <= 0
    /\ 0 <= rc /\ rp <= 0
    /\ (0 <= rate -> tc <= 0 /\ tp <= 0).
Proof.
  intros Hiv Hspot Hstrike.
  destruct (compute_greeks_regular spot strike days_to_expiry iv enums.CALL rate
              Hiv Hspot Hstrike) as (d1 & d2 & Hd & Hgc).
  destruct (compute_greeks_regular spot strike days_to_expiry iv enums.PUT rate
              Hiv Hspot Hstrike) as (d1' & d2' & Hd' & Hgp).
  rewrite Hd in Hd'. injection Hd' as <- <-.
  pose proof (greeks_years_pos days_to_expiry) as Ht.
  remember (greeks.years days_to_expiry) as t eqn:Et. clear Et.
  pose proof (sqrt_lt_R0 _ Ht) as Hs.
  pose proof (sqrt_sqrt t (Rlt_le _ _ Ht)) as Hss.
  pose proof (norm_pdf_pos d1) as Hpdf.
  pose proof (norm_cdf_unit d1) as Hc1.
  pose proof (norm_cdf_unit d2) as Hc2.
  pose proof (norm_cdf_unit (- d2)) as Hc2'.
  pose proof (exp_pos (- rate * t)) as He.
  do 2 eexists. do 8 eexists.
  split; [exact Hgc |]. split; [exact Hgp |].
  do 10 (split; [reflexivity |]).
  destruct (decide (enums.CALL = enums.CALL)) as [_ | Hn]; [| contradiction].
  destruct (decide (enums.PUT = enums.CALL)) as [Hn | _]; [discriminate |].
  assert (Hden : 0 < spot * iv * sqrt t) by (repeat apply Rmult_lt_0_compat; assumption).
  split; [apply Rdiv_lt_0_compat; assumption |].
  split.
  { apply Rdiv_lt_0_compat; [| lra].
    apply Rmult_lt_0_compat; [apply Rmult_lt_0_compat |]; assumption. }
  split.
  { assert (Hm : forall s : R, 0 < s ->
              spot * norm_pdf d1 * s / 100
              = norm_pdf d1 / (spot * iv * s) * spot ^ 2 * iv * (s * s) / 100).
    { intros s Hs0. field. split; [| split]; apply Rgt_not_eq; assumption. }
    rewrite (Hm (sqrt t) Hs), Hss. reflexivity. }
  split; [exact Hc1 |]. split; [lra |].
  assert (Hk : 0 <= t * strike * exp (- rate * t)).
  { apply Rmult_le_pos; [apply Rmult_le_pos |]; lra. }
  split; [apply Rmult_le_pos; [exact Hk | lra] |].
  split.
  { replace (- t * strike * exp (- rate * t) * norm_cdf (- d2))
      with (- (t * strike * exp (- rate * t) * norm_cdf (- d2))) by ring.
    pose proof (Rmult_le_pos _ _ Hk (proj1 Hc2')). lra. }
  intros Hrate.
  assert (Hdecay : 0 < spot * norm_pdf d1 * iv / (2 * sqrt t)).
  { apply Rdiv_lt_0_compat; [| lra].
    apply Rmult_lt_0_compat; [apply Rmult_lt_0_compat |]; assumption. }
  assert (Hrk : 0 <= rate * strike * exp (- rate * t)).
  { apply Rmult_le_pos; [apply Rmult_le_pos |]; lra. }
  pose proof (Rmult_le_pos _ _ Hrk (proj1 Hc2)).
  pose proof (Rmult_le_pos _ _ Hrk (proj1 Hc2')).
  split; cbn; lra.
Qed.

Lemma compute_greeks_signs_witness :
  (0 < 0.2 /\ 0 < 100)
  /\ exists (gc gp : gmap string R) (gamma vega : R),
       greeks.compute_greeks 100 100 30 0.2 enums.CALL 0 = Ok gc
       /\ greeks.compute_greeks 100 100 30 0.2 enums.PUT 0 = Ok gp
       /\ gc !! "gamma" = Some gamma /\ gp !! "gamma" = Some gamma
       /\ gc !! "vega" = Some vega /\ gp !! "vega" = Some vega
       /\ 0 < gamma /\ 0 < vega.
Proof.
  assert (H1 : 0 < 0.2) by lra.
  assert (H2 : 0 < 100) by lra.
  split; [split; assumption |].
  destruct (compute_greeks_signs 100 100 30 0.2 0 H1 H2 H2)
    as (gc & gp & gamma & vega & dc & dp & rc & rp & tc & tp
        & Hc & Hp & Hgc & Hgp & Hvc & Hvp & _ & _ & _ & _ & _ & _ & Hg & Hv & _).
  exists gc, gp, gamma, vega. repeat split; assumption.
Defined.

(** X3.  Put-call parity.  For every input, valid or not,
    [black_scholes_price] returns the price of the CALL and the price of the
    PUT, and they differ by [spot - strike * exp (- rate * t)].  For
    [iv > 0], [spot > 0] and [strike > 0] the prices that [compute_greeks]
    reports are these two prices, and its CALL rho minus its PUT rho is
    [t * strike * exp (- rate * t)]. *)
Theorem put_call_parity
    (spot strike : R) (days_to_expiry : Z) (iv rate : R) :
  (exists c p : R,
     greeks.black_scholes_price spot strike days_to_expiry iv enums.CALL rate = Ok c
     /\ greeks.black_scholes_price spot strike days_to_expiry iv enums.PUT rate = Ok p
     /\ c - p = spot - strike * exp (- rate * greeks.years days_to_expiry))
  /\ (0 < iv -> 0 < spot -> 0 < strike ->
      exists (gc gp : gmap string R) (pc pp rc rp : R),
        greeks.compute_greeks spot strike days_to_expiry iv enums.CALL rate = Ok gc
        /\ greeks.compute_greeks spot strike days_to_expiry iv enums.PUT rate = Ok gp
        /\ gc !! "price" = Some pc /\ gp !! "price" = Some pp
        /\ gc !! "rho" = Some rc /\ gp !! "rho" = Some rp
        /\ greeks.black_scholes_price spot strike days_to_expiry iv enums.CALL rate = Ok pc
        /\ greeks.black_scholes_price spot strike days_to_expiry iv enums.PUT rate = Ok pp
        /\ pc - pp = spot - strike * exp (- rate * greeks.years days_to_expiry)
        /\ rc - rp
           = greeks.years days_to_expiry * strike
             * exp (- rate * greeks.years days_to_expiry)).
Proof.
  split.
  - unfold greeks.black_scholes_price.
    destruct (greeks_d1_d2_total spot strike (greeks.years days_to_expiry) iv rate)
      as (d1 & d2 & Hd).
    rewrite Hd. cbn. do 2 eexists. split; [reflexivity |]. split; [reflexivity |].
    unfold math_exp.
    pose proof (norm_cdf_reflect d1). pose proof (norm_cdf_reflect d2). nra.
  - intros Hiv Hspot Hstrike.
    destruct (compute_greeks_regular spot strike days_to_expiry iv enums.CALL rate
                Hiv Hspot Hstrike) as (d1 & d2 & Hd & Hgc).
    destruct (compute_greeks_regular spot strike days_to_expiry iv enums.PUT rate
                Hiv Hspot Hstrike) as (d1' & d2' & Hd' & Hgp).
    rewrite Hd in Hd'. injection Hd' as <- <-.
    do 2 eexists. do 4 eexists.
    split; [exact Hgc |]. split; [exact Hgp |].
    do 4 (split; [reflexivity |]).
    unfold greeks.black_scholes_price. rewrite Hd. cbn. unfold math_exp.
    split; [reflexivity |]. split; [reflexivity |].
    destruct (decide (enums.CALL = enums.CALL)) as [_ | Hn]; [| contradiction].
    destruct (decide (enums.PUT = enums.CALL)) as [Hn | _]; [discriminate |].
    pose proof (norm_cdf_reflect d1). pose proof (norm_cdf_reflect d2).
    split; nra.
Qed.
(** ** Probability models *)

Section probability_formulas.
Import enums probability.

Lemma foldr_Rplus_app (a b : list R) :
  foldr Rplus 0 (a ++ b) = foldr Rplus 0 a + foldr Rplus 0 b.
Proof. induction a as [| x a IH]; cbn; [lra | rewrite IH; lra]. Qed.

(** A sum over a selection shrinks when the selection does. *)
Lemma flat_map_sum_le {A : Type} (f g : A -> list R) (l : list A) :
  (forall a, foldr Rplus 0 (f a) <= foldr Rplus 0 (g a)) ->
  foldr Rplus 0 (flat_map f l) <= foldr Rplus 0 (flat_map g l).
Proof.
  intros Hfg. induction l as [| a l IH]; cbn; [lra |].
  rewrite !foldr_Rplus_app. specialize (Hfg a). lra.
Qed.

(** The closed form of the analytic d2 probability of a CALL on valid
    inputs. *)
Lemma black_scholes_d2_probability_regular
    (spot strike : R) (days_to_expiry : Z) (iv : R) :
  0 < iv -> 0 < spot -> 0 < strike ->
  black_scholes_d2_probability spot strike days_to_expiry iv CALL
  = Ok (norm_cdf ((ln spot - ln strike - 0.5 * iv ^ 2 * years days_to_expiry)
                  / (iv * sqrt (years days_to_expiry)))).
Proof.
  intros Hiv Hspot Hstrike.
  pose proof (years_pos days_to_expiry) as Ht.
  unfold black_scholes_d2_probability.
  rewrite _d1_d2_regular by assumption. cbn.
  pose proof (sqrt_lt_R0 _ Ht) as Hs.
  pose proof (sqrt_sqrt _ (Rlt_le _ _ Ht)) as Hss.
  do 2 f_equal.
  assert (Hln : ln (spot / strike) = ln spot - ln strike).
  { unfold Rdiv. rewrite ln_mult by (try apply Rinv_0_lt_compat; assumption).
    rewrite ln_Rinv by assumption. ring. }
  rewrite Hln.
  set (s := sqrt (years days_to_expiry)) in *.
  rewrite <- Hss. clearbody s.
  assert (Hf : forall L : R,
            (L + (0 + 0.5 * (iv * (iv * 1))) * (s * s)) / (iv * s) - iv * s
            = (L - 0.5 * (iv * (iv * 1)) * (s * s)) / (iv * s)).
  { intros L. assert (0.5 = 1 / 2) as -> by lra.
    field. split; apply Rgt_not_eq; assumption. }
  exact (Hf (ln spot - ln strike)).
Qed.

Lemma one_minus_norm_cdf (z : R) : 1 - norm_cdf z = norm_cdf (- z).
Proof. pose proof (norm_cdf_reflect z). lra. Qed.

Lemma expected_move_nonneg (spot : R) (days_to_expiry : Z) (iv : R) :
  0 <= expected_move spot days_to_expiry iv.
Proof.
  unfold expected_move.
  destruct (decide _) as [_ | Hn]; [lra |].
  apply Rmult_le_pos; [apply Rmult_le_pos; lra | apply sqrt_pos].
Qed.

End probability_formulas.

(** X4.  The closed-form models coincide.  For [iv > 0], [spot > 0] and
    [strike > 0], the analytic d2 probability of the CALL, the log-normal
    probability, the geometric-Brownian-motion probability at rate 0 and
    the risk-neutral-density probability are one and the same number. *)
Theorem closed_form_models_agree
    (spot strike : R) (days_to_expiry : Z) (iv : R)
    (option_prices : option (gmap string R)) :
  0 < iv -> 0 < spot -> 0 < strike ->
  exists v : R,
    probability.black_scholes_d2_probability spot strike days_to_expiry iv enums.CALL = Ok v
    /\ probability.lognormal_itm_probability spot strike days_to_expiry iv = Ok v
    /\ probability.geometric_brownian_motion_probability spot strike days_to_expiry iv 0
       = Ok v
    /\ probability.risk_neutral_density_probability spot strike days_to_expiry iv
         option_prices = Ok v.
Proof.
  intros Hiv Hspot Hstrike.
  pose proof (years_pos days_to_expiry) as Ht.
  pose proof (sqrt_lt_R0 _ Ht) as Hs.
  eexists. split; [apply black_scholes_d2_probability_regular; assumption |].
  assert (Hden : iv * sqrt (probability.years days_to_expiry) <> 0)
    by (apply Rgt_not_eq, Rmult_lt_0_compat; assumption).
  split; [| split].
  - unfold probability.lognormal_itm_probability.
    destruct (decide (spot <= 0 \/ strike <= 0 \/ iv <= 0
                      \/ probability.years days_to_expiry <= 0)) as [H | _]; [lra |].
    rewrite (math_log_Ok spot) by exact Hspot. cbn [mbind result_bind mret result_ret].
    rewrite math_sqrt_Ok by lra. cbn [mbind result_bind mret result_ret].
    rewrite (math_log_Ok strike) by exact Hstrike. cbn [mbind result_bind mret result_ret].
    rewrite truediv_Ok by exact Hden. cbn [mbind result_bind mret result_ret].
    rewrite one_minus_norm_cdf. do 2 f_equal.
    assert (0.5 = 1 / 2) as -> by lra.
    field. split; apply Rgt_not_eq; assumption.
  - unfold probability.geometric_brownian_motion_probability.
    destruct (decide (spot <= 0 \/ strike <= 0 \/ iv <= 0
                      \/ probability.years days_to_expiry <= 0)) as [H | _]; [lra |].
    rewrite (math_log_Ok spot) by exact Hspot. cbn [mbind result_bind mret result_ret].
    rewrite math_sqrt_Ok by lra. cbn [mbind result_bind mret result_ret].
    rewrite (math_log_Ok strike) by exact Hstrike. cbn [mbind result_bind mret result_ret].
    rewrite truediv_Ok by exact Hden. cbn [mbind result_bind mret result_ret].
    rewrite one_minus_norm_cdf. do 2 f_equal.
    assert (0.5 = 1 / 2) as -> by lra.
    field. split; apply Rgt_not_eq; assumption.
  - unfold probability.risk_neutral_density_probability.
    destruct (decide (spot <= 0 \/ strike <= 0 \/ iv <= 0
                      \/ probability.years days_to_expiry <= 0)) as [H | _]; [lra |].
    pose proof (black_scholes_d2_probability_regular spot strike days_to_expiry iv
                  Hiv Hspot Hstrike) as Hd2.
    unfold probability.black_scholes_d2_probability in Hd2.
    destruct (probability._d1_d2 spot strike (probability.years days_to_expiry) iv 0)
      as [[d1 d2] | e]; cbn in Hd2 |- *; [exact Hd2 | discriminate].
Qed.

Lemma closed_form_models_agree_witness :
  (0 < 0.2 /\ 0 < 100 /\ 0 < 105)
  /\ exists v : R,
       probability.black_scholes_d2_probability 100 105 30 0.2 enums.CALL = Ok v
       /\ probability.lognormal_itm_probability 100 105 30 0.2 = Ok v
       /\ probability.geometric_brownian_motion_probability 100 105 30 0.2 0 = Ok v
       /\ probability.risk_neutral_density_probability 100 105 30 0.2 None = Ok v.
Proof.
  assert (H1 : 0 < 0.2) by lra.
  assert (H2 : 0 < 100) by lra.
  assert (H3 : 0 < 105) by lra.
  split; [repeat split; assumption |].
  exact (closed_form_models_agree 100 105 30 0.2 None H1 H2 H3).
Defined.

(** X5.  [expected_move] is never negative; it is 0 exactly when the spot
    or the IV is not positive; it scales with the spot; it grows with the
    days to expiry, every count of days up to 1 being taken as one day; and
    on valid inputs it is the spot times the gap between d1 and d2. *)
Theorem expected_move_properties (spot : R) (days_to_expiry : Z) (iv : R) :
  0 <= probability.expected_move spot days_to_expiry iv
  /\ (probability.expected_move spot days_to_expiry iv = 0 <-> spot <= 0 \/ iv <= 0)
  /\ (forall c : R, 0 < c ->
      probability.expected_move (c * spot) days_to_expiry iv
      = c * probability.expected_move spot days_to_expiry iv)
  /\ (forall days' : Z, (days_to_expiry <= days')%Z ->
      probability.expected_move spot days_to_expiry iv
      <= probability.expected_move spot days' iv)
  /\ ((days_to_expiry <= 1)%Z ->
      probability.expected_move spot days_to_expiry iv
      = probability.expected_move spot 1 iv)
  /\ (forall strike d1 d2 : R, 0 < spot -> 0 < iv -> 0 < strike ->
      probability._d1_d2 spot strike (probability.years days_to_expiry) iv 0 = Ok (d1, d2) ->
      probability.expected_move spot days_to_expiry iv = spot * (d1 - d2)).
Proof.
  pose proof (years_pos days_to_expiry) as Ht.
  pose proof (sqrt_lt_R0 _ Ht) as Hs.
  split; [| split; [| split; [| split; [| split]]]].
  - apply expected_move_nonneg.
  - unfold probability.expected_move.
    destruct (decide _) as [[H | [H | H]] | Hn].
    + split; [intros _; left; exact H | reflexivity].
    + split; [intros _; right; exact H | reflexivity].
    + lra.
    + split; [| intros [H | H]; exfalso; apply Hn; [left | right; left]; exact H].
      intros H0. exfalso.
      assert (0 < spot * iv * sqrt (probability.years days_to_expiry)).
      { apply Rmult_lt_0_compat; [apply Rmult_lt_0_compat |]; lra. }
      lra.
  - intros c Hc. unfold probability.expected_move.
    destruct (decide (c * spot <= 0 \/ _)) as [H1 | H1];
      destruct (decide (spot <= 0 \/ _)) as [H2 | H2]; try lra.
    + exfalso. apply H2. destruct H1 as [H1 | H1]; [left; nra | right; exact H1].
    + exfalso. apply H1. destruct H2 as [H2 | H2]; [left; nra | right; exact H2].
  - intros days' Hdays.
    pose proof (years_pos days') as Ht'.
    assert (Hyy : probability.years days_to_expiry <= probability.years days').
    { unfold probability.years.
      assert (Hz : (Z.max days_to_expiry 1 <= Z.max days' 1)%Z) by lia.
      apply IZR_le in Hz. lra. }
    pose proof (sqrt_le_1_alt _ _ Hyy) as Hsq.
    unfold probability.expected_move.
    destruct (decide (spot <= 0 \/ iv <= 0 \/ probability.years days_to_expiry <= 0))
      as [H1 | H1];
      destruct (decide (spot <= 0 \/ iv <= 0 \/ probability.years days' <= 0))
        as [H2 | H2]; try lra.
    apply Rmult_le_compat_l; [apply Rmult_le_pos; lra | exact Hsq].
  - intros Hd. unfold probability.expected_move.
    assert (Hy : probability.years days_to_expiry = probability.years 1).
    { unfold probability.years. f_equal. f_equal. lia. }
    rewrite Hy. reflexivity.
  - intros strike d1 d2 Hspot Hiv Hstrike Hd.
    rewrite _d1_d2_regular in Hd by assumption. injection Hd as <- <-.
    unfold probability.expected_move.
    destruct (decide _) as [H | _]; [lra |]. ring.
Qed.

(** X6.  Degenerate sizes.  With a positive IV, a lattice of 0 steps makes
    the binomial and the trinomial models raise [ZeroDivisionError], 0 paths
    make the Heston, jump-diffusion and GARCH simulations raise it too, and
    make the Monte Carlo mean not a number. *)
Theorem models_of_size_zero `{NumpyRandom} (g : rng_state)
    (spot strike : R) (days_to_expiry : Z) (iv : R)
    (v0 : option R) (kappa theta sigma_v rho lambda_jump mu_jump sigma_jump
     alpha beta omega : R) :
  0 < iv ->
  probability.binomial_itm_probability spot strike days_to_expiry iv 0
    = Raise ZeroDivisionError
  /\ probability.trinomial_tree_probability spot strike days_to_expiry iv 0
    = Raise ZeroDivisionError
  /\ probability.monte_carlo_itm_probability g spot strike days_to_expiry iv 0 = None
  /\ probability.heston_stochastic_volatility_probability spot strike days_to_expiry iv
       v0 kappa theta sigma_v rho 0 = Raise ZeroDivisionError
  /\ probability.jump_diffusion_probability spot strike days_to_expiry iv
       lambda_jump mu_jump sigma_jump 0 = Raise ZeroDivisionError
  /\ probability.garch_probability spot strike days_to_expiry iv alpha beta omega 0
     = Raise ZeroDivisionError.
Proof.
  intros Hiv.
  pose proof (years_pos days_to_expiry) as Ht.
  assert (Hdt : probability.years days_to_expiry / 100 <> 0) by lra.
  repeat split.
  - unfold probability.binomial_itm_probability.
    destruct (decide _) as [H0 | _]; [lra |].
    change (INR 0) with 0. rewrite truediv_zero. reflexivity.
  - unfold probability.trinomial_tree_probability.
    destruct (decide _) as [H0 | _]; [lra |].
    change (INR 0) with 0. rewrite truediv_zero. reflexivity.
  - unfold probability.monte_carlo_itm_probability.
    destruct (decide _) as [H0 | _]; [lra |]. reflexivity.
  - unfold probability.heston_stochastic_volatility_probability.
    destruct (decide _) as [H0 | _]; [lra |].
    rewrite truediv_Ok by exact Hdt. cbn.
    apply truediv_zero.
  - unfold probability.jump_diffusion_probability.
    destruct (decide _) as [H0 | _]; [lra |]. cbn.
    apply truediv_zero.
  - unfold probability.garch_probability.
    destruct (decide _) as [H0 | _]; [lra |].
    rewrite truediv_Ok by exact Hdt. cbn.
    apply truediv_zero.
Qed.

Lemma models_of_size_zero_witness :
  0 < 0.2
  /\ probability.binomial_itm_probability 100 100 30 0.2 0 = Raise ZeroDivisionError
  /\ @probability.monte_carlo_itm_probability alternating_generator 0%nat
       100 100 30 0.2 0 = None.
Proof.
  assert (H1 : 0 < 0.2) by lra.
  split; [exact H1 |].
  destruct (@models_of_size_zero alternating_generator 0%nat 100 100 30 0.2
              None 0 0 0 0 0 0 0 0 0 0 H1) as (Hb & _ & Hm & _).
  split; assumption.
Defined.
Section strike_monotonicity.
Import enums probability.

Lemma filter_true_length_le (bs1 bs2 : list bool) :
  Forall2 (fun b1 b2 : bool => b2 = true -> b1 = true) bs1 bs2 ->
  (length (filter (fun b : bool => b = true) bs2)
   <= length (filter (fun b : bool => b = true) bs1))%nat.
Proof.
  induction 1 as [| b1 b2 bs1 bs2 Hb _ IH]; [reflexivity |].
  rewrite !filter_cons.
  destruct (decide (b2 = true)) as [H2 | H2].
  - rewrite decide_True by (apply Hb, H2). cbn. lia.
  - destruct (decide (b1 = true)); cbn; lia.
Qed.

Lemma Forall2_map_same {A B : Type} (P : B -> B -> Prop) (f g : A -> B) (l : list A) :
  (forall a, P (f a) (g a)) -> Forall2 P (map f l) (map g l).
Proof. intros H. induction l; cbn; constructor; auto. Qed.

Lemma binomial_itm_probability_antitone
    (spot k1 k2 : R) (days_to_expiry : Z) (iv : R) (steps : nat) :
  0 < iv -> (0 < steps)%nat -> k1 <= k2 ->
  exists b1 b2 : R,
    binomial_itm_probability spot k1 days_to_expiry iv steps = Ok b1
    /\ binomial_itm_probability spot k2 days_to_expiry iv steps = Ok b2
    /\ b2 <= b1.
Proof.
  intros Hiv Hsteps Hk. unfold binomial_itm_probability.
  pose proof (years_pos days_to_expiry) as Ht.
  destruct (decide (years days_to_expiry <= 0 \/ iv <= 0)) as [H0 | _]; [lra |].
  assert (Hs : 0 < INR steps) by (apply lt_0_INR; exact Hsteps).
  rewrite truediv_Ok by lra. cbn.
  rewrite math_sqrt_Ok by (left; apply Rdiv_lt_0_compat; assumption). cbn.
  unfold math_exp.
  rewrite truediv_Ok by (apply Rgt_not_eq, exp_pos). cbn.
  do 2 eexists. split; [reflexivity |]. split; [reflexivity |].
  rewrite !py_sum_foldr.
  apply flat_map_sum_le. intros i. cbv zeta.
  assert (Hw : 0 <= INR (comb steps i) * 0.5 ^ i * (1 - 0.5) ^ (steps - i)).
  { apply Rmult_le_pos; [apply Rmult_le_pos |];
      [apply pos_INR | apply pow_le; lra | apply pow_le; lra]. }
  destruct (decide (_ >= k2)) as [H2 | H2].
  - destruct (decide (_ >= k1)) as [H1 | H1]; [cbn; lra | lra].
  - destruct (decide (_ >= k1)) as [H1 | H1]; cbn; lra.
Qed.

Lemma monte_carlo_itm_probability_antitone `{NumpyRandom} (g : rng_state)
    (spot k1 k2 : R) (days_to_expiry : Z) (iv : R) (n_paths : nat) :
  0 < iv -> (0 < n_paths)%nat -> k1 <= k2 ->
  exists m1 m2 : R,
    monte_carlo_itm_probability g spot k1 days_to_expiry iv n_paths = Some m1
    /\ monte_carlo_itm_probability g spot k2 days_to_expiry iv n_paths = Some m2
    /\ m2 <= m1.
Proof.
  intros Hiv Hn Hk. unfold monte_carlo_itm_probability.
  pose proof (years_pos days_to_expiry) as Ht.
  destruct (decide (years days_to_expiry <= 0 \/ iv <= 0)) as [H0 | _]; [lra |].
  cbv zeta.
  pose proof (standard_normal_array_length n_paths g) as Hlen.
  set (z := (standard_normal_array n_paths g).1) in *.
  set (st := map (fun zk : R => spot * exp (- 0.5 * iv ^ 2 * years days_to_expiry
                                            + iv * sqrt (years days_to_expiry) * zk)) z).
  assert (Hst : length st = n_paths) by (unfold st; rewrite length_map; exact Hlen).
  unfold np_mean_bool.
  destruct (map (fun s : R => bool_decide (s >= k1)) st) as [| c1 l1] eqn:E1.
  { apply (f_equal length) in E1. rewrite length_map, Hst in E1. cbn in E1. lia. }
  destruct (map (fun s : R => bool_decide (s >= k2)) st) as [| c2 l2] eqn:E2.
  { apply (f_equal length) in E2. rewrite length_map, Hst in E2. cbn in E2. lia. }
  do 2 eexists. split; [reflexivity |]. split; [reflexivity |].
  rewrite <- E1, <- E2, !length_map.
  assert (Hpos : 0 < INR (length st)) by (rewrite Hst; apply lt_0_INR; exact Hn).
  apply Rmult_le_compat_r; [left; apply Rinv_0_lt_compat; exact Hpos |].
  apply le_INR, filter_true_length_le.
  apply Forall2_map_same. intros s H2.
  apply bool_decide_eq_true in H2. apply bool_decide_eq_true. lra.
Qed.

Lemma black_scholes_d2_probability_antitone
    (spot k1 k2 : R) (days_to_expiry : Z) (iv : R) :
  0 < iv -> 0 < spot -> 0 < k1 -> k1 <= k2 ->
  exists a1 a2 : R,
    black_scholes_d2_probability spot k1 days_to_expiry iv CALL = Ok a1
    /\ black_scholes_d2_probability spot k2 days_to_expiry iv CALL = Ok a2
    /\ a2 <= a1.
Proof.
  intros Hiv Hspot Hk1 Hk.
  rewrite !black_scholes_d2_probability_regular by lra.
  do 2 eexists. split; [reflexivity |]. split; [reflexivity |].
  apply norm_cdf_monotone.
  pose proof (years_pos days_to_expiry) as Ht.
  pose proof (sqrt_lt_R0 _ Ht) as Hs.
  assert (Hln : ln k1 <= ln k2).
  { destruct Hk as [Hlt | ->]; [left; apply ln_increasing; assumption | lra]. }
  apply Rmult_le_compat_r; [| lra].
  left. apply Rinv_0_lt_compat, Rmult_lt_0_compat; assumption.
Qed.

End strike_monotonicity.

(** X7.  A higher strike never has a higher probability of finishing in the
    money.  For [iv > 0], [spot > 0] and strikes [0 < k1 <= k2], the analytic
    d2 probability of the CALL, the binomial probability and the Monte Carlo
    probability (on the same draws) at [k2] are at most those at [k1]. *)
Theorem itm_probability_antitone_in_strike `{NumpyRandom} (g : rng_state)
    (spot k1 k2 : R) (days_to_expiry : Z) (iv : R) (steps n_paths : nat) :
  0 < iv -> 0 < spot -> 0 < k1 -> k1 <= k2 -> (0 < steps)%nat -> (0 < n_paths)%nat ->
  exists a1 a2 b1 b2 m1 m2 : R,
    probability.black_scholes_d2_probability spot k1 days_to_expiry iv enums.CALL = Ok a1
    /\ probability.black_scholes_d2_probability spot k2 days_to_expiry iv enums.CALL = Ok a2
    /\ a2 <= a1
    /\ probability.binomial_itm_probability spot k1 days_to_expiry iv steps = Ok b1
    /\ probability.binomial_itm_probability spot k2 days_to_expiry iv steps = Ok b2
    /\ b2 <= b1
    /\ probability.monte_carlo_itm_probability g spot k1 days_to_expiry iv n_paths = Some m1
    /\ probability.monte_carlo_itm_probability g spot k2 days_to_expiry iv n_paths = Some m2
    /\ m2 <= m1.
Proof.
  intros Hiv Hspot Hk1 Hk Hsteps Hn.
  destruct (black_scholes_d2_probability_antitone spot k1 k2 days_to_expiry iv
              Hiv Hspot Hk1 Hk) as (a1 & a2 & Ha1 & Ha2 & Ha).
  destruct (binomial_itm_probability_antitone spot k1 k2 days_to_expiry iv steps
              Hiv Hsteps Hk) as (b1 & b2 & Hb1 & Hb2 & Hb).
  destruct (monte_carlo_itm_probability_antitone g spot k1 k2 days_to_expiry iv n_paths
              Hiv Hn Hk) as (m1 & m2 & Hm1 & Hm2 & Hm).
  exists a1, a2, b1, b2, m1, m2. repeat split; assumption.
Qed.

Lemma itm_probability_antitone_in_strike_witness :
  (0 < 0.2 /\ 0 < 100 /\ 0 < 100 /\ 100 <= 105 /\ (0 < 50)%nat /\ (0 < 4)%nat)
  /\ exists a1 a2 b1 b2 m1 m2 : R,
       probability.black_scholes_d2_probability 100 100 30 0.2 enums.CALL = Ok a1
       /\ probability.black_scholes_d2_probability 100 105 30 0.2 enums.CALL = Ok a2
       /\ a2 <= a1
       /\ probability.binomial_itm_probability 100 100 30 0.2 50 = Ok b1
       /\ probability.binomial_itm_probability 100 105 30 0.2 50 = Ok b2
       /\ b2 <= b1
       /\ @probability.monte_carlo_itm_probability alternating_generator 0%nat
            100 100 30 0.2 4 = Some m1
       /\ @probability.monte_carlo_itm_probability alternating_generator 0%nat
            100 105 30 0.2 4 = Some m2
       /\ m2 <= m1.
Proof.
  assert (H1 : 0 < 0.2) by lra.
  assert (H2 : 0 < 100) by lra.
  assert (H3 : 100 <= 105) by lra.
  assert (H4 : (0 < 50)%nat) by lia.
  assert (H5 : (0 < 4)%nat) by lia.
  split; [repeat split; assumption |].
  exact (@itm_probability_antitone_in_strike alternating_generator 0%nat
           100 100 105 30 0.2 50 4 H1 H2 H2 H3 H4 H5).
Defined.
(** ** The [/probability] route *)

Section probability_route.
Import enums probability.

(** On valid inputs the d2 probability of the CALL is the lognormal
    probability, and the d2 probability of the PUT is its complement. *)
Lemma black_scholes_d2_probability_lognormal
    (spot strike : R) (days_to_expiry : Z) (iv : R) :
  0 < iv -> 0 < spot -> 0 < strike ->
  exists v : R,
    lognormal_itm_probability spot strike days_to_expiry iv = Ok v
    /\ black_scholes_d2_probability spot strike days_to_expiry iv CALL = Ok v
    /\ black_scholes_d2_probability spot strike days_to_expiry iv PUT = Ok (1 - v).
Proof.
  intros Hiv Hspot Hstrike.
  pose proof (years_pos days_to_expiry) as Ht.
  pose proof (sqrt_lt_R0 _ Ht) as Hs.
  pose proof (black_scholes_d2_probability_regular spot strike days_to_expiry iv
                Hiv Hspot Hstrike) as Hcall.
  eexists. split; [| split; [exact Hcall |]].
  - unfold lognormal_itm_probability.
    destruct (decide (spot <= 0 \/ strike <= 0 \/ iv <= 0 \/ years days_to_expiry <= 0))
      as [H | _]; [lra |].
    rewrite (math_log_Ok spot) by exact Hspot. cbn [mbind result_bind mret result_ret].
    rewrite math_sqrt_Ok by lra. cbn [mbind result_bind mret result_ret].
    rewrite (math_log_Ok strike) by exact Hstrike. cbn [mbind result_bind mret result_ret].
    rewrite truediv_Ok by (apply Rgt_not_eq, Rmult_lt_0_compat; assumption).
    cbn [mbind result_bind mret result_ret].
    rewrite one_minus_norm_cdf. do 2 f_equal.
    assert (0.5 = 1 / 2) as -> by lra.
    field. split; apply Rgt_not_eq; assumption.
  - unfold black_scholes_d2_probability in Hcall |- *.
    destruct (_d1_d2 spot strike (years days_to_expiry) iv 0) as [[d1 d2] | e];
      cbn in Hcall |- *; [| discriminate].
    destruct (decide (CALL = CALL)) as [_ | Hn]; [| contradiction].
    destruct (decide (PUT = CALL)) as [Hn | _]; [discriminate |].
    injection Hcall as <-. f_equal. pose proof (norm_cdf_reflect d2). lra.
Qed.

(** Over the reals the four services of the route return. *)
Lemma post_probability_returns `{NumpyRandom} (g : rng_state)
    (req : routes.ProbabilityRequest) :
  exists r : schemas.ProbabilityResult, routes.post_probability g req = Ok (Some r).
Proof.
  unfold routes.post_probability.
  destruct (black_scholes_d2_probability_unit (routes.spot req) (routes.strike req)
              (routes.days_to_expiry req) (routes.iv req) (routes.option_type req))
    as (a & -> & Ha).
  destruct (lognormal_itm_probability_unit (routes.spot req) (routes.strike req)
              (routes.days_to_expiry req) (routes.iv req)) as (b & -> & Hb).
  destruct (binomial_itm_probability_unit (routes.spot req) (routes.strike req)
              (routes.days_to_expiry req) (routes.iv req) 50) as (c & -> & Hc); [lia |].
  destruct (monte_carlo_itm_probability_unit g (routes.spot req) (routes.strike req)
              (routes.days_to_expiry req) (routes.iv req) 10000) as (m & Hm & Hm01).
  { apply Nat.ltb_lt. vm_compute. reflexivity. }
  cbn [mbind result_bind mret result_ret]. rewrite Hm. cbn [mbind option_bind].
  eexists. reflexivity.
Qed.

End probability_route.

(** X8.  The response of the route [/probability].  Whenever the route
    returns, the fields of its response are the values of the five services
    on the request: the analytic d2 probability for the requested side, the
    lognormal probability, the binomial probability on 50 steps, the Monte
    Carlo probability on 10000 paths (drawn from the generator as the route
    finds it) and the expected move; the four probabilities lie in [0,1] and
    the expected move is not negative.  On a request with [iv > 0],
    [spot > 0] and [strike > 0] the d2 probability is the lognormal
    probability for a CALL and its complement to 1 for a PUT. *)
Theorem post_probability_response `{NumpyRandom} (g : rng_state)
    (req : routes.ProbabilityRequest) (r : schemas.ProbabilityResult) :
  routes.post_probability g req = Ok (Some r) ->
  probability.black_scholes_d2_probability (routes.spot req) (routes.strike req)
    (routes.days_to_expiry req) (routes.iv req) (routes.option_type req)
  = Ok (schemas.d2_probability r)
  /\ probability.lognormal_itm_probability (routes.spot req) (routes.strike req)
       (routes.days_to_expiry req) (routes.iv req)
     = Ok (schemas.lognormal_itm_probability r)
  /\ probability.binomial_itm_probability (routes.spot req) (routes.strike req)
       (routes.days_to_expiry req) (routes.iv req) 50
     = Ok (schemas.binomial_itm_probability r)
  /\ probability.monte_carlo_itm_probability g (routes.spot req) (routes.strike req)
       (routes.days_to_expiry req) (routes.iv req) 10000
     = Some (schemas.monte_carlo_itm_probability r)
  /\ schemas.expected_move r
     = probability.expected_move (routes.spot req) (routes.days_to_expiry req)
         (routes.iv req)
  /\ 0 <= schemas.d2_probability r <= 1
  /\ 0 <= schemas.lognormal_itm_probability r <= 1
  /\ 0 <= schemas.binomial_itm_probability r <= 1
  /\ 0 <= schemas.monte_carlo_itm_probability r <= 1
  /\ 0 <= schemas.expected_move r
  /\ (0 < routes.iv req -> 0 < routes.spot req -> 0 < routes.strike req ->
      (routes.option_type req = enums.CALL ->
       schemas.d2_probability r = schemas.lognormal_itm_probability r)
      /\ (routes.option_type req = enums.PUT ->
          schemas.d2_probability r = 1 - schemas.lognormal_itm_probability r)).
Proof.
  intros Hr. unfold routes.post_probability in Hr.
  destruct (probability.black_scholes_d2_probability (routes.spot req) (routes.strike req)
              (routes.days_to_expiry req) (routes.iv req) (routes.option_type req))
    as [a | e] eqn:Ea; [| discriminate Hr].
  destruct (probability.lognormal_itm_probability (routes.spot req) (routes.strike req)
              (routes.days_to_expiry req) (routes.iv req))
    as [b | e] eqn:Eb; [| discriminate Hr].
  destruct (probability.binomial_itm_probability (routes.spot req) (routes.strike req)
              (routes.days_to_expiry req) (routes.iv req) 50)
    as [c | e] eqn:Ec; [| discriminate Hr].
  cbn [mbind result_bind mret result_ret] in Hr.
  destruct (probability.monte_carlo_itm_probability g (routes.spot req)
              (routes.strike req) (routes.days_to_expiry req) (routes.iv req) 10000)
    as [m |] eqn:Em; [| discriminate Hr].
  cbn [mbind option_bind] in Hr. injection Hr as <-.
  cbn [schemas.d2_probability schemas.lognormal_itm_probability
       schemas.binomial_itm_probability schemas.monte_carlo_itm_probability
       schemas.expected_move].
  do 5 (split; [reflexivity |]).
  assert (Ha : 0 <= a <= 1).
  { destruct (black_scholes_d2_probability_unit (routes.spot req) (routes.strike req)
                (routes.days_to_expiry req) (routes.iv req) (routes.option_type req))
      as (a' & Ha' & Hrange).
    rewrite Ea in Ha'. injection Ha' as <-. exact Hrange. }
  assert (Hb : 0 <= b <= 1).
  { destruct (lognormal_itm_probability_unit (routes.spot req) (routes.strike req)
                (routes.days_to_expiry req) (routes.iv req)) as (b' & Hb' & Hrange).
    rewrite Eb in Hb'. injection Hb' as <-. exact Hrange. }
  assert (Hc : 0 <= c <= 1).
  { destruct (binomial_itm_probability_unit (routes.spot req) (routes.strike req)
                (routes.days_to_expiry req) (routes.iv req) 50) as (c' & Hc' & Hrange);
      [lia |].
    rewrite Ec in Hc'. injection Hc' as <-. exact Hrange. }
  assert (Hm : 0 <= m <= 1).
  { destruct (monte_carlo_itm_probability_unit g (routes.spot req) (routes.strike req)
                (routes.days_to_expiry req) (routes.iv req) 10000) as (m' & Hm' & Hrange).
    { apply Nat.ltb_lt. vm_compute. reflexivity. }
    rewrite Em in Hm'. injection Hm' as <-. exact Hrange. }
  split; [exact Ha |]. split; [exact Hb |]. split; [exact Hc |]. split; [exact Hm |].
  split; [apply expected_move_nonneg |].
  intros Hiv Hspot Hstrike.
  destruct (black_scholes_d2_probability_lognormal (routes.spot req) (routes.strike req)
              (routes.days_to_expiry req) (routes.iv req) Hiv Hspot Hstrike)
    as (v & Hlog & Hcall & Hput).
  rewrite Eb in Hlog. injection Hlog as <-.
  split; intros Hside; rewrite Hside in Ea.
  - rewrite Ea in Hcall. injection Hcall as ->. reflexivity.
  - rewrite Ea in Hput. injection Hput as ->. reflexivity.
Qed.

Lemma post_probability_response_witness :
  exists r : schemas.ProbabilityResult,
    @routes.post_probability alternating_generator 0%nat at_the_money_call_request
    = Ok (Some r)
    /\ 0 <= schemas.d2_probability r <= 1
    /\ schemas.d2_probability r = schemas.lognormal_itm_probability r.
Proof.
  destruct (@post_probability_returns alternating_generator 0%nat
              at_the_money_call_request) as [r Hr].
  destruct (@post_probability_response alternating_generator 0%nat
              at_the_money_call_request r Hr)
    as (_ & _ & _ & _ & _ & Hd & _ & _ & _ & _ & Hsides).
  exists r. split; [exact Hr |]. split; [exact Hd |].
  apply Hsides; cbn; try lra. reflexivity.
Defined.
(** ** Implied and historical volatility *)

Section implied_volatility_properties.
Import enums volatility.

Lemma volatility_years_pos (days_to_expiry : Z) : 0 < years days_to_expiry.
Proof.
  unfold years.
  assert (H : (1 <= Z.max days_to_expiry 1)%Z) by lia.
  apply IZR_le in H. lra.
Qed.

(** The closed form of [_black_scholes_price] where nothing degenerates. *)
Lemma _black_scholes_price_regular (spot strike t r iv : R) (option_type : OptionType) :
  0 < t -> 0 < iv -> 0 < spot -> 0 < strike ->
  _black_scholes_price spot strike t r iv option_type
  = Ok (Some (if decide (option_type = CALL)
              then spot * norm_cdf ((ln (spot / strike) + (r + 0.5 * iv ^ 2) * t)
                                    / (iv * sqrt t))
                   - strike * exp (- r * t)
                     * norm_cdf ((ln (spot / strike) + (r + 0.5 * iv ^ 2) * t)
                                 / (iv * sqrt t) - iv * sqrt t)
              else strike * exp (- r * t)
                   * norm_cdf (- ((ln (spot / strike) + (r + 0.5 * iv ^ 2) * t)
                                  / (iv * sqrt t) - iv * sqrt t))
                   - spot * norm_cdf (- ((ln (spot / strike) + (r + 0.5 * iv ^ 2) * t)
                                         / (iv * sqrt t))))).
Proof.
  intros Ht Hiv Hspot Hstrike. unfold _black_scholes_price.
  destruct (decide (t <= 0 \/ iv <= 0)) as [H | _]; [lra |].
  rewrite truediv_Ok by lra. cbn [mbind result_bind mret result_ret].
  unfold np_log.
  destruct (decide (0 < spot / strike)) as [_ | Hn];
    [| exfalso; apply Hn, Rdiv_lt_0_compat; assumption].
  cbn [mbind option_bind].
  destruct (decide (option_type = CALL)); reflexivity.
Qed.

(** A CALL is never priced above the spot. *)
Lemma _black_scholes_price_call_le_spot (spot strike t r iv : R) :
  0 < t -> 0 < iv -> 0 < spot -> 0 < strike ->
  exists p : R,
    _black_scholes_price spot strike t r iv CALL = Ok (Some p) /\ p <= spot.
Proof.
  intros Ht Hiv Hspot Hstrike.
  rewrite _black_scholes_price_regular by assumption.
  destruct (decide (CALL = CALL)) as [_ | Hn]; [| contradiction].
  eexists. split; [reflexivity |].
  match goal with
  | |- spot * norm_cdf ?a - strike * exp ?e * norm_cdf ?b <= spot =>
      pose proof (norm_cdf_unit a) as Ha; pose proof (norm_cdf_unit b) as Hb;
      pose proof (exp_pos e) as He;
      assert (Hk : 0 <= strike * exp e * norm_cdf b)
        by (apply Rmult_le_pos; [apply Rmult_le_pos |]; lra)
  end.
  nra.
Qed.


(** Against a target that no CALL price reaches, every turn of the
    bisection moves the lower end. *)
Lemma implied_volatility_loop_saturates (max_iter : nat)
    (spot strike option_price t rate tol : R) :
  0 < t -> 0 < spot -> 0 < strike -> 0 <= tol -> spot + tol <= option_price ->
  forall low high : R, 0 < low -> low < high ->
  implied_volatility_loop max_iter spot strike option_price t CALL rate tol low high
  = Ok (Some (high - (high - low) / 2 ^ S max_iter)).
Proof.
  intros Ht Hspot Hstrike Htol Hprice.
  induction max_iter as [| n IH]; intros low high Hlow Hlh; cbn [implied_volatility_loop].
  - do 2 f_equal. cbn. lra.
  - cbv zeta.
    destruct (_black_scholes_price_call_le_spot spot strike t rate (0.5 * (low + high)))
      as (p & Hp & Hle); [lra | lra | lra | lra |].
    rewrite Hp. cbn [mbind result_bind mret result_ret].
    destruct (decide (Rabs (p - option_price) < tol)) as [Habs | _].
    { exfalso. apply Rabs_def2 in Habs. lra. }
    destruct (decide (p > option_price)) as [Hgt | _]; [lra |].
    rewrite IH by lra. do 2 f_equal.
    assert (Hpow : 0 < 2 ^ S n) by (apply pow_lt; lra).
    change (2 ^ S (S n)) with (2 * 2 ^ S n).
    remember (2 ^ S n) as q eqn:Eq. clear Eq.
    assert (0.5 = 1 / 2) as -> by lra.
    field. lra.
Qed.

Lemma implied_volatility_nonpositive_price
    (spot strike option_price : R) (days_to_expiry : Z)
    (option_type : OptionType) (rate tol : R) (max_iter : nat) :
  option_price <= 0 ->
  implied_volatility spot strike option_price days_to_expiry option_type
    rate tol max_iter = Ok (Some 0).
Proof.
  intros Hp. unfold implied_volatility.
  destruct (decide _) as [_ | Hn]; [reflexivity |].
  exfalso. apply Hn. left. exact Hp.
Qed.

End implied_volatility_properties.


(** X10.  A CALL quoted at or above the spot plus the tolerance.  No
    Black-Scholes price reaches such a target, so the bisection never stops
    early and raises its lower end at every turn: the result is
    [5 - (5 - 1e-6) / 2^(max_iter + 1)], just below the upper end of the
    bracket, for every rate and days to expiry. *)
Theorem implied_volatility_saturates
    (spot strike option_price : R) (days_to_expiry : Z) (rate tol : R) (max_iter : nat) :
  0 < spot -> 0 < strike -> 0 <= tol -> spot + tol <= option_price ->
  volatility.implied_volatility spot strike option_price days_to_expiry enums.CALL
    rate tol max_iter
  = Ok (Some (5 - (5 - 1 / 1000000) / 2 ^ S max_iter)).
Proof.
  intros Hspot Hstrike Htol Hprice.
  pose proof (volatility_years_pos days_to_expiry) as Ht.
  unfold volatility.implied_volatility.
  destruct (decide _) as [H | _]; [lra |].
  apply implied_volatility_loop_saturates; try assumption; lra.
Qed.

Lemma implied_volatility_saturates_witness :
  (0 < 100 /\ 0 < 100 /\ 0 <= 1 / 100000 /\ 100 + 1 / 100000 <= 120)
  /\ volatility.implied_volatility 100 100 120 30 enums.CALL 0 (1 / 100000) 50
     = Ok (Some (5 - (5 - 1 / 1000000) / 2 ^ 51)).
Proof.
  assert (H1 : 0 < 100) by lra.
  assert (H2 : 0 <= 1 / 100000) by lra.
  assert (H3 : 100 + 1 / 100000 <= 120) by lra.
  split; [repeat split; assumption |].
  exact (implied_volatility_saturates 100 100 120 30 0 (1 / 100000) 50 H1 H1 H2 H3).
Defined.

Lemma pricers_at_nonpositive_iv
    (spot strike : R) (days_to_expiry : Z) (iv : R)
    (option_type : enums.OptionType) (rate : R) :
  iv <= 0 ->
  volatility._black_scholes_price spot strike (volatility.years days_to_expiry)
    rate iv option_type
  = Ok (Some (Rmax 0 (if decide (option_type = enums.CALL)
                      then spot - strike else strike - spot)))
  /\ greeks.black_scholes_price spot strike days_to_expiry iv option_type rate
     = Ok ((if decide (option_type = enums.CALL) then 1 else -1)
           * (spot - strike * exp (- rate * greeks.years days_to_expiry)) / 2).
Proof.
  intros Hiv. split.
  - unfold volatility._black_scholes_price.
    destruct (decide (volatility.years days_to_expiry <= 0 \/ iv <= 0)) as [_ | Hn];
      [reflexivity | exfalso; apply Hn; right; exact Hiv].
  - unfold greeks.black_scholes_price, greeks._d1_d2.
    destruct (decide (greeks.years days_to_expiry <= 0 \/ iv <= 0
                      \/ spot <= 0 \/ strike <= 0)) as [_ | Hn];
      [| exfalso; apply Hn; right; left; exact Hiv].
    cbn. unfold math_exp. rewrite Ropp_0, norm_cdf_0.
    destruct (decide (option_type = enums.CALL)); f_equal; lra.
Qed.

(** X11.  The two Black-Scholes pricers of the repository.  For [iv > 0],
    [spot > 0] and [strike > 0], [_black_scholes_price] of the volatility
    service and [black_scholes_price] of the Greeks service return the same
    price.  For [iv <= 0] the first returns the intrinsic value of the
    option and the second half of the forward difference, signed by the
    side; at rate 0 these two prices are equal exactly at the money
    ([spot = strike], where both are 0). *)
Theorem black_scholes_pricers_agree
    (spot strike : R) (days_to_expiry : Z) (iv : R)
    (option_type : enums.OptionType) (rate : R) :
  (0 < iv -> 0 < spot -> 0 < strike ->
   exists p : R,
     volatility._black_scholes_price spot strike (volatility.years days_to_expiry)
       rate iv option_type = Ok (Some p)
     /\ greeks.black_scholes_price spot strike days_to_expiry iv option_type rate = Ok p)
  /\ (iv <= 0 ->
      volatility._black_scholes_price spot strike (volatility.years days_to_expiry)
        rate iv option_type
      = Ok (Some (Rmax 0 (if decide (option_type = enums.CALL)
                          then spot - strike else strike - spot)))
      /\ greeks.black_scholes_price spot strike days_to_expiry iv option_type rate
         = Ok ((if decide (option_type = enums.CALL) then 1 else -1)
               * (spot - strike * exp (- rate * greeks.years days_to_expiry)) / 2))
  /\ (iv <= 0 ->
      exists p q : R,
        volatility._black_scholes_price spot strike (volatility.years days_to_expiry)
          0 iv option_type = Ok (Some p)
        /\ greeks.black_scholes_price spot strike days_to_expiry iv option_type 0 = Ok q
        /\ (p = q <-> spot = strike)).
Proof.
  pose proof (volatility_years_pos days_to_expiry) as Ht.
  split; [| split].
  - intros Hiv Hspot Hstrike.
    rewrite _black_scholes_price_regular by assumption.
    eexists. split; [reflexivity |].
    unfold greeks.black_scholes_price.
    destruct (greeks_d1_d2_regular spot strike (greeks.years days_to_expiry) iv rate)
      as (d1 & d2 & Hd); [apply greeks_years_pos | assumption | assumption | assumption |].
    pose proof Hd as Hd'.
    unfold greeks._d1_d2 in Hd'.
    destruct (decide _) as [H | _] in Hd';
      [pose proof (greeks_years_pos days_to_expiry); lra |].
    rewrite truediv_Ok in Hd' by lra. cbn in Hd'.
    rewrite math_log_Ok in Hd' by (apply Rdiv_lt_0_compat; assumption). cbn in Hd'.
    rewrite math_sqrt_Ok in Hd' by (left; apply greeks_years_pos). cbn in Hd'.
    rewrite truediv_Ok in Hd'
      by (apply Rgt_not_eq, Rmult_lt_0_compat;
          [assumption | apply sqrt_lt_R0, greeks_years_pos]).
    cbn in Hd'. injection Hd' as <- <-.
    rewrite Hd. cbn. unfold math_exp.
    destruct (decide (option_type = enums.CALL)); reflexivity.
  - apply pricers_at_nonpositive_iv.
  - intros Hiv.
    destruct (pricers_at_nonpositive_iv spot strike days_to_expiry iv option_type 0 Hiv)
      as [Hp Hq].
    eexists _, _. split; [exact Hp |]. split; [exact Hq |].
    replace (- 0 * greeks.years days_to_expiry) with 0 by ring. rewrite exp_0.
    destruct (decide (option_type = enums.CALL)).
    + unfold Rmax. destruct (Rle_dec 0 (spot - strike)); split; intros; lra.
    + unfold Rmax. destruct (Rle_dec 0 (strike - spot)); split; intros; lra.
Qed.
Section historical_volatility_properties.
Import volatility.

Lemma foldr_Rplus_affine (a b : R) (xs : list R) :
  foldr Rplus 0 ((fun x : R => a * x + b) <$> xs)
  = a * foldr Rplus 0 xs + INR (length xs) * b.
Proof.
  induction xs as [| x xs IH]; [cbn; lra |].
  cbn [fmap list_fmap foldr length]. rewrite S_INR.
  change (list_fmap R R (fun x : R => a * x + b) xs)
    with ((fun x : R => a * x + b) <$> xs).
  rewrite IH. lra.
Qed.

Lemma foldr_Rplus_scaled (c : R) (f : R -> R) (xs : list R) :
  foldr Rplus 0 ((fun x : R => c * f x) <$> xs) = c * foldr Rplus 0 (f <$> xs).
Proof.
  induction xs as [| x xs IH]; [cbn; lra |].
  cbn [fmap list_fmap foldr].
  change (list_fmap R R (fun x : R => c * f x) xs) with ((fun x : R => c * f x) <$> xs).
  change (list_fmap R R f xs) with (f <$> xs).
  rewrite IH. lra.
Qed.

Lemma foldr_Rplus_ext (f g : R -> R) (xs : list R) :
  (forall x, f x = g x) ->
  foldr Rplus 0 (f <$> xs) = foldr Rplus 0 (g <$> xs).
Proof.
  intros Hfg. induction xs as [| x xs IH]; [reflexivity |].
  cbn [fmap list_fmap foldr].
  change (list_fmap R R f xs) with (f <$> xs).
  change (list_fmap R R g xs) with (g <$> xs).
  rewrite IH, Hfg. reflexivity.
Qed.

Lemma squares_sum_nonneg (mu : R) (xs : list R) :
  0 <= foldr Rplus 0 ((fun x : R => (x - mu) ^ 2) <$> xs).
Proof.
  induction xs as [| x xs IH]; [cbn; lra |].
  cbn [fmap list_fmap foldr].
  change (list_fmap R R (fun x : R => (x - mu) ^ 2) xs)
    with ((fun x : R => (x - mu) ^ 2) <$> xs).
  pose proof (pow2_ge_0 (x - mu)). lra.
Qed.

Lemma squares_sum_zero (mu : R) (xs : list R) :
  foldr Rplus 0 ((fun x : R => (x - mu) ^ 2) <$> xs) = 0 ->
  Forall (fun x : R => mu = x) xs.
Proof.
  induction xs as [| x xs IH]; intros Hs; [constructor |].
  cbn [fmap list_fmap foldr] in Hs.
  change (list_fmap R R (fun x : R => (x - mu) ^ 2) xs)
    with ((fun x : R => (x - mu) ^ 2) <$> xs) in Hs.
  pose proof (pow2_ge_0 (x - mu)) as Hx.
  pose proof (squares_sum_nonneg mu xs) as Hxs.
  constructor; [| apply IH; lra].
  assert (Hz : (x - mu) * (x - mu) = 0) by lra.
  apply Rmult_integral in Hz. destruct Hz; lra.
Qed.

Lemma constant_sum (c : R) (xs : list R) :
  Forall (fun x : R => c = x) xs -> foldr Rplus 0 xs = INR (length xs) * c.
Proof.
  induction 1 as [| x xs Hx _ IH]; [cbn; lra |].
  cbn [foldr length]. rewrite S_INR, IH, <- Hx. lra.
Qed.

Lemma constant_squares_sum (c : R) (xs : list R) :
  Forall (fun x : R => c = x) xs ->
  foldr Rplus 0 ((fun x : R => (x - c) ^ 2) <$> xs) = 0.
Proof.
  induction 1 as [| x xs Hx _ IH]; [reflexivity |].
  cbn [fmap list_fmap foldr].
  change (list_fmap R R (fun x : R => (x - c) ^ 2) xs)
    with ((fun x : R => (x - c) ^ 2) <$> xs).
  rewrite IH, <- Hx. lra.
Qed.

(** With two values or more, the closed form of the historical
    volatility. *)
Lemma historical_volatility_regular (returns : list R) (trading_days : Z) :
  (2 <= length returns)%nat -> (0 <= trading_days)%Z ->
  historical_volatility returns trading_days
  = Some (sqrt (foldr Rplus 0
                  ((fun x : R => (x - foldr Rplus 0 returns / INR (length returns)) ^ 2)
                     <$> returns)
                / INR (length returns - 1))
          * sqrt (IZR trading_days)).
Proof.
  intros Hlen Htd. unfold historical_volatility.
  destruct returns as [| x xs]; [cbn in Hlen; lia |].
  unfold np_std_ddof1.
  destruct (decide (length (x :: xs) <= 1)%nat) as [H | _]; [lia |].
  cbn [mbind option_bind]. unfold np_sqrt.
  destruct (decide (0 <= IZR trading_days)) as [_ | Hn];
    [reflexivity | exfalso; apply Hn, IZR_le; exact Htd].
Qed.

End historical_volatility_properties.

Section historical_volatility_signs.
Import volatility.

(** With two values or more the historical volatility is a number, never
    negative, and 0 exactly when all values are equal. *)
Lemma historical_volatility_sign (returns : list R) (trading_days : Z) :
  (2 <= length returns)%nat -> (0 <= trading_days)%Z ->
  exists v : R,
    historical_volatility returns trading_days = Some v
    /\ 0 <= v
    /\ ((0 < trading_days)%Z ->
        (v = 0 <-> exists c : R, Forall (fun x : R => c = x) returns)).
Proof.
  intros Hlen Htd.
  rewrite historical_volatility_regular by assumption.
  eexists. split; [reflexivity |].
  set (mu := foldr Rplus 0 returns / INR (length returns)).
  set (ss := foldr Rplus 0 ((fun x : R => (x - mu) ^ 2) <$> returns)).
  assert (Hn1 : 0 < INR (length returns - 1)) by (apply lt_0_INR; lia).
  assert (Hss : 0 <= ss) by apply squares_sum_nonneg.
  split; [apply Rmult_le_pos; apply sqrt_pos |].
  intros Htd0.
  assert (Hsd : 0 < sqrt (IZR trading_days)) by (apply sqrt_lt_R0, IZR_lt; exact Htd0).
  split.
  - intros Hv. exists mu.
    apply Rmult_integral in Hv. destruct Hv as [Hv | Hv]; [| lra].
    apply sqrt_eq_0 in Hv;
      [| apply Rmult_le_pos; [exact Hss | left; apply Rinv_0_lt_compat; exact Hn1]].
    apply squares_sum_zero. fold ss.
    apply Rmult_integral in Hv. destruct Hv as [Hv | Hv]; [exact Hv |].
    pose proof (Rinv_0_lt_compat _ Hn1). lra.
  - intros [c Hc].
    assert (Hmu : mu = c).
    { unfold mu. rewrite (constant_sum c returns Hc). field.
      apply not_0_INR. lia. }
    unfold ss. rewrite Hmu, (constant_squares_sum c returns Hc).
    unfold Rdiv. rewrite Rmult_0_l, sqrt_0. lra.
Qed.

End historical_volatility_signs.

Lemma historical_volatility_scaled (a b : R) (returns : list R) (trading_days : Z) :
  (2 <= length returns)%nat -> (0 <= trading_days)%Z ->
  exists v : R,
    volatility.historical_volatility returns trading_days = Some v
    /\ volatility.historical_volatility ((fun x : R => a * x + b) <$> returns) trading_days
       = Some (Rabs a * v).
Proof.
  intros Hlen Htd.
  rewrite !historical_volatility_regular by (rewrite ?length_fmap; assumption).
  eexists. split; [reflexivity |]. f_equal.
  rewrite length_fmap, foldr_Rplus_affine.
  set (n := INR (length returns)).
  assert (Hn : 0 < n) by (apply lt_0_INR; lia).
  assert (Hn1 : 0 < INR (length returns - 1)) by (apply lt_0_INR; lia).
  set (mu := foldr Rplus 0 returns / n).
  assert (Hmu : (a * foldr Rplus 0 returns + n * b) / n = a * mu + b).
  { unfold mu. field. lra. }
  rewrite Hmu.
  rewrite <- list_fmap_compose.
  rewrite (foldr_Rplus_ext _ (fun x : R => a ^ 2 * (fun x : R => (x - mu) ^ 2) x))
    by (intros x; unfold compose; ring).
  rewrite foldr_Rplus_scaled.
  set (ss := foldr Rplus 0 ((fun x : R => (x - mu) ^ 2) <$> returns)).
  assert (Hss : 0 <= ss) by apply squares_sum_nonneg.
  replace (a ^ 2 * ss / INR (length returns - 1))
    with (a ^ 2 * (ss / INR (length returns - 1))) by (unfold Rdiv; ring).
  rewrite sqrt_mult_alt by apply pow2_ge_0.
  replace (a ^ 2) with (Rsqr a) by (unfold Rsqr; ring).
  rewrite sqrt_Rsqr_abs. ring.
Qed.

(** X12.  [historical_volatility]: edges, sign and scale.  The empty series
    gives 0.0 and a single value gives no number (numpy divides by zero
    degrees of freedom).  With two values or more and a non-negative number
    of trading days the result is a number, never negative, and, for a
    positive number of trading days, it is 0 exactly when all values are
    equal; replacing every value [x] of the series by [a * x + b] multiplies
    it by [|a|], so a shift alone leaves it unchanged. *)
Theorem historical_volatility_properties (trading_days : Z) :
  volatility.historical_volatility [] trading_days = Some 0
  /\ (forall x : R, volatility.historical_volatility [x] trading_days = None)
  /\ (forall returns : list R,
        (2 <= length returns)%nat -> (0 <= trading_days)%Z ->
        exists v : R,
          volatility.historical_volatility returns trading_days = Some v
          /\ 0 <= v
          /\ ((0 < trading_days)%Z ->
              (v = 0 <-> exists c : R, Forall (fun x : R => c = x) returns))
          /\ (forall a b : R,
                volatility.historical_volatility
                  ((fun x : R => a * x + b) <$> returns) trading_days
                = Some (Rabs a * v))).
Proof.
  split; [reflexivity |]. split; [reflexivity |].
  intros returns Hlen Htd.
  destruct (historical_volatility_sign returns trading_days Hlen Htd)
    as (v & Hv & Hv0 & Hzero).
  exists v. split; [exact Hv |]. split; [exact Hv0 |]. split; [exact Hzero |].
  intros a b.
  destruct (historical_volatility_scaled a b returns trading_days Hlen Htd)
    as (v' & Hv' & Himage).
  rewrite Hv in Hv'. injection Hv' as <-. exact Himage.
Qed.

Section rank_monotonicity.
Import volatility.

Lemma filter_length_mono (P Q : R -> Prop) `{!forall x, Decision (P x)}
    `{!forall x, Decision (Q x)} (l : list R) :
  (forall x, P x -> Q x) ->
  (length (filter P l) <= length (filter Q l))%nat.
Proof.
  intros HPQ. induction l as [| x l IH]; [reflexivity |].
  rewrite !filter_cons.
  destruct (decide (P x)) as [HP | HP].
  - rewrite decide_True by (apply HPQ, HP). cbn. lia.
  - destruct (decide (Q x)); cbn; lia.
Qed.

Lemma filter_length_all (P : R -> Prop) `{!forall x, Decision (P x)} (l : list R) :
  Forall P l -> length (filter P l) = length l.
Proof.
  induction 1 as [| x l Hx _ IH]; [reflexivity |].
  rewrite filter_cons, decide_True by exact Hx. cbn. rewrite IH. reflexivity.
Qed.

Lemma filter_length_none (P : R -> Prop) `{!forall x, Decision (P x)} (l : list R) :
  Forall (fun x => ~ P x) l -> length (filter P l) = 0%nat.
Proof.
  induction 1 as [| x l Hx _ IH]; [reflexivity |].
  rewrite filter_cons, decide_False by exact Hx. exact IH.
Qed.

Lemma percentage_mono (k1 k2 n : nat) :
  (k1 <= k2)%nat -> (0 < n)%nat -> 100 * INR k1 / INR n <= 100 * INR k2 / INR n.
Proof.
  intros Hk Hn.
  assert (H0 : 0 < INR n) by (apply lt_0_INR; exact Hn).
  apply Rmult_le_compat_r; [left; apply Rinv_0_lt_compat; exact H0 |].
  apply le_INR in Hk. lra.
Qed.

End rank_monotonicity.

(** X13.  [iv_rank] and [iv_percentile] grow with the current IV.  On a
    non-empty history, for [iv1 <= iv2] the rank and the percentile at [iv1]
    are at most those at [iv2], and the rank at [iv1] is at most the
    percentile at any strictly larger [iv2].  An IV at or above every sample
    has rank 100, an IV at or below every sample has percentile 0. *)
Theorem iv_rank_monotone (iv1 iv2 x : R) (history : list R) :
  iv1 <= iv2 ->
  exists r1 r2 p1 p2 : R,
    volatility.iv_rank iv1 (x :: history) = Ok r1
    /\ volatility.iv_rank iv2 (x :: history) = Ok r2
    /\ volatility.iv_percentile iv1 (x :: history) = Ok p1
    /\ volatility.iv_percentile iv2 (x :: history) = Ok p2
    /\ r1 <= r2 /\ p1 <= p2
    /\ (iv1 < iv2 -> r1 <= p2)
    /\ (Forall (fun y : R => y <= iv2) (x :: history) -> r2 = 100)
    /\ (Forall (fun y : R => iv1 <= y) (x :: history) -> p1 = 0).
Proof.
  intros Hiv.
  rewrite !iv_rank_eq, !iv_percentile_eq.
  do 4 eexists. do 4 (split; [reflexivity |]).
  assert (Hn : (0 < length (x :: history))%nat) by (cbn; lia).
  split; [apply percentage_mono; [apply filter_length_mono; intros y; lra | exact Hn] |].
  split; [apply percentage_mono; [apply filter_length_mono; intros y; lra | exact Hn] |].
  split; [intros Hlt;
          apply percentage_mono; [apply filter_length_mono; intros y; lra | exact Hn] |].
  assert (Hpos : 0 < INR (length (x :: history))) by (apply lt_0_INR; exact Hn).
  split.
  - intros Hall. rewrite filter_length_all by exact Hall. field. lra.
  - intros Hall. rewrite filter_length_none; [cbn; lra |].
    eapply Forall_impl; [exact Hall |]. intros y Hy. cbn. lra.
Qed.

Lemma iv_rank_monotone_witness :
  0.2 <= 0.3
  /\ exists r1 r2 p1 p2 : R,
       volatility.iv_rank 0.2 [0.1; 0.25] = Ok r1
       /\ volatility.iv_rank 0.3 [0.1; 0.25] = Ok r2
       /\ volatility.iv_percentile 0.2 [0.1; 0.25] = Ok p1
       /\ volatility.iv_percentile 0.3 [0.1; 0.25] = Ok p2
       /\ r1 <= r2 /\ p1 <= p2.
Proof.
  assert (H : 0.2 <= 0.3) by lra.
  split; [exact H |].
  destruct (iv_rank_monotone 0.2 0.3 0.1 [0.25] H)
    as (r1 & r2 & p1 & p2 & H1 & H2 & H3 & H4 & H5 & H6 & _).
  exists r1, r2, p1, p2. repeat split; assumption.
Defined.
(** ** Backtests *)

Section backtest_trades_properties.
Import strategy_engine backtest_engine.

(** The number of positions [i] with [k <= i < k + n] that are multiples
    of 10. *)
Lemma tenth_step (k : nat) :
  ((k + 10) / 10 = (k + 9) / 10 + (if decide (k mod 10 = 0) then 1 else 0))%nat.
Proof.
  pose proof (Nat.div_mod_eq k 10) as Hk.
  pose proof (Nat.mod_upper_bound k 10 ltac:(lia)) as Hb.
  destruct (decide (k mod 10 = 0)%nat) as [Hz | Hz].
  - replace (k + 10)%nat with ((k / 10 + 1) * 10)%nat by lia.
    replace (k + 9)%nat with (9 + (k / 10) * 10)%nat by lia.
    rewrite Nat.div_mul by lia. rewrite Nat.div_add by lia.
    change (9 / 10)%nat with 0%nat. lia.
  - replace (k + 10)%nat with (k mod 10 + (k / 10 + 1) * 10)%nat by lia.
    replace (k + 9)%nat with ((k mod 10 - 1) + (k / 10 + 1) * 10)%nat by lia.
    rewrite !Nat.div_add by lia.
    rewrite (Nat.div_small (k mod 10)) by lia.
    rewrite (Nat.div_small (k mod 10 - 1)) by lia. lia.
Qed.

Lemma every_tenth_length {A B : Type} (g : nat * A -> list B) (m : nat)
    (l : list A) (k : nat) :
  (forall ip, length (g ip) = m) ->
  length (flat_map (fun ip : nat * A => if decide (ip.1 mod 10 = 0)%nat then g ip else [])
            (zip (seq k (length l)) l))
  = (((k + length l + 9) / 10 - (k + 9) / 10) * m)%nat.
Proof.
  intros Hg. revert k. induction l as [| a l IH]; intros k.
  - cbn. rewrite Nat.add_0_r, Nat.sub_diag. reflexivity.
  - cbn [length seq zip zip_with flat_map]. rewrite length_app.
    change (zip_with pair (seq (S k) (length l)) l) with (zip (seq (S k) (length l)) l).
    rewrite IH.
    replace (S k + length l + 9)%nat with (k + S (length l) + 9)%nat by lia.
    replace (S k + 9)%nat with (k + 10)%nat by lia.
    pose proof (tenth_step k) as Hstep.
    assert (Hmono : ((k + 10) / 10 <= (k + S (length l) + 9) / 10)%nat)
      by (apply Nat.Div0.div_le_mono; lia).
    cbn [fst].
    destruct (decide (k mod 10 = 0)%nat) as [Hz | Hz].
    + rewrite Hg.
      replace ((k + S (length l) + 9) / 10 - (k + 9) / 10)%nat
        with (S ((k + S (length l) + 9) / 10 - (k + 10) / 10))%nat by lia.
      cbn. lia.
    + cbn [length]. f_equal. lia.
Qed.

Lemma enumerate_tenth_length {A B : Type} (g : nat * A -> list B) (m : nat) (l : list A) :
  (forall ip, length (g ip) = m) ->
  length (flat_map (fun ip : nat * A => if decide (ip.1 mod 10 = 0)%nat then g ip else [])
            (enumerate l))
  = ((length l + 9) / 10 * m)%nat.
Proof.
  intros Hg. unfold enumerate. rewrite (every_tenth_length g m l 0 Hg).
  change ((0 + 9) / 10)%nat with 0%nat. rewrite Nat.sub_0_r. reflexivity.
Qed.


End backtest_trades_properties.

Section backtest_trade_positions.
Import strategy_engine backtest_engine.



End backtest_trade_positions.

Section equity_curves.
Import strategy_engine backtest_engine.

(** The change of equity that [equity_curve_from_trades] books for a
    trade. *)
Lemma equity_curve_loop_diff (equity : R) (trades : list Trade) :
  np_diff (equity :: equity_curve_loop equity trades)
  = map (fun t : Trade =>
           (if decide (upper (trade_side t) = "BUY") then 1 else -1)
           * IZR (trade_quantity t) * trade_price t * 0.001)
        trades.
Proof.
  revert equity. induction trades as [| t rest IH]; intros equity; [reflexivity |].
  cbn [equity_curve_loop]. cbv zeta.
  set (e' := equity + _).
  change (np_diff (equity :: e' :: equity_curve_loop e' rest))
    with ((e' - equity) :: np_diff (e' :: equity_curve_loop e' rest)).
  rewrite IH. cbn [map]. f_equal. unfold e'. ring.
Qed.

Lemma equity_curve_loop_last (equity : R) (trades : list Trade) :
  last (equity :: equity_curve_loop equity trades)
  = Some (equity
          + np_sum (map (fun t : Trade =>
                           (if decide (upper (trade_side t) = "BUY") then 1 else -1)
                           * IZR (trade_quantity t) * trade_price t * 0.001)
                        trades)).
Proof.
  revert equity. induction trades as [| t rest IH]; intros equity.
  - cbn. f_equal. lra.
  - cbn [equity_curve_loop]. cbv zeta.
    set (e' := equity + _).
    change (last (equity :: e' :: equity_curve_loop e' rest))
      with (last (e' :: equity_curve_loop e' rest)).
    rewrite IH. cbn [map]. rewrite np_sum_cons. f_equal. unfold e'. ring.
Qed.

Lemma equity_curve_loop_length (equity : R) (trades : list Trade) :
  length (equity_curve_loop equity trades) = length trades.
Proof.
  revert equity. induction trades as [| t rest IH]; intros equity; [reflexivity |].
  cbn. rewrite IH. reflexivity.
Qed.

End equity_curves.

(** X15.  The equity curve of a list of trades.  It starts at the initial
    capital and has one more point than there are trades; from one point to
    the next it moves by a thousandth of quantity times price, upwards for a
    side that reads BUY in upper case and downwards for every other side;
    its last point is the initial capital plus the sum of these moves. *)
Theorem equity_curve_from_trades_steps (initial_capital : R)
    (trades : list strategy_engine.Trade) :
  let step := fun t : strategy_engine.Trade =>
    (if decide (strategy_engine.upper (strategy_engine.trade_side t) = "BUY")
     then 1 else -1)
    * IZR (strategy_engine.trade_quantity t) * strategy_engine.trade_price t * 0.001 in
  let curve := backtest_engine.equity_curve_from_trades initial_capital trades in
  length curve = S (length trades)
  /\ head curve = Some initial_capital
  /\ backtest_engine.np_diff curve = map step trades
  /\ last curve = Some (initial_capital + backtest_engine.np_sum (map step trades)).
Proof.
  cbv zeta. unfold backtest_engine.equity_curve_from_trades.
  split; [cbn; rewrite equity_curve_loop_length; reflexivity |].
  split; [reflexivity |].
  split; [apply equity_curve_loop_diff | apply equity_curve_loop_last].
Qed.

Section backtest_statistics_fields.
Import backtest_engine.

Lemma mapM_drawdowns (equity_curve peak : list R) :
  Forall (fun e : R => e <> 0) peak ->
  mapM (fun ep : R * R => np_divide (ep.1 - ep.2) ep.2) (zip equity_curve peak)
  = Some (zip_with (fun e p : R => (e - p) / p) equity_curve peak).
Proof.
  intros Hp. revert equity_curve.
  induction Hp as [| q peak Hq Hp IH]; intros [| e c]; try reflexivity.
  change (mapM ?f (zip (e :: c) (q :: peak)))
    with (x ← f (e, q); k ← mapM f (zip c peak); mret (x :: k)).
  cbn [fst snd]. rewrite np_divide_Some by exact Hq. cbn [mbind option_bind].
  rewrite IH. reflexivity.
Qed.

(** The statistics of a curve of two points or more without a zero value,
    field by field. *)
Lemma compute_stats_fields (equity_curve : list R) :
  (2 <= length equity_curve)%nat ->
  Forall (fun e : R => e <> 0) equity_curve ->
  exists stats : BacktestStats,
    compute_stats equity_curve = Some stats
    /\ total_trades stats = length (period_returns equity_curve)
    /\ win_rate stats
       = INR (length (filter (fun r : R => r > 0) (period_returns equity_curve)))
         / INR (length (period_returns equity_curve))
    /\ profit_factor stats = profit_factor_of (period_returns equity_curve)
    /\ max_drawdown stats
       = match zip_with (fun e p : R => (e - p) / p) equity_curve
                 (maximum_accumulate equity_curve) with
         | [] => 0
         | x :: xs => np_min x xs
         end.
Proof.
  intros Hlen Hnz. unfold compute_stats.
  destruct (decide (length equity_curve < 2)%nat) as [H | _]; [lia |].
  rewrite returns_period_returns by exact Hnz. cbn [mbind option_bind].
  set (rs := period_returns equity_curve).
  assert (Hrs : rs <> []).
  { unfold rs. destruct equity_curve as [| x [| y c]]; cbn in Hlen; try lia. discriminate. }
  destruct (decide (length rs = 0%nat)) as [Hz | Hz];
    [destruct rs; [contradiction | discriminate] |].
  rewrite np_divide_Some by (apply not_0_INR; exact Hz). cbn [mbind option_bind].
  rewrite mapM_drawdowns by (apply maximum_accumulate_nonzero, Hnz).
  cbn [mbind option_bind].
  destruct (sharpe_defined rs Hrs) as [sh Hsh].
  rewrite Hsh. cbn [mbind option_bind].
  eexists. split; [reflexivity |]. repeat split.
Qed.

Lemma period_returns_length (equity_curve : list R) :
  length (period_returns equity_curve) = (length equity_curve - 1)%nat.
Proof.
  induction equity_curve as [| x c IH]; [reflexivity |].
  destruct c as [| y c]; [reflexivity |].
  change (period_returns (x :: y :: c)) with ((y - x) / x :: period_returns (y :: c)).
  cbn [length] in *. rewrite IH. lia.
Qed.

Lemma np_min_le (x : R) (xs : list R) : np_min x xs <= x.
Proof.
  unfold np_min. induction xs as [| y ys IH]; cbn; [lra |].
  pose proof (Rmin_r y (foldr Rmin x ys)). lra.
Qed.

Lemma np_min_gt (b x : R) (xs : list R) :
  b < x -> Forall (fun y : R => b < y) xs -> b < np_min x xs.
Proof.
  intros Hx Hxs. unfold np_min.
  induction Hxs as [| y ys Hy _ IH]; cbn; [exact Hx |].
  apply Rmin_glb_lt; assumption.
Qed.

Lemma np_min_zeros (xs : list R) :
  Forall (fun y : R => y = 0) xs -> np_min 0 xs = 0.
Proof.
  unfold np_min. induction 1 as [| y ys Hy _ IH]; cbn; [reflexivity |].
  rewrite IH, Hy. apply Rmin_left. lra.
Qed.

Lemma maximum_accumulate_from_positive (m : R) (a : list R) :
  0 < m -> Forall (fun p : R => 0 < p) (maximum_accumulate_from m a).
Proof.
  revert m. induction a as [| x a IH]; intros m Hm; cbn; constructor.
  - pose proof (Rmax_l m x). lra.
  - apply IH. pose proof (Rmax_l m x). lra.
Qed.

Lemma drawdowns_above_minus_one (equity_curve peak : list R) :
  Forall (fun e : R => 0 < e) equity_curve -> Forall (fun p : R => 0 < p) peak ->
  Forall (fun d : R => -1 < d) (zip_with (fun e p : R => (e - p) / p) equity_curve peak).
Proof.
  intros He. revert peak. induction He as [| e c He _ IH]; intros peak Hp; [constructor |].
  destruct Hp as [| p peak Hp Hpeak]; cbn; constructor; [| apply IH; exact Hpeak].
  replace ((e - p) / p) with (e / p - 1) by (field; lra).
  pose proof (Rdiv_lt_0_compat e p He Hp). lra.
Qed.

(** A curve that never falls is its own running maximum. *)
Lemma maximum_accumulate_from_rising (m : R) (a : list R) :
  Forall (fun d : R => 0 <= d) (np_diff (m :: a)) -> maximum_accumulate_from m a = a.
Proof.
  revert m. induction a as [| x a IH]; intros m Hd; [reflexivity |].
  change (np_diff (m :: x :: a)) with ((x - m) :: np_diff (x :: a)) in Hd.
  inversion Hd as [| ? ? Hx Hrest]; subst.
  cbn [maximum_accumulate_from].
  rewrite Rmax_right by lra. rewrite IH by exact Hrest. reflexivity.
Qed.

Lemma rising_positive (x : R) (c : list R) :
  0 < x -> Forall (fun d : R => 0 < d) (np_diff (x :: c)) ->
  Forall (fun e : R => 0 < e) (x :: c).
Proof.
  revert x. induction c as [| y c IH]; intros x Hx Hd; [repeat constructor; exact Hx |].
  change (np_diff (x :: y :: c)) with ((y - x) :: np_diff (y :: c)) in Hd.
  inversion Hd as [| ? ? Hy Hrest]; subst.
  constructor; [exact Hx |]. apply IH; [lra | exact Hrest].
Qed.

Lemma rising_period_returns (x : R) (c : list R) :
  0 < x -> Forall (fun d : R => 0 < d) (np_diff (x :: c)) ->
  Forall (fun r : R => 0 < r) (period_returns (x :: c)).
Proof.
  revert x. induction c as [| y c IH]; intros x Hx Hd; [constructor |].
  change (np_diff (x :: y :: c)) with ((y - x) :: np_diff (y :: c)) in Hd.
  inversion Hd as [| ? ? Hy Hrest]; subst.
  change (period_returns (x :: y :: c)) with ((y - x) / x :: period_returns (y :: c)).
  constructor; [apply Rdiv_lt_0_compat; lra |]. apply IH; [lra | exact Hrest].
Qed.

Lemma zip_with_self_zero (c : list R) :
  Forall (fun e : R => 0 < e) c ->
  Forall (fun d : R => d = 0) (zip_with (fun e p : R => (e - p) / p) c c).
Proof.
  induction 1 as [| e c He _ IH]; cbn; constructor; [| exact IH].
  unfold Rdiv. rewrite Rminus_diag. apply Rmult_0_l.
Qed.

(** The statistics of a strictly rising, positive curve. *)
Lemma compute_stats_rising (x : R) (c : list R) :
  c <> [] -> 0 < x -> Forall (fun d : R => 0 < d) (np_diff (x :: c)) ->
  exists stats : BacktestStats,
    compute_stats (x :: c) = Some stats
    /\ total_trades stats = length c
    /\ win_rate stats = 1
    /\ profit_factor stats = 999
    /\ max_drawdown stats = 0.
Proof.
  intros Hc Hx Hd.
  pose proof (rising_positive x c Hx Hd) as Hpos.
  pose proof (rising_period_returns x c Hx Hd) as Hret.
  assert (Hnz : Forall (fun e : R => e <> 0) (x :: c)).
  { eapply Forall_impl; [exact Hpos |]. intros e He. cbn in He. lra. }
  assert (Hlen : (2 <= length (x :: c))%nat).
  { destruct c; [contradiction | cbn; lia]. }
  destruct (compute_stats_fields (x :: c) Hlen Hnz)
    as (stats & Hstats & Htot & Hwin & Hpf & Hdd).
  exists stats. split; [exact Hstats |].
  pose proof (period_returns_length (x :: c)) as Hrl. cbn [length] in Hrl.
  rewrite Nat.sub_succ, Nat.sub_0_r in Hrl.
  split; [rewrite Htot; exact Hrl |].
  split.
  { rewrite Hwin.
    assert (Hall : filter (fun r : R => r > 0) (period_returns (x :: c))
                   = period_returns (x :: c)).
    { clear -Hret. induction Hret as [| r rs Hr _ IH]; [reflexivity |].
      rewrite filter_cons, decide_True by lra. rewrite IH. reflexivity. }
    rewrite Hall, Hrl. field. apply not_0_INR.
    destruct c; [contradiction | discriminate]. }
  split.
  { rewrite Hpf. apply profit_factor_of_sentinel.
    - eapply Forall_impl; [exact Hret |]. intros r Hr. cbn in Hr. lra.
    - destruct (period_returns (x :: c)) as [| r rs] eqn:E.
      + destruct c; [contradiction | discriminate].
      + constructor. inversion Hret; assumption. }
  rewrite Hdd.
  assert (Hpeak : maximum_accumulate (x :: c) = x :: c).
  { cbn [maximum_accumulate]. f_equal. apply maximum_accumulate_from_rising.
    eapply Forall_impl; [exact Hd |]. intros d H0. cbn in H0. lra. }
  rewrite Hpeak.
  pose proof (zip_with_self_zero (x :: c) Hpos) as Hz.
  destruct (zip_with _ (x :: c) (x :: c)) as [| d ds]; [reflexivity |].
  inversion Hz as [| ? ? Hd0 Hds]; subst. apply np_min_zeros, Hds.
Qed.

End backtest_statistics_fields.

(** X16.  The ranges of the backtest statistics.  On every equity curve
    without a zero value, [compute_stats] returns statistics whose number of
    trades is the number of points minus one, whose win rate lies in [0,1]
    and whose maximum drawdown is never positive; on a curve of positive
    values the maximum drawdown stays above -1. *)
Theorem compute_stats_ranges (equity_curve : list R) :
  Forall (fun e : R => e <> 0) equity_curve ->
  exists stats : backtest_engine.BacktestStats,
    backtest_engine.compute_stats equity_curve = Some stats
    /\ backtest_engine.total_trades stats = (length equity_curve - 1)%nat
    /\ 0 <= backtest_engine.win_rate stats <= 1
    /\ backtest_engine.max_drawdown stats <= 0
    /\ (Forall (fun e : R => 0 < e) equity_curve ->
        -1 < backtest_engine.max_drawdown stats).
Proof.
  intros Hnz.
  destruct (decide (length equity_curve < 2)%nat) as [Hshort | Hlong].
  - exists {| backtest_engine.total_trades := 0; backtest_engine.win_rate := 0;
              backtest_engine.profit_factor := 0; backtest_engine.max_drawdown := 0;
              backtest_engine.sharpe := 0 |}.
    unfold backtest_engine.compute_stats.
    destruct (decide (length equity_curve < 2)%nat) as [_ | Hn]; [| contradiction].
    split; [reflexivity |]. cbn.
    split; [lia |]. repeat split; lra.
  - destruct (compute_stats_fields equity_curve ltac:(lia) Hnz)
      as (stats & Hstats & Htot & Hwin & _ & Hdd).
    exists stats. split; [exact Hstats |].
    split; [rewrite Htot; apply period_returns_length |].
    split.
    { rewrite Hwin. apply fraction_bounds; [apply length_filter |].
      rewrite period_returns_length. lia. }
    destruct equity_curve as [| e c]; [cbn in Hlong; lia |].
    inversion Hnz as [| ? ? He Hc]; subst.
    cbn [backtest_engine.maximum_accumulate zip_with] in Hdd.
    assert (H0 : (e - e) / e = 0) by (unfold Rdiv; rewrite Rminus_diag; apply Rmult_0_l).
    split.
    { rewrite Hdd. pose proof (np_min_le ((e - e) / e)
        (zip_with (fun e0 p : R => (e0 - p) / p) c
           (backtest_engine.maximum_accumulate_from e c))). lra. }
    intros Hpos. inversion Hpos as [| ? ? He0 Hc0]; subst.
    rewrite Hdd. apply np_min_gt; [lra |].
    apply drawdowns_above_minus_one; [exact Hc0 |].
    apply maximum_accumulate_from_positive. exact He0.
Qed.

Lemma compute_stats_ranges_witness :
  Forall (fun e : R => e <> 0) [100; 90; 120]
  /\ exists stats : backtest_engine.BacktestStats,
       backtest_engine.compute_stats [100; 90; 120] = Some stats
       /\ backtest_engine.total_trades stats = 2%nat
       /\ 0 <= backtest_engine.win_rate stats <= 1
       /\ backtest_engine.max_drawdown stats <= 0.
Proof.
  assert (H : Forall (fun e : R => e <> 0) [100; 90; 120])
    by (repeat constructor; lra).
  split; [exact H |].
  destruct (compute_stats_ranges [100; 90; 120] H)
    as (stats & Hstats & Htot & Hwin & Hdd & _).
  exists stats. repeat split; try assumption; apply Hwin.
Defined.
Section buy_only_backtests.
Import strategy_engine backtest_engine.

Lemma backtest_trades_buy_only (req : StrategyBacktestRequest) (prices : list R) :
  Forall (fun a : Action => upper (side a) = "BUY" /\ (0 < quantity a)%Z)
         (actions (backtest_strategy req)) ->
  Forall (fun p : R => 0 < p) prices ->
  Forall (fun t : Trade =>
            trade_side t = "BUY" /\ (0 < trade_quantity t)%Z /\ 0 < trade_price t)
         (backtest_trades req prices).
Proof.
  intros Hact Hprices. unfold backtest_trades.
  assert (Hin : Forall (fun ip : nat * R => 0 < ip.2) (enumerate prices)).
  { unfold enumerate. apply Forall_forall. intros [i x] Hix.
    apply elem_of_zip_r in Hix. rewrite Forall_forall in Hprices.
    apply Hprices, Hix. }
  induction Hin as [| ip l Hip _ IH]; [constructor |].
  cbn [flat_map]. apply Forall_app. split; [| exact IH].
  destruct (decide (ip.1 mod 10 = 0)%nat); [| constructor].
  apply Forall_forall. intros t Ht.
  apply list_elem_of_In, in_map_iff in Ht. destruct Ht as (a & <- & Hin).
  apply list_elem_of_In in Hin.
  rewrite Forall_forall in Hact. destruct (Hact a Hin) as [Ha Hq].
  cbn. rewrite Ha. split; [reflexivity |]. split; [exact Hq |].
  unfold _apply_fee_and_slippage.
  destruct (decide (upper "BUY" = "BUY")) as [_ | Hn]; [| exfalso; apply Hn; reflexivity].
  lra.
Qed.

End buy_only_backtests.

(** The result of the backtest of a buy-only strategy on positive prices. *)
Lemma run_backtest_buy_only_stats
    (req : strategy_engine.StrategyBacktestRequest) (prices : list R) :
  0 < strategy_engine.initial_capital req ->
  Forall (fun a : strategy_engine.Action =>
            strategy_engine.upper (strategy_engine.side a) = "BUY"
            /\ (0 < strategy_engine.quantity a)%Z)
         (strategy_engine.actions (strategy_engine.backtest_strategy req)) ->
  strategy_engine.actions (strategy_engine.backtest_strategy req) <> [] ->
  Forall (fun p : R => 0 < p) prices ->
  prices <> [] ->
  exists r : backtest_engine.BacktestResult,
    backtest_engine.run_backtest req prices = Some r
    /\ length (backtest_engine.result_trades r)
       = ((length prices + 9) / 10
          * length (strategy_engine.actions (strategy_engine.backtest_strategy req)))%nat
    /\ length (backtest_engine.result_equity_curve r)
       = S (length (backtest_engine.result_trades r))
    /\ backtest_engine.total_trades (backtest_engine.result_stats r)
       = length (backtest_engine.result_trades r)
    /\ backtest_engine.win_rate (backtest_engine.result_stats r) = 1
    /\ backtest_engine.profit_factor (backtest_engine.result_stats r) = 999
    /\ backtest_engine.max_drawdown (backtest_engine.result_stats r) = 0.
Proof.
  intros Hcap Hact Hactne Hprices Hpricesne.
  set (trades := backtest_engine.backtest_trades req prices).
  assert (Hlen : length trades
                 = ((length prices + 9) / 10
                    * length (strategy_engine.actions
                                (strategy_engine.backtest_strategy req)))%nat).
  { unfold trades, backtest_engine.backtest_trades.
    apply (enumerate_tenth_length
             (fun ip : nat * R =>
                map (fun a : strategy_engine.Action =>
                       {| strategy_engine.trade_time := strategy_engine.start_date req;
                          strategy_engine.trade_symbol := strategy_engine.instrument a;
                          strategy_engine.trade_side :=
                            strategy_engine.upper (strategy_engine.side a);
                          strategy_engine.trade_quantity := strategy_engine.quantity a;
                          strategy_engine.trade_price :=
                            backtest_engine._apply_fee_and_slippage ip.2 0.0005 1
                              (strategy_engine.upper (strategy_engine.side a));
                          strategy_engine.trade_pnl := 0 |})
                    (strategy_engine.actions (strategy_engine.backtest_strategy req)))).
    intros ip. apply length_map. }
  assert (Hpos : (0 < length trades)%nat).
  { rewrite Hlen.
    assert (1 <= (length prices + 9) / 10)%nat.
    { apply Nat.div_le_lower_bound; [lia |].
      destruct prices; [contradiction | cbn; lia]. }
    assert (1 <= length (strategy_engine.actions
                           (strategy_engine.backtest_strategy req)))%nat.
    { destruct (strategy_engine.actions (strategy_engine.backtest_strategy req));
        [contradiction | cbn; lia]. }
    nia. }
  pose proof (backtest_trades_buy_only req prices Hact Hprices) as Hbuy.
  fold trades in Hbuy.
  set (cap := strategy_engine.initial_capital req) in *.
  assert (Hdiff : Forall (fun d : R => 0 < d)
                         (backtest_engine.np_diff
                            (cap :: backtest_engine.equity_curve_loop cap trades))).
  { rewrite equity_curve_loop_diff.
    clear -Hbuy. induction Hbuy as [| t ts (Hs & Hq & Hp) _ IH]; [constructor |].
    cbn [map]. constructor; [| exact IH].
    rewrite Hs.
    destruct (decide (strategy_engine.upper "BUY" = "BUY")) as [_ | Hn];
      [| exfalso; apply Hn; reflexivity].
    apply IZR_lt in Hq.
    apply Rmult_lt_0_compat; [| lra].
    apply Rmult_lt_0_compat; [| exact Hp]. lra. }
  destruct (compute_stats_rising cap (backtest_engine.equity_curve_loop cap trades))
    as (stats & Hstats & Htot & Hwin & Hpf & Hdd); [| exact Hcap | exact Hdiff |].
  { intros Hnil. apply (f_equal length) in Hnil.
    rewrite equity_curve_loop_length in Hnil. cbn in Hnil. lia. }
  unfold backtest_engine.run_backtest. fold trades. fold cap.
  unfold backtest_engine.equity_curve_from_trades.
  rewrite Hstats. cbn [mbind option_bind].
  eexists. split; [reflexivity |]. cbn.
  rewrite equity_curve_loop_length in *.
  repeat split; assumption.
Qed.

(** X17.  A buy-only strategy cannot lose a backtest.  With a positive
    initial capital, positive prices and at least one price and one action,
    all actions buying a positive quantity, [run_backtest] returns a result
    with [ceil(n / 10) * |actions|] trades, an equity curve of one more
    point, and statistics that count these trades with a win rate of 1, the
    profit factor 999 and a maximum drawdown of 0: every such trade is
    booked as a gain. *)
Theorem run_backtest_buy_only
    (req : strategy_engine.StrategyBacktestRequest) (prices : list R) :
  0 < strategy_engine.initial_capital req ->
  Forall (fun a : strategy_engine.Action =>
            strategy_engine.upper (strategy_engine.side a) = "BUY"
            /\ (0 < strategy_engine.quantity a)%Z)
         (strategy_engine.actions (strategy_engine.backtest_strategy req)) ->
  strategy_engine.actions (strategy_engine.backtest_strategy req) <> [] ->
  Forall (fun p : R => 0 < p) prices ->
  prices <> [] ->
  exists r : backtest_engine.BacktestResult,
    backtest_engine.run_backtest req prices = Some r
    /\ length (backtest_engine.result_trades r)
       = ((length prices + 9) / 10
          * length (strategy_engine.actions (strategy_engine.backtest_strategy req)))%nat
    /\ length (backtest_engine.result_equity_curve r)
       = S (length (backtest_engine.result_trades r))
    /\ backtest_engine.total_trades (backtest_engine.result_stats r)
       = length (backtest_engine.result_trades r)
    /\ backtest_engine.win_rate (backtest_engine.result_stats r) = 1
    /\ backtest_engine.profit_factor (backtest_engine.result_stats r) = 999
    /\ backtest_engine.max_drawdown (backtest_engine.result_stats r) = 0.
Proof. apply run_backtest_buy_only_stats. Qed.

Lemma run_backtest_buy_only_witness :
  (0 < strategy_engine.initial_capital buy_one_request
   /\ Forall (fun p : R => 0 < p) [100; 101]
   /\ [100; 101] <> [])
  /\ exists r : backtest_engine.BacktestResult,
       backtest_engine.run_backtest buy_one_request [100; 101] = Some r
       /\ backtest_engine.win_rate (backtest_engine.result_stats r) = 1
       /\ backtest_engine.profit_factor (backtest_engine.result_stats r) = 999
       /\ backtest_engine.max_drawdown (backtest_engine.result_stats r) = 0.
Proof.
  assert (H1 : 0 < strategy_engine.initial_capital buy_one_request) by (cbn; lra).
  assert (H2 : Forall (fun a : strategy_engine.Action =>
                         strategy_engine.upper (strategy_engine.side a) = "BUY"
                         /\ (0 < strategy_engine.quantity a)%Z)
                      (strategy_engine.actions
                         (strategy_engine.backtest_strategy buy_one_request))).
  { repeat constructor. }
  assert (H3 : strategy_engine.actions
                 (strategy_engine.backtest_strategy buy_one_request) <> [])
    by discriminate.
  assert (H4 : Forall (fun p : R => 0 < p) [100; 101]) by (repeat constructor; lra).
  assert (H5 : [100; 101] <> ([] : list R)) by discriminate.
  split; [repeat split; assumption |].
  destruct (run_backtest_buy_only buy_one_request [100; 101] H1 H2 H3 H4 H5)
    as (r & Hr & _ & _ & _ & Hw & Hp & Hd).
  exists r. repeat split; assumption.
Defined.
(** ** The backtest routes and their store *)

Section backtest_store.
Import backtest_engine routes.

(** The prices that the route [/strategy/backtest] replays. *)
Lemma route_prices_positive :
  Forall (fun p : R => 0 < p) ((fun i : nat => 100 + INR i * 0.5) <$> seq 0 200)
  /\ (fun i : nat => 100 + INR i * 0.5) <$> seq 0 200 <> [].
Proof.
  split.
  - apply Forall_fmap, Forall_forall. intros i _. cbn.
    pose proof (pos_INR i). lra.
  - discriminate.
Qed.

Lemma post_strategy_backtest_buy_only (store : gmap string BacktestResult)
    (req : strategy_engine.StrategyBacktestRequest) :
  0 < strategy_engine.initial_capital req ->
  Forall (fun a : strategy_engine.Action =>
            strategy_engine.upper (strategy_engine.side a) = "BUY"
            /\ (0 < strategy_engine.quantity a)%Z)
         (strategy_engine.actions (strategy_engine.backtest_strategy req)) ->
  strategy_engine.actions (strategy_engine.backtest_strategy req) <> [] ->
  exists r : BacktestResult,
    post_strategy_backtest store req = Some (r, <[result_id r := r]> store)
    /\ length (result_trades r)
       = (20 * length (strategy_engine.actions (strategy_engine.backtest_strategy req)))%nat
    /\ win_rate (result_stats r) = 1
    /\ profit_factor (result_stats r) = 999
    /\ max_drawdown (result_stats r) = 0.
Proof.
  intros Hcap Hact Hne.
  destruct route_prices_positive as [Hpos Hnil].
  destruct (run_backtest_buy_only_stats req _ Hcap Hact Hne Hpos Hnil)
    as (r & Hr & Hlen & _ & _ & Hw & Hp & Hd).
  exists r. unfold post_strategy_backtest. rewrite Hr. cbn [mbind option_bind].
  split; [reflexivity |]. split; [| repeat split; assumption].
  rewrite Hlen, length_fmap, length_seq. reflexivity.
Qed.

Lemma run_backtest_id (req : strategy_engine.StrategyBacktestRequest)
    (prices : list R) (r : BacktestResult) :
  run_backtest req prices = Some r ->
  result_id r
  = String.append "bt_"
      (replace_char " " "_"
         (strategy_engine.strategy_name (strategy_engine.backtest_strategy req)))
  /\ result_strategy_name r
     = strategy_engine.strategy_name (strategy_engine.backtest_strategy req).
Proof.
  unfold run_backtest. intros H.
  destruct (compute_stats _) as [stats |]; [| discriminate].
  cbn [mbind option_bind] in H. injection H as <-. split; reflexivity.
Qed.

Lemma post_strategy_backtest_id (store store' : gmap string BacktestResult)
    (req : strategy_engine.StrategyBacktestRequest) (r : BacktestResult) :
  post_strategy_backtest store req = Some (r, store') ->
  store' = <[result_id r := r]> store
  /\ result_id r
     = String.append "bt_"
         (replace_char " " "_"
            (strategy_engine.strategy_name (strategy_engine.backtest_strategy req)))
  /\ result_strategy_name r
     = strategy_engine.strategy_name (strategy_engine.backtest_strategy req).
Proof.
  unfold post_strategy_backtest.
  generalize ((fun i : nat => 100 + INR i * 0.5) <$> seq 0 200). intros prices H.
  destruct (run_backtest req prices) as [r0 |] eqn:Hrun; [| discriminate].
  cbn [mbind option_bind] in H. injection H as <- <-.
  split; [reflexivity |]. apply (run_backtest_id req prices), Hrun.
Qed.

End backtest_store.

(** X18.  A stored backtest is served back.  When the route
    [/strategy/backtest] returns a result, it has stored it under the
    result's id, ["bt_"] followed by the strategy name with every space
    replaced by an underscore: [/backtest/results/{id}] then returns that
    very result without reading the database, and answers for every other id
    as it did before. *)
Theorem backtest_store_round_trip
    (store store' : gmap string backtest_engine.BacktestResult)
    (db : string -> option backtest_engine.BacktestResult)
    (req : strategy_engine.StrategyBacktestRequest) (r : backtest_engine.BacktestResult) :
  routes.post_strategy_backtest store req = Some (r, store') ->
  backtest_engine.result_id r
  = String.append "bt_"
      (replace_char " " "_"
         (strategy_engine.strategy_name (strategy_engine.backtest_strategy req)))
  /\ routes.get_backtest_result store' db (backtest_engine.result_id r) = r
  /\ (forall id : string,
        id <> backtest_engine.result_id r ->
        routes.get_backtest_result store' db id = routes.get_backtest_result store db id).
Proof.
  intros Hpost.
  destruct (post_strategy_backtest_id store store' req r Hpost) as (-> & Hid & _).
  split; [exact Hid |]. unfold routes.get_backtest_result. split.
  - rewrite lookup_insert_eq. reflexivity.
  - intros id Hne. rewrite lookup_insert_ne by congruence. reflexivity.
Qed.

Lemma backtest_store_round_trip_witness :
  exists (r : backtest_engine.BacktestResult)
         (store' : gmap string backtest_engine.BacktestResult),
    routes.post_strategy_backtest ∅ buy_one_request = Some (r, store')
    /\ backtest_engine.result_id r = "bt_low_pcr"
    /\ routes.get_backtest_result store' (fun _ => None) "bt_low_pcr" = r.
Proof.
  destruct (post_strategy_backtest_buy_only ∅ buy_one_request) as (r & Hr & _).
  { cbn. lra. }
  { repeat constructor. }
  { discriminate. }
  destruct (backtest_store_round_trip ∅ _ (fun _ => None) buy_one_request r Hr)
    as (Hid & Hget & _).
  assert (Hid' : backtest_engine.result_id r = "bt_low_pcr") by exact Hid.
  exists r, (<[backtest_engine.result_id r := r]> ∅).
  split; [exact Hr |]. split; [exact Hid' |].
  rewrite <- Hid'. exact Hget.
Defined.

(** X19.  Backtest ids collide.  Two strategies whose names differ only by
    spaces against underscores get the same id, so the result of the second
    backtest replaces the result of the first in the store: asking for the
    first result's id returns the second result. *)
Theorem backtest_ids_collide
    (store store1 store2 : gmap string backtest_engine.BacktestResult)
    (db : string -> option backtest_engine.BacktestResult)
    (req1 req2 : strategy_engine.StrategyBacktestRequest)
    (r1 r2 : backtest_engine.BacktestResult) :
  replace_char " " "_"
    (strategy_engine.strategy_name (strategy_engine.backtest_strategy req1))
  = replace_char " " "_"
      (strategy_engine.strategy_name (strategy_engine.backtest_strategy req2)) ->
  routes.post_strategy_backtest store req1 = Some (r1, store1) ->
  routes.post_strategy_backtest store1 req2 = Some (r2, store2) ->
  backtest_engine.result_id r1 = backtest_engine.result_id r2
  /\ routes.get_backtest_result store2 db (backtest_engine.result_id r1) = r2.
Proof.
  intros Hname H1 H2.
  destruct (post_strategy_backtest_id store store1 req1 r1 H1) as (-> & Hid1 & _).
  destruct (post_strategy_backtest_id _ store2 req2 r2 H2) as (-> & Hid2 & _).
  assert (Hid : backtest_engine.result_id r1 = backtest_engine.result_id r2)
    by (rewrite Hid1, Hid2, Hname; reflexivity).
  split; [exact Hid |].
  unfold routes.get_backtest_result. rewrite Hid, lookup_insert_eq. reflexivity.
Qed.

Lemma backtest_ids_collide_witness :
  exists (r1 r2 : backtest_engine.BacktestResult)
         (store1 store2 : gmap string backtest_engine.BacktestResult),
    routes.post_strategy_backtest ∅ buy_one_request = Some (r1, store1)
    /\ routes.post_strategy_backtest store1 buy_one_request_underscored = Some (r2, store2)
    /\ backtest_engine.result_strategy_name r1 = "low pcr"
    /\ backtest_engine.result_strategy_name r2 = "low_pcr"
    /\ routes.get_backtest_result store2 (fun _ => None) (backtest_engine.result_id r1) = r2.
Proof.
  destruct (post_strategy_backtest_buy_only ∅ buy_one_request) as (r1 & Hr1 & _).
  { cbn. lra. }
  { repeat constructor. }
  { discriminate. }
  destruct (post_strategy_backtest_buy_only
              (<[backtest_engine.result_id r1 := r1]> ∅) buy_one_request_underscored)
    as (r2 & Hr2 & _).
  { cbn. lra. }
  { repeat constructor. }
  { discriminate. }
  destruct (backtest_ids_collide ∅ _ _ (fun _ => None)
              buy_one_request buy_one_request_underscored r1 r2 eq_refl Hr1 Hr2)
    as (_ & Hget).
  exists r1, r2, (<[backtest_engine.result_id r1 := r1]> ∅),
         (<[backtest_engine.result_id r2 := r2]> (<[backtest_engine.result_id r1 := r1]> ∅)).
  split; [exact Hr1 |]. split; [exact Hr2 |].
  split; [exact (proj2 (proj2 (post_strategy_backtest_id _ _ _ _ Hr1))) |].
  split; [exact (proj2 (proj2 (post_strategy_backtest_id _ _ _ _ Hr2))) |].
  exact Hget.
Defined.
(** ** The live strategy engine *)

(** X20.  The comparison operators of a condition.  On the same indicator
    and threshold, [>=] is the negation of [<], [<=] the negation of [>] and
    [!=] the negation of [==]; exactly one of [<], [==] and [>] holds; and
    every operator other than these six, such as [=] or [=>], makes the
    condition false. *)
Theorem evaluate_condition_operators
    (indicator : string) (threshold : R) (context : gmap string R) :
  let ev := fun op : string =>
    strategy_engine._evaluate_condition
      {| strategy_engine.indicator := indicator; strategy_engine.operator := op;
         strategy_engine.threshold := threshold |} context in
  ev ">=" = negb (ev "<")
  /\ ev "<=" = negb (ev ">")
  /\ ev "!=" = negb (ev "==")
  /\ (ev "<" && negb (ev "==") && negb (ev ">")
      || negb (ev "<") && ev "==" && negb (ev ">")
      || negb (ev "<") && negb (ev "==") && ev ">") = true
  /\ ev "=" = false /\ ev "=>" = false
  /\ (forall op : string,
        op <> ">" -> op <> "<" -> op <> ">=" -> op <> "<=" -> op <> "==" -> op <> "!=" ->
        ev op = false).
Proof.
  cbv zeta. unfold strategy_engine._evaluate_condition. cbn.
  set (v := default 0 (context !! indicator)).
  assert (Hcases : v < threshold \/ v = threshold \/ v > threshold) by lra.
  split; [| split; [| split; [| split; [| split; [| split]]]]]; decide_strings;
    try reflexivity.
  - destruct (bool_decide (v < threshold)) eqn:H1;
      [apply bool_decide_eq_true in H1; rewrite bool_decide_eq_false_2 by lra
      | apply bool_decide_eq_false in H1; rewrite bool_decide_eq_true_2 by lra];
      reflexivity.
  - destruct (bool_decide (v > threshold)) eqn:H1;
      [apply bool_decide_eq_true in H1; rewrite bool_decide_eq_false_2 by lra
      | apply bool_decide_eq_false in H1; rewrite bool_decide_eq_true_2 by lra];
      reflexivity.
  - destruct (bool_decide (v = threshold)) eqn:H1;
      [apply bool_decide_eq_true in H1; rewrite bool_decide_eq_false_2 by tauto
      | apply bool_decide_eq_false in H1; rewrite bool_decide_eq_true_2 by exact H1];
      reflexivity.
  - destruct Hcases as [H | [H | H]].
    + rewrite (bool_decide_eq_true_2 (v < threshold)) by exact H.
      rewrite (bool_decide_eq_false_2 (v = threshold)) by lra.
      rewrite (bool_decide_eq_false_2 (v > threshold)) by lra. reflexivity.
    + rewrite (bool_decide_eq_false_2 (v < threshold)) by lra.
      rewrite (bool_decide_eq_true_2 (v = threshold)) by exact H.
      rewrite (bool_decide_eq_false_2 (v > threshold)) by lra. reflexivity.
    + rewrite (bool_decide_eq_false_2 (v < threshold)) by lra.
      rewrite (bool_decide_eq_false_2 (v = threshold)) by lra.
      rewrite (bool_decide_eq_true_2 (v > threshold)) by exact H. reflexivity.
  - intros op H1 H2 H3 H4 H5 H6.
    rewrite !decide_False by assumption. reflexivity.
Qed.

Section strategy_effects.
Import strategy_engine.

Variable clock : nat -> datetime.
Variable context : gmap string R.

(** The number of session filters: each reads the clock once. *)
Lemma filter_rejects_clock (f : Filter) (k : nat) (b : bool) (k' : nat) :
  filter_rejects clock f context k = Ok (b, k') ->
  k' = (if decide (name f = "session") then S k else k)
  \/ (b = true /\ k' = k).
Proof.
  unfold filter_rejects. unfold mbind at 1, io_bind at 1.
  destruct (decide (name f = "min_volume")) as [Hmv | Hmv].
  - unfold lift.
    destruct (py_lt _ _) as [low | e]; [| discriminate].
    destruct low.
    + unfold mret, io_ret. intros H. injection H as <- <-. right. split; reflexivity.
    + destruct (decide (name f = "session")) as [Hs | Hs].
      * unfold mbind, io_bind, utcnow, mret, io_ret. intros H. injection H as <- <-.
        left. reflexivity.
      * unfold mret, io_ret. intros H. injection H as <- <-. left. reflexivity.
  - unfold mret at 1, io_ret at 1.
    destruct (decide (name f = "session")) as [Hs | Hs].
    + unfold mbind, io_bind, utcnow, mret, io_ret. intros H. injection H as <- <-.
      left. reflexivity.
    + unfold mret, io_ret. intros H. injection H as <- <-. left. reflexivity.
Qed.

Lemma _apply_filters_clock (fs : list Filter) (k : nat) (b : bool) (k' : nat) :
  _apply_filters clock fs context k = Ok (b, k') ->
  (k <= k' <= k + length (filter (fun f : Filter => name f = "session") fs))%nat
  /\ (b = true ->
      k' = (k + length (filter (fun f : Filter => name f = "session") fs))%nat).
Proof.
  revert k. induction fs as [| f fs IH]; intros k.
  - cbn. intros H. injection H as <- <-. split; [lia |]. intros _. lia.
  - cbn [_apply_filters]. unfold mbind at 1, io_bind at 1.
    destruct (filter_rejects clock f context k) as [[stop k1] | e] eqn:Hf; [| discriminate].
    apply filter_rejects_clock in Hf.
    rewrite filter_cons.
    destruct stop.
    + unfold mret, io_ret. intros H. injection H as <- <-.
      split; [| discriminate].
      destruct Hf as [-> | [_ ->]]; destruct (decide (name f = "session")); cbn; lia.
    + intros H. apply IH in H. destruct H as [Hb Ht].
      destruct Hf as [-> | [Hc _]]; [| discriminate].
      destruct (decide (name f = "session")); cbn [length] in *.
      * split; [lia |]. intros Htrue. rewrite (Ht Htrue). lia.
      * split; [lia |]. intros Htrue. rewrite (Ht Htrue). lia.
Qed.

Lemma _build_trades_from_actions_clock (acts : list Action) (price : R) (k : nat) :
  exists ts : list Trade,
    _build_trades_from_actions clock acts price k = Ok (ts, (k + length acts)%nat)
    /\ map trade_time ts = map clock (seq k (length acts)).
Proof.
  revert k. induction acts as [| a acts IH]; intros k.
  - exists []. cbn. rewrite Nat.add_0_r. split; reflexivity.
  - destruct (IH (S k)) as (ts & Hts & Htimes).
    cbn [_build_trades_from_actions].
    unfold mbind at 1, io_bind at 1, utcnow.
    unfold mbind at 1, io_bind at 1. rewrite Hts.
    eexists. unfold mret, io_ret. cbn [length].
    replace (k + S (length acts))%nat with (S k + length acts)%nat by lia.
    split; [reflexivity |].
    cbn [map seq trade_time]. rewrite Htimes. reflexivity.
Qed.

End strategy_effects.

(** X21.  The clock readings of [run_live_strategy].  Whenever it returns,
    it has read the clock at most once per session filter before deciding.
    When it executes, it has read the clock exactly once per session filter
    and then once per action: the trades carry, in order, these successive
    later readings as their times.  When it does not execute it reads the
    clock for no trade. *)
Theorem run_live_strategy_clock
    (clock : nat -> strategy_engine.datetime)
    (req : strategy_engine.StrategyRunRequest) (context : gmap string R)
    (k k' : nat) (r : strategy_engine.RunResult) :
  strategy_engine.run_live_strategy clock req context k = Ok (r, k') ->
  let sessions :=
    length (filter (fun f : strategy_engine.Filter => strategy_engine.name f = "session")
                   (strategy_engine.filters (strategy_engine.strategy req))) in
  let actions := strategy_engine.actions (strategy_engine.strategy req) in
  (strategy_engine.executed r = true ->
   k' = (k + sessions + length actions)%nat
   /\ map strategy_engine.trade_time (strategy_engine.trades r)
      = map clock (seq (k + sessions) (length actions)))
  /\ (strategy_engine.executed r = false ->
      (k <= k' <= k + sessions)%nat /\ strategy_engine.trades r = []).
Proof.
  unfold strategy_engine.run_live_strategy. cbv zeta.
  unfold mbind at 1, strategy_engine.io_bind at 1.
  destruct (strategy_engine._apply_filters clock _ context k) as [[fok k1] | e] eqn:Hf;
    [| discriminate].
  apply _apply_filters_clock in Hf. destruct Hf as [Hb Ht].
  destruct (forallb _ _ && fok) eqn:Hshould.
  - apply andb_true_iff in Hshould as [_ Hfok]. specialize (Ht Hfok). subst k1.
    destruct (_build_trades_from_actions_clock clock
                (strategy_engine.actions (strategy_engine.strategy req))
                (default 0 (context !! "price"))
                (k + length (filter (fun f : strategy_engine.Filter =>
                                       strategy_engine.name f = "session")
                                    (strategy_engine.filters (strategy_engine.strategy req)))))
      as (ts & Hts & Htimes).
    unfold mbind, strategy_engine.io_bind. rewrite Hts.
    unfold mret, strategy_engine.io_ret. intros H. injection H as <- <-. cbn.
    split; [intros _; split; [reflexivity | exact Htimes] | discriminate].
  - unfold mbind, strategy_engine.io_bind, mret, strategy_engine.io_ret.
    intros H. injection H as <- <-. cbn.
    split; [discriminate |]. intros _. split; [exact Hb | reflexivity].
Qed.

Lemma run_live_strategy_clock_witness :
  exists (r : strategy_engine.RunResult) (k' : nat),
    strategy_engine.run_live_strategy morning_clock low_iv_rank_request route_context 0%nat
    = Ok (r, k')
    /\ strategy_engine.executed r = true
    /\ k' = 2%nat
    /\ map strategy_engine.trade_time (strategy_engine.trades r) = [morning_clock 1].
Proof.
  pose proof run_live_strategy_executes_example as Hrun.
  destruct (run_live_strategy_clock morning_clock low_iv_rank_request route_context
              0%nat _ _ Hrun) as [Hexec _].
  destruct (Hexec eq_refl) as [Hk Htimes].
  eexists _, _. split; [exact Hrun |]. split; [reflexivity |].
  split; [exact Hk | exact Htimes].
Defined.

(** X22.  An ill-typed minimum-volume threshold.  When the first filter of a
    strategy is a minimum-volume filter whose value is a string or [None],
    [run_live_strategy] raises [TypeError], whatever the conditions, the
    context and the clock. *)
Theorem run_live_strategy_type_error
    (clock : nat -> strategy_engine.datetime)
    (req : strategy_engine.StrategyRunRequest) (context : gmap string R) (k : nat)
    (f : strategy_engine.Filter) (rest : list strategy_engine.Filter) :
  strategy_engine.filters (strategy_engine.strategy req) = f :: rest ->
  strategy_engine.name f = "min_volume" ->
  (strategy_engine.params f !! "value" = Some strategy_engine.PNone
   \/ exists s : string, strategy_engine.params f !! "value" = Some (strategy_engine.PStr s)) ->
  strategy_engine.run_live_strategy clock req context k = Raise TypeError.
Proof. apply run_live_strategy_ill_typed. Qed.

Lemma run_live_strategy_type_error_witness :
  strategy_engine.run_live_strategy morning_clock string_threshold_request route_context
    0%nat = Raise TypeError.
Proof.
  apply (run_live_strategy_type_error morning_clock string_threshold_request
           route_context 0%nat
           {| strategy_engine.name := "min_volume";
              strategy_engine.params := {[ "value" := strategy_engine.PStr "50000" ]} |}
           []).
  - reflexivity.
  - reflexivity.
  - right. exists "50000". reflexivity.
Defined.
(** ** Open-interest analytics *)

Section numpy_statistics.
Import backtest_engine.

Lemma np_mean_eq (xs : list R) :
  xs <> [] -> np_mean xs = Some (np_sum xs / INR (length xs)).
Proof.
  intros Hxs. unfold np_mean. apply np_divide_Some, not_0_INR.
  destruct xs; [contradiction | discriminate].
Qed.

Lemma np_std_eq (xs : list R) :
  xs <> [] ->
  np_std xs
  = Some (sqrt (np_sum ((fun x : R => (x - np_sum xs / INR (length xs)) ^ 2) <$> xs)
                / INR (length xs))).
Proof.
  intros Hxs. unfold np_std. rewrite np_mean_eq by exact Hxs. cbn [mbind option_bind].
  rewrite np_mean_eq by (destruct xs; [contradiction | discriminate]).
  cbn [mbind option_bind]. rewrite length_fmap. reflexivity.
Qed.

Lemma np_sum_app (a b : list R) : np_sum (a ++ b) = np_sum a + np_sum b.
Proof. apply foldr_Rplus_app. Qed.

(** The deviations from the mean sum to zero. *)
Lemma deviations_sum (xs : list R) :
  xs <> [] ->
  np_sum ((fun x : R => x - np_sum xs / INR (length xs)) <$> xs) = 0.
Proof.
  intros Hxs.
  assert (Hn : 0 < INR (length xs)).
  { apply lt_0_INR. destruct xs; [contradiction | cbn; lia]. }
  remember (np_sum xs / INR (length xs)) as mu eqn:Hmu.
  assert (Hgen : forall l : list R,
            np_sum ((fun x : R => x - mu) <$> l) = np_sum l - INR (length l) * mu).
  { induction l as [| y l IH]; [cbn; lra |].
    cbn [fmap list_fmap length]. rewrite !np_sum_cons, S_INR.
    change (list_fmap R R (fun x : R => x - mu) l) with ((fun x : R => x - mu) <$> l).
    rewrite IH. lra. }
  rewrite Hgen, Hmu. field. lra.
Qed.

(** Cauchy-Schwarz against the constant sequence: the square of a sum of
    [m] numbers is at most [m] times the sum of their squares. *)
Lemma sum_sqr_le (ds : list R) :
  np_sum ds ^ 2 <= INR (length ds) * np_sum ((fun d : R => d ^ 2) <$> ds).
Proof.
  induction ds as [| a ds IH]; [cbn; lra |].
  cbn [fmap list_fmap length]. rewrite !np_sum_cons, S_INR.
  change (list_fmap R R (fun d : R => d ^ 2) ds) with ((fun d : R => d ^ 2) <$> ds).
  set (S := np_sum ds) in *. set (Q := np_sum ((fun d : R => d ^ 2) <$> ds)) in *.
  set (m := INR (length ds)) in *.
  assert (Hm : 0 <= m) by apply pos_INR.
  assert (HQ : 0 <= Q).
  { unfold Q. clear. induction ds as [| d ds IH]; [cbn; lra |].
    cbn [fmap list_fmap]. rewrite np_sum_cons.
    change (list_fmap R R (fun d : R => d ^ 2) ds) with ((fun d : R => d ^ 2) <$> ds).
    pose proof (pow2_ge_0 d). lra. }
  destruct (Req_dec m 0) as [Hz | Hnz].
  - rewrite Hz in *. assert (HS : S = 0) by nra. rewrite HS. nra.
  - assert (Hpos : 0 < m) by lra.
    pose proof (Rle_0_sqr (m * a - S)) as Hsq. unfold Rsqr in Hsq.
    assert (H2 : 2 * a * S * m <= (m * a ^ 2 + Q) * m) by nra.
    assert (H3 : 2 * a * S <= m * a ^ 2 + Q).
    { apply Rmult_le_reg_r with m; [exact Hpos | exact H2]. }
    nra.
Qed.

(** The last of [n] values deviates from their mean by at most
    [sqrt (n - 1)] population standard deviations. *)
Lemma last_deviation_bound (pre : list R) (x : R) :
  let xs := pre ++ [x] in
  let mu := np_sum xs / INR (length xs) in
  (x - mu) ^ 2
  <= INR (length pre)
     * (np_sum ((fun y : R => (y - mu) ^ 2) <$> xs) / INR (length xs)).
Proof.
  cbv zeta.
  set (xs := pre ++ [x]). set (mu := np_sum xs / INR (length xs)).
  assert (Hne : xs <> []) by (unfold xs; destruct pre; discriminate).
  pose proof (deviations_sum xs Hne) as Hdev. fold mu in Hdev.
  unfold xs in Hdev |- *. rewrite fmap_app, np_sum_app in Hdev. cbn in Hdev.
  rewrite fmap_app, np_sum_app, length_app. cbn [length fmap list_fmap].
  rewrite np_sum_cons. change (np_sum []) with 0.
  fold xs. fold mu.
  set (ds := (fun y : R => y - mu) <$> pre) in *.
  assert (Hsq : (fun y : R => (y - mu) ^ 2) <$> pre = (fun d : R => d ^ 2) <$> ds).
  { unfold ds. rewrite <- list_fmap_compose. reflexivity. }
  rewrite Hsq.
  pose proof (sum_sqr_le ds) as Hcs. unfold ds in Hcs at 2. rewrite length_fmap in Hcs.
  fold ds in Hcs.
  set (Q := np_sum ((fun d : R => d ^ 2) <$> ds)) in *.
  set (m := INR (length pre)) in *.
  assert (Hm : 0 <= m) by apply pos_INR.
  replace (INR (length pre + 1)) with (m + 1) by (rewrite plus_INR; reflexivity).
  set (d := x - mu) in *.
  assert (Hd : d ^ 2 <= m * Q) by (replace d with (- np_sum ds) by lra; nra).
  assert (HQ : 0 <= Q).
  { destruct (Req_dec m 0) as [Hz | Hnz]; [| nra].
    unfold Q, ds. unfold m in Hz.
    destruct pre; [cbn; lra |]. cbn [length] in Hz. rewrite S_INR in Hz.
    pose proof (pos_INR (length pre)). lra. }
  apply Rmult_le_reg_r with (m + 1); [lra |].
  replace (m * ((Q + (d ^ 2 + 0)) / (m + 1)) * (m + 1)) with (m * (Q + d ^ 2))
    by (field; lra).
  nra.
Qed.

Lemma last_app_singleton (xs : list R) :
  xs <> [] -> exists pre x, xs = pre ++ [x] /\ last xs = Some x.
Proof.
  intros Hxs. destruct (exists_last Hxs) as (pre & x & ->).
  exists pre, x. split; [reflexivity | apply last_snoc].
Qed.

(** The z-score of the last value against the population standard
    deviation (plus a non-negative offset) is at most [sqrt (n - 1)]. *)
Lemma last_z_score_bound (xs : list R) (x eps : R) :
  last xs = Some x -> 0 <= eps ->
  let mu := np_sum xs / INR (length xs) in
  let sd := sqrt (np_sum ((fun y : R => (y - mu) ^ 2) <$> xs) / INR (length xs)) in
  0 < sd + eps ->
  Rabs ((x - mu) / (sd + eps)) <= sqrt (INR (length xs - 1)).
Proof.
  intros Hlast Heps. cbv zeta.
  assert (Hne : xs <> []) by (intros ->; discriminate).
  destruct (last_app_singleton xs Hne) as (pre & x' & Hxs & Hlast').
  rewrite Hlast in Hlast'. injection Hlast' as <-.
  pose proof (last_deviation_bound pre x) as Hb. cbv zeta in Hb. rewrite <- Hxs in Hb.
  assert (Hlen : (length xs - 1 = length pre)%nat).
  { rewrite Hxs, length_app. cbn. lia. }
  rewrite Hlen.
  set (mu := np_sum xs / INR (length xs)) in *.
  set (var := np_sum ((fun y : R => (y - mu) ^ 2) <$> xs) / INR (length xs)) in *.
  set (m := INR (length pre)) in *.
  assert (Hm : 0 <= m) by apply pos_INR.
  assert (Hvar : 0 <= var).
  { unfold var. apply Rmult_le_pos.
    - apply squares_sum_nonneg.
    - left. apply Rinv_0_lt_compat, lt_0_INR. destruct xs; [contradiction | cbn; lia]. }
  intros Hden.
  pose proof (sqrt_pos var) as Hsd.
  unfold Rdiv. rewrite Rabs_mult, (Rabs_right (/ _))
    by (left; apply Rinv_0_lt_compat; exact Hden).
  apply Rmult_le_reg_r with (sqrt var + eps); [exact Hden |].
  rewrite Rmult_assoc, Rinv_l, Rmult_1_r by lra.
  assert (Habs : Rabs (x - mu) <= sqrt m * sqrt var).
  { rewrite <- sqrt_mult by assumption.
    rewrite <- sqrt_Rsqr_abs. apply sqrt_le_1_alt. unfold Rsqr.
    replace ((x - mu) * (x - mu)) with ((x - mu) ^ 2) by ring. exact Hb. }
  pose proof (sqrt_pos m) as Hsm.
  nra.
Qed.

End numpy_statistics.

Section oi_properties.
Import backtest_engine oi.

Lemma np_diff_length (a : list R) : length (np_diff a) = (length a - 1)%nat.
Proof.
  induction a as [| x a IH]; [reflexivity |].
  destruct a as [| y a]; [reflexivity |].
  change (np_diff (x :: y :: a)) with ((y - x) :: np_diff (y :: a)).
  cbn [length] in *. rewrite IH. lia.
Qed.

Lemma oi_spike_detector_bound (oi_series : list R) :
  exists v : R,
    oi_spike_detector oi_series = Some v
    /\ Rabs v <= sqrt (INR (length oi_series - 2)).
Proof.
  unfold oi_spike_detector.
  destruct (decide (length oi_series < 2)%nat) as [Hshort | Hlong].
  { exists 0. split; [reflexivity |]. rewrite Rabs_R0. apply sqrt_pos. }
  set (changes := np_diff oi_series).
  assert (Hlen : length changes = (length oi_series - 1)%nat) by apply np_diff_length.
  assert (Hne : changes <> []).
  { intros Hnil. rewrite Hnil in Hlen. cbn in Hlen. lia. }
  rewrite np_std_eq by exact Hne. cbn [mbind option_bind].
  destruct (decide (_ = 0)) as [Hz | Hnz].
  { exists 0. split; [reflexivity |]. rewrite Rabs_R0. apply sqrt_pos. }
  destruct (last_app_singleton changes Hne) as (pre & x & Hch & Hlast).
  rewrite Hlast. cbn [mbind option_bind].
  rewrite np_mean_eq by exact Hne. cbn [mbind option_bind].
  rewrite np_divide_Some by exact Hnz.
  eexists. split; [reflexivity |].
  pose proof (last_z_score_bound changes x 0 Hlast (Rle_refl 0)) as Hb.
  cbv zeta in Hb. rewrite Rplus_0_r in Hb.
  replace (length oi_series - 2)%nat with (length changes - 1)%nat by lia.
  apply Hb.
  pose proof (sqrt_pos (np_sum ((fun y : R => (y - np_sum changes / INR (length changes)) ^ 2)
                                  <$> changes) / INR (length changes))).
  lra.
Qed.

Lemma constant_std (c : R) (xs : list R) :
  xs <> [] -> Forall (fun x : R => c = x) xs -> np_std xs = Some 0.
Proof.
  intros Hne Hc. rewrite np_std_eq by exact Hne. f_equal.
  assert (Hn : INR (length xs) <> 0).
  { apply not_0_INR. destruct xs; [contradiction | discriminate]. }
  assert (Hmu : np_sum xs / INR (length xs) = c).
  { unfold np_sum. rewrite (constant_sum c xs Hc). field. exact Hn. }
  rewrite Hmu. unfold np_sum. rewrite (constant_squares_sum c xs Hc).
  unfold Rdiv. rewrite Rmult_0_l. apply sqrt_0.
Qed.

Lemma oi_anomaly_score_bound (oi_series : list R) :
  exists v : R,
    oi_anomaly_score oi_series = Some v
    /\ 0 <= v <= sqrt (INR (length oi_series - 1)).
Proof.
  unfold oi_anomaly_score.
  destruct (decide (oi_series = [])) as [-> | Hne].
  { exists 0. split; [reflexivity |]. split; [lra | apply sqrt_pos]. }
  destruct (last_app_singleton oi_series Hne) as (pre & x & _ & Hlast).
  rewrite Hlast. cbn [mbind option_bind].
  rewrite np_mean_eq by exact Hne. cbn [mbind option_bind].
  rewrite np_std_eq by exact Hne. cbn [mbind option_bind].
  set (mu := np_sum oi_series / INR (length oi_series)).
  set (sd := sqrt (np_sum ((fun y : R => (y - mu) ^ 2) <$> oi_series)
                   / INR (length oi_series))).
  assert (Hsd : 0 <= sd) by apply sqrt_pos.
  rewrite np_divide_Some by lra. cbn [mbind option_bind].
  eexists. split; [reflexivity |]. split; [apply Rabs_pos |].
  apply (last_z_score_bound oi_series x (1 / 100000000) Hlast); [lra |]. fold mu sd. lra.
Qed.

Lemma oi_spike_detector_constant (c : R) (oi_series : list R) :
  Forall (fun d : R => c = d) (np_diff oi_series) -> oi_spike_detector oi_series = Some 0.
Proof.
  intros Hc. unfold oi_spike_detector.
  destruct (decide (length oi_series < 2)%nat) as [_ | Hlong]; [reflexivity |].
  assert (Hne : np_diff oi_series <> []).
  { intros Hnil. pose proof (np_diff_length oi_series) as Hl.
    rewrite Hnil in Hl. cbn in Hl. lia. }
  rewrite (constant_std c _ Hne Hc). cbn [mbind option_bind].
  destruct (decide (0 = 0)) as [_ | Hn]; [reflexivity | contradiction].
Qed.

Lemma oi_anomaly_score_constant (c : R) (oi_series : list R) :
  Forall (fun x : R => c = x) oi_series -> oi_anomaly_score oi_series = Some 0.
Proof.
  intros Hc. unfold oi_anomaly_score.
  destruct (decide (oi_series = [])) as [_ | Hne]; [reflexivity |].
  destruct (last_app_singleton oi_series Hne) as (pre & x & Hxs & Hlast).
  rewrite Hlast. cbn [mbind option_bind].
  rewrite np_mean_eq by exact Hne. cbn [mbind option_bind].
  rewrite (constant_std c _ Hne Hc). cbn [mbind option_bind].
  assert (Hn : INR (length oi_series) <> 0).
  { apply not_0_INR. destruct oi_series; [contradiction | discriminate]. }
  assert (Hmu : np_sum oi_series / INR (length oi_series) = c).
  { unfold np_sum. rewrite (constant_sum c _ Hc). field. exact Hn. }
  assert (Hx : c = x).
  { rewrite Forall_forall in Hc. apply Hc. rewrite Hxs.
    apply elem_of_app. right. apply list_elem_of_singleton. reflexivity. }
  rewrite Hmu, <- Hx.
  rewrite np_divide_Some by lra. cbn [mbind option_bind].
  f_equal. unfold Rdiv. rewrite Rminus_diag, Rmult_0_l. apply Rabs_R0.
Qed.

Lemma ratio_guarded (x y : R) :
  exists v : R,
    (if decide (y <= 0) then mret 0 else truediv x y) = Ok v
    /\ (y <= 0 -> v = 0) /\ (0 < y -> v = x / y) /\ (0 <= x -> 0 <= v).
Proof.
  destruct (decide (y <= 0)) as [Hy | Hy].
  - exists 0. split; [reflexivity |]. repeat split; try lra.
  - rewrite truediv_Ok by lra. exists (x / y). split; [reflexivity |].
    split; [lra |]. split; [reflexivity |]. intros Hx.
    apply Rmult_le_pos; [exact Hx |]. left. apply Rinv_0_lt_compat. lra.
Qed.

End oi_properties.

(** ** Least-squares trends *)

Section least_squares.
Import backtest_engine.

Lemma np_sum_range (k m : nat) :
  np_sum (INR <$> seq k m) = INR m * INR k + INR m * (INR m - 1) / 2.
Proof.
  revert k. induction m as [| m IH]; intros k; [cbn; lra |].
  cbn [seq fmap list_fmap]. rewrite np_sum_cons.
  change (list_fmap nat R INR (seq (S k) m)) with (INR <$> seq (S k) m).
  rewrite IH, !S_INR. lra.
Qed.

Lemma np_arange_length (n : nat) : length (np_arange n) = n.
Proof. unfold np_arange. rewrite length_fmap, length_seq. reflexivity. Qed.

Lemma np_arange_mean (n : nat) :
  (0 < n)%nat -> np_sum (np_arange n) / INR (length (np_arange n)) = (INR n - 1) / 2.
Proof.
  intros Hn. rewrite np_arange_length. unfold np_arange. rewrite np_sum_range.
  change (INR 0) with 0. field. apply not_0_INR. lia.
Qed.

(** The sums of the centred positions from position [k] on. *)
Lemma np_arange_tail_sum (n k : nat) :
  (0 < n)%nat ->
  np_sum (drop k ((fun a : R => a - (INR n - 1) / 2) <$> np_arange n))
  = (if decide (k <= n)%nat then (INR n - INR k) * INR k / 2 else 0).
Proof.
  intros Hn. unfold np_arange. rewrite <- !fmap_drop, drop_seq.
  cbn [Nat.add].
  assert (Hgen : forall (mu : R) (l : list R),
            np_sum ((fun a : R => a - mu) <$> l) = np_sum l - INR (length l) * mu).
  { intros mu. induction l as [| y l IH]; [cbn; lra |].
    cbn [fmap list_fmap length]. rewrite !np_sum_cons, S_INR.
    change (list_fmap R R (fun x : R => x - mu) l) with ((fun x : R => x - mu) <$> l).
    rewrite IH. lra. }
  rewrite Hgen, np_sum_range, length_fmap, length_seq.
  destruct (decide (k <= n)%nat) as [Hk | Hk].
  - rewrite minus_INR by exact Hk. field.
  - replace (n - k)%nat with 0%nat by lia. cbn. lra.
Qed.

(** Summation by parts, for a sequence [ys] that never falls and weights
    [cs] whose sums from every later position on are not negative. *)
Lemma weighted_sum_rising (cs ys : list R) :
  length cs = length ys ->
  Forall (fun d : R => 0 <= d) (np_diff ys) ->
  (forall k : nat, (1 <= k)%nat -> 0 <= np_sum (drop k cs)) ->
  match ys with
  | [] => True
  | y :: _ => y * np_sum cs <= np_sum (zip_with Rmult cs ys)
  end.
Proof.
  revert ys. induction cs as [| c cs IH]; intros ys Hlen Hrise Htails.
  - destruct ys; [exact I | discriminate].
  - destruct ys as [| y ys]; [exact I |].
    cbn [zip_with]. rewrite !np_sum_cons.
    injection Hlen as Hlen.
    destruct ys as [| y' ys].
    + destruct cs; [cbn; lra | discriminate].
    + change (np_diff (y :: y' :: ys)) with ((y' - y) :: np_diff (y' :: ys)) in Hrise.
      inversion Hrise as [| ? ? Hy Hrest]; subst.
      specialize (IH (y' :: ys) Hlen Hrest).
      assert (Ht : forall k : nat, (1 <= k)%nat -> 0 <= np_sum (drop k cs)).
      { intros k Hk. apply (Htails (S k)). lia. }
      specialize (IH Ht). cbn beta iota in IH.
      pose proof (Htails 1%nat ltac:(lia)) as H1. cbn [drop] in H1.
      rewrite drop_0 in H1.
      assert (0 <= (y' - y) * np_sum cs) by (apply Rmult_le_pos; assumption).
      lra.
Qed.

(** The same, keeping the first rise. *)
Lemma weighted_sum_first_rise (c : R) (cs : list R) (y y' : R) (ys : list R) :
  length cs = S (length ys) ->
  Forall (fun d : R => 0 <= d) (np_diff (y :: y' :: ys)) ->
  (forall k : nat, (1 <= k)%nat -> 0 <= np_sum (drop k (c :: cs))) ->
  y * np_sum (c :: cs) + (y' - y) * np_sum cs
  <= np_sum (zip_with Rmult (c :: cs) (y :: y' :: ys)).
Proof.
  intros Hlen Hrise Htails.
  change (np_diff (y :: y' :: ys)) with ((y' - y) :: np_diff (y' :: ys)) in Hrise.
  inversion Hrise as [| ? ? Hy Hrest]; subst.
  pose proof (weighted_sum_rising cs (y' :: ys) Hlen Hrest) as H.
  cbn beta iota in H.
  assert (Ht : forall k : nat, (1 <= k)%nat -> 0 <= np_sum (drop k cs)).
  { intros k Hk. apply (Htails (S k)). lia. }
  specialize (H Ht).
  cbn [zip_with]. rewrite !np_sum_cons. lra.
Qed.

Lemma zip_with_centred (mx my : R) (x y : list R) :
  zip_with (fun a b : R => (a - mx) * (b - my)) x y
  = zip_with Rmult ((fun a : R => a - mx) <$> x) ((fun b : R => b - my) <$> y).
Proof.
  revert y. induction x as [| a x IH]; intros [| b y]; try reflexivity.
  cbn [zip_with fmap list_fmap]. f_equal. apply IH.
Qed.

Lemma np_diff_cons (x y : R) (l : list R) :
  np_diff (x :: y :: l) = (y - x) :: np_diff (y :: l).
Proof. reflexivity. Qed.

Lemma np_diff_shift (c : R) (ys : list R) :
  np_diff ((fun b : R => b - c) <$> ys) = np_diff ys.
Proof.
  induction ys as [| y ys IH]; [reflexivity |].
  destruct ys as [| y' ys]; [reflexivity |].
  rewrite fmap_cons in IH. rewrite !fmap_cons, !np_diff_cons, IH.
  f_equal. lra.
Qed.

Lemma centred_squares_positive (n : nat) :
  (2 <= n)%nat ->
  0 < np_sum ((fun a : R => (a - (INR n - 1) / 2) ^ 2) <$> np_arange n).
Proof.
  intros Hn. unfold np_arange.
  destruct n as [| n]; [lia |].
  cbn [seq fmap list_fmap]. rewrite np_sum_cons.
  change (list_fmap R R ?f (list_fmap nat R INR ?l)) with (f <$> (INR <$> l)).
  pose proof (squares_sum_nonneg ((INR (S n) - 1) / 2) (INR <$> seq 1 n)) as Hrest.
  change (foldr Rplus 0) with np_sum in Hrest.
  assert (Hn2 : 1 <= INR n) by (apply (le_INR 1); lia).
  rewrite S_INR in *. change (INR 0) with 0.
  assert (0 < (0 - (INR n + 1 - 1) / 2) ^ 2) by nra.
  lra.
Qed.

(** The slope fitted to a series at the positions [0 .. n-1]: the
    covariance with the positions over the variance of the positions. *)
Lemma polyfit_slope_arange (ys : list R) :
  (2 <= length ys)%nat ->
  let n := length ys in
  let my := np_sum ys / INR n in
  polyfit_slope (np_arange n) ys
  = Some (np_sum (zip_with Rmult ((fun a : R => a - (INR n - 1) / 2) <$> np_arange n)
                           ((fun b : R => b - my) <$> ys))
          / np_sum ((fun a : R => (a - (INR n - 1) / 2) ^ 2) <$> np_arange n)).
Proof.
  intros Hlen. cbv zeta. unfold polyfit_slope.
  assert (Hx : np_arange (length ys) <> []).
  { intros Hnil. apply (f_equal length) in Hnil.
    rewrite np_arange_length in Hnil. cbn in Hnil. lia. }
  rewrite (np_mean_eq (np_arange (length ys))) by exact Hx. cbn [mbind option_bind].
  rewrite np_arange_mean by lia.
  rewrite (np_mean_eq ys) by (destruct ys; [cbn in Hlen; lia | discriminate]).
  cbn [mbind option_bind].
  rewrite zip_with_centred.
  apply np_divide_Some, Rgt_not_eq, centred_squares_positive, Hlen.
Qed.

Lemma polyfit_slope_rising (ys : list R) :
  (2 <= length ys)%nat -> Forall (fun d : R => 0 < d) (np_diff ys) ->
  exists slope : R, polyfit_slope (np_arange (length ys)) ys = Some slope /\ 0 < slope.
Proof.
  intros Hlen Hrise.
  rewrite polyfit_slope_arange by exact Hlen. cbv zeta.
  eexists. split; [reflexivity |].
  apply Rdiv_lt_0_compat; [| apply centred_squares_positive, Hlen].
  set (n := length ys) in *.
  set (my := np_sum ys / INR n).
  set (mx := (INR n - 1) / 2).
  assert (Hdev : np_sum ((fun a : R => a - mx) <$> np_arange n) = 0).
  { pose proof (deviations_sum (np_arange n)) as H.
    rewrite np_arange_mean in H by lia. apply H.
    intros Hnil. apply (f_equal length) in Hnil.
    rewrite np_arange_length in Hnil. cbn in Hnil. lia. }
  assert (Htails : forall k : nat, (1 <= k)%nat ->
            0 <= np_sum (drop k ((fun a : R => a - mx) <$> np_arange n))).
  { intros k Hk. unfold mx. rewrite np_arange_tail_sum by lia.
    destruct (decide (k <= n)%nat) as [Hkn | _]; [| lra].
    apply le_INR in Hkn. pose proof (pos_INR k). nra. }
  destruct ys as [| y [| y' ys]]; [cbn in Hlen; lia | cbn in Hlen; lia |].
  destruct ((fun a : R => a - mx) <$> np_arange n) as [| c cs] eqn:Ecs.
  { apply (f_equal length) in Ecs.
    rewrite length_fmap, np_arange_length in Ecs. cbn in Ecs. lia. }
  assert (Hcs : length cs = S (length ys)).
  { apply (f_equal length) in Ecs.
    rewrite length_fmap, np_arange_length in Ecs. cbn in Ecs. unfold n in Ecs.
    cbn in Ecs. lia. }
  assert (Hc1 : np_sum cs = (INR n - 1) / 2).
  { pose proof (np_arange_tail_sum n 1 ltac:(lia)) as H1.
    fold mx in H1. rewrite Ecs in H1. cbn [drop] in H1. rewrite drop_0 in H1.
    rewrite H1.
    destruct (decide (1 <= n)%nat) as [_ | Hn]; [| lia].
    change (INR 1) with 1. lra. }
  cbn [fmap list_fmap].
  change (list_fmap R R (fun b : R => b - my) ys) with ((fun b : R => b - my) <$> ys).
  pose proof (weighted_sum_first_rise c cs (y - my) (y' - my)
                ((fun b : R => b - my) <$> ys)) as Hw.
  rewrite length_fmap in Hw. specialize (Hw Hcs).
  assert (Hrise' : Forall (fun d : R => 0 <= d)
                     (np_diff (y - my :: y' - my :: ((fun b : R => b - my) <$> ys)))).
  { change (y - my :: y' - my :: ((fun b : R => b - my) <$> ys))
      with ((fun b : R => b - my) <$> (y :: y' :: ys)).
    rewrite np_diff_shift.
    eapply Forall_impl; [exact Hrise |]. intros d Hd. cbn in Hd. lra. }
  specialize (Hw Hrise' Htails).
  rewrite Hdev in Hw.
  change (np_diff (y :: y' :: ys)) with ((y' - y) :: np_diff (y' :: ys)) in Hrise.
  inversion Hrise as [| ? ? Hy _]; subst.
  assert (Hn2 : 2 <= INR n) by (apply (le_INR 2); exact Hlen).
  rewrite Hc1 in Hw.
  assert (0 < (y' - my - (y - my)) * ((INR n - 1) / 2)) by nra.
  lra.
Qed.

(** The slope follows the series through [y |-> a * y + b]. *)
Lemma polyfit_slope_affine (a b : R) (ys : list R) :
  (2 <= length ys)%nat ->
  exists slope : R,
    polyfit_slope (np_arange (length ys)) ys = Some slope
    /\ polyfit_slope (np_arange (length ys)) ((fun y : R => a * y + b) <$> ys)
       = Some (a * slope).
Proof.
  intros Hlen.
  pose proof (polyfit_slope_arange ((fun y : R => a * y + b) <$> ys)) as Ha.
  rewrite length_fmap in Ha. specialize (Ha Hlen). cbv zeta in Ha.
  rewrite Ha, polyfit_slope_arange by exact Hlen. cbv zeta.
  eexists. split; [reflexivity |]. f_equal.
  set (n := length ys) in *.
  assert (Hn : INR n <> 0) by (apply not_0_INR; lia).
  unfold np_sum at 2. rewrite foldr_Rplus_affine. fold (np_sum ys). fold n.
  replace ((a * np_sum ys + INR n * b) / INR n) with (a * (np_sum ys / INR n) + b)
    by (field; exact Hn).
  set (my := np_sum ys / INR n).
  set (cs := (fun x : R => x - (INR n - 1) / 2) <$> np_arange n).
  assert (Hdot : forall (ws zs : list R),
            np_sum (zip_with Rmult ws
                      ((fun y : R => y - (a * my + b)) <$> ((fun y : R => a * y + b) <$> zs)))
            = a * np_sum (zip_with Rmult ws ((fun y : R => y - my) <$> zs))).
  { clear. induction ws as [| w ws IH]; intros [| z zs]; try (cbn; lra).
    rewrite !fmap_cons. cbn [zip_with]. rewrite !np_sum_cons, IH. ring. }
  rewrite Hdot. unfold Rdiv. ring.
Qed.

Lemma polyfit_slope_falling (ys : list R) :
  (2 <= length ys)%nat -> Forall (fun d : R => d < 0) (np_diff ys) ->
  exists slope : R, polyfit_slope (np_arange (length ys)) ys = Some slope /\ slope < 0.
Proof.
  intros Hlen Hfall.
  set (zs := (fun y : R => -1 * y + 0) <$> ys).
  assert (Hzlen : length zs = length ys) by (unfold zs; apply length_fmap).
  assert (Hzrise : Forall (fun d : R => 0 < d) (np_diff zs)).
  { unfold zs. clear Hlen Hzlen zs.
    induction ys as [| y ys IH]; [constructor |].
    destruct ys as [| y' ys]; [constructor |].
    rewrite np_diff_cons in Hfall.
    inversion Hfall as [| ? ? Hy Hrest]; subst.
    specialize (IH Hrest). rewrite fmap_cons in IH.
    rewrite !fmap_cons, np_diff_cons.
    constructor; [lra | exact IH]. }
  destruct (polyfit_slope_rising zs) as (sz & Hsz & Hpos); [lia | exact Hzrise |].
  destruct (polyfit_slope_affine (-1) 0 ys Hlen) as (s & Hs & Hs').
  fold zs in Hs'. rewrite Hzlen in Hsz. rewrite Hsz in Hs'. injection Hs' as Hs'.
  exists s. split; [exact Hs | lra].
Qed.

End least_squares.

(** X23.  The trend of a series.  [multi_day_trend_classifier] and
    [trend_model] always return, and agree: rising with UP, falling with
    DOWN, flat with SIDEWAYS.  A series of two points or more that rises at
    every step is rising, one that falls at every step is falling, and every
    series of fewer than two points is flat. *)
Theorem trend_of_series (series : list R) :
  exists (label : string) (direction : enums.TrendDirection),
    oi.multi_day_trend_classifier series = Some label
    /\ market.trend_model series = Some direction
    /\ ((label = "rising" /\ direction = enums.UP)
        \/ (label = "falling" /\ direction = enums.DOWN)
        \/ (label = "flat" /\ direction = enums.SIDEWAYS))
    /\ ((2 <= length series)%nat ->
        Forall (fun d : R => 0 < d) (backtest_engine.np_diff series) -> label = "rising")
    /\ ((2 <= length series)%nat ->
        Forall (fun d : R => d < 0) (backtest_engine.np_diff series) -> label = "falling")
    /\ ((length series < 2)%nat -> label = "flat").
Proof.
  unfold oi.multi_day_trend_classifier, market.trend_model.
  destruct (decide (length series < 2)%nat) as [Hshort | Hlong].
  { exists "flat", enums.SIDEWAYS. split; [reflexivity |]. split; [reflexivity |].
    split; [right; right; split; reflexivity |].
    split; [intros; lia |]. split; [intros; lia |]. reflexivity. }
  assert (Hlen : (2 <= length series)%nat) by lia.
  destruct (polyfit_slope_affine 1 0 series Hlen) as (slope & Hslope & _).
  rewrite Hslope. cbn [mbind option_bind].
  assert (Hrise : Forall (fun d : R => 0 < d) (backtest_engine.np_diff series) -> 0 < slope).
  { intros H. destruct (polyfit_slope_rising series Hlen H) as (s & Hs & Hpos).
    rewrite Hslope in Hs. injection Hs as <-. exact Hpos. }
  assert (Hfall : Forall (fun d : R => d < 0) (backtest_engine.np_diff series) -> slope < 0).
  { intros H. destruct (polyfit_slope_falling series Hlen H) as (s & Hs & Hneg).
    rewrite Hslope in Hs. injection Hs as <-. exact Hneg. }
  destruct (decide (slope > 0)) as [Hpos | Hnpos].
  - exists "rising", enums.UP. split; [reflexivity |]. split; [reflexivity |].
    split; [left; split; reflexivity |].
    split; [reflexivity |].
    split; [intros _ H; specialize (Hfall H); lra |].
    intros; lia.
  - destruct (decide (slope < 0)) as [Hneg | Hnneg].
    + exists "falling", enums.DOWN. split; [reflexivity |]. split; [reflexivity |].
      split; [right; left; split; reflexivity |].
      split; [intros _ H; specialize (Hrise H); lra |].
      split; [reflexivity |].
      intros; lia.
    + exists "flat", enums.SIDEWAYS. split; [reflexivity |]. split; [reflexivity |].
      split; [right; right; split; reflexivity |].
      split; [intros _ H; specialize (Hrise H); lra |].
      split; [intros _ H; specialize (Hfall H); lra |].
      intros; lia.
Qed.
(** ** The consensus score on inputs in range *)

Section consensus_ranges.
Import consensus_engine.

Lemma py_sum_mean_bounds (lo hi : R) (x : R) (xs : list R) :
  Forall (fun y : R => lo <= y <= hi) (x :: xs) ->
  lo <= py_sum (x :: xs) / INR (length (x :: xs)) <= hi.
Proof.
  intros Hall. rewrite py_sum_foldr.
  assert (Hgen : forall l : list R, Forall (fun y : R => lo <= y <= hi) l ->
            INR (length l) * lo <= foldr Rplus 0 l <= INR (length l) * hi).
  { induction 1 as [| y l Hy _ IH]; [cbn; lra |].
    cbn [foldr length]. rewrite S_INR. lra. }
  specialize (Hgen _ Hall).
  assert (Hn : 0 < INR (length (x :: xs))) by (apply lt_0_INR; cbn; lia).
  split.
  - apply Rmult_le_reg_r with (INR (length (x :: xs))); [exact Hn |].
    unfold Rdiv. rewrite Rmult_assoc, Rinv_l by lra. lra.
  - apply Rmult_le_reg_r with (INR (length (x :: xs))); [exact Hn |].
    unfold Rdiv. rewrite Rmult_assoc, Rinv_l by lra. lra.
Qed.

Lemma centred_component_range (k : R) :
  0 <= k <= 100 -> 0 <= 100 - Rabs (k - 50) <= 100.
Proof.
  intros Hk. pose proof (Rabs_pos (k - 50)).
  assert (Rabs (k - 50) <= 50) by (apply Rabs_le; lra). lra.
Qed.

(** The volatility sub-score on an IV response in range. *)
Lemma vol_score_range (volatility : schemas.IVResponse) :
  (forall h : R, schemas.hv volatility = Some h -> h > 0 -> 0 < schemas.iv volatility) ->
  (forall k : R, schemas.iv_rank volatility = Some k -> 0 <= k <= 100) ->
  (forall k : R, schemas.iv_percentile volatility = Some k -> 0 <= k <= 100) ->
  exists v : R, vol_score volatility = Ok v /\ 0 <= v <= 100.
Proof.
  intros Hhv Hrank Hpct. unfold vol_score.
  assert (Hc : exists c : list R,
            hv_iv_component volatility = Ok c /\ Forall (fun y : R => 0 <= y <= 100) c).
  { unfold hv_iv_component.
    destruct (schemas.hv volatility) as [h |];
      [| exists []; split; [reflexivity | constructor]].
    destruct (decide (h > 0)) as [Hh | _];
      [| exists []; split; [reflexivity | constructor]].
    specialize (Hhv h eq_refl Hh).
    rewrite truediv_Ok by lra. eexists. split; [reflexivity |].
    constructor; [| constructor].
    assert (Hq : 0 < h / schemas.iv volatility) by (apply Rdiv_lt_0_compat; lra).
    unfold Rmin. destruct (Rle_dec 2 (h / schemas.iv volatility)); lra. }
  destruct Hc as (c & -> & Hcr). cbn [mbind result_bind].
  assert (Hall : Forall (fun y : R => 0 <= y <= 100)
                   (c ++ rank_component volatility ++ percentile_component volatility)).
  { apply Forall_app. split; [exact Hcr |]. apply Forall_app. split.
    - unfold rank_component. destruct (schemas.iv_rank volatility) as [k |];
        constructor; [apply centred_component_range, Hrank; reflexivity | constructor].
    - unfold percentile_component. destruct (schemas.iv_percentile volatility) as [k |];
        constructor; [apply centred_component_range, Hpct; reflexivity | constructor]. }
  destruct (c ++ rank_component volatility ++ percentile_component volatility)
    as [| x xs]; [exists 50; split; [reflexivity | lra] |].
  rewrite truediv_Ok by (apply not_0_INR; cbn [length]; lia).
  eexists. split; [reflexivity |]. apply (py_sum_mean_bounds 0 100), Hall.
Qed.

Lemma trend_component_values (d : enums.TrendDirection) :
  30 <= (if decide (enums.TrendDirection_name d = "UP") then 70
         else if decide (enums.TrendDirection_name d = "DOWN") then 30 else 50) <= 70.
Proof. destruct d; cbn; decide_strings; lra. Qed.

Lemma regime_component_values (m : enums.MarketRegime) :
  30 <= default 50 (regime_map !! enums.MarketRegime_name m) <= 70.
Proof.
  destruct m; cbn [enums.MarketRegime_name].
  - change (regime_map !! "BULL") with (Some 70). cbn. lra.
  - change (regime_map !! "BEAR") with (Some 30). cbn. lra.
  - change (regime_map !! "RANGE") with (Some 50). cbn. lra.
  - change (regime_map !! "VOLATILE") with (Some 40). cbn. lra.
Qed.

End consensus_ranges.

(** X24.  The consensus on inputs in range.  When the two probabilities lie
    in [0,1], the IV is positive whenever a positive HV is present, the IV
    rank and percentile (when present) lie in [0,100], the anomaly score is
    not negative and the mean-reversion score is at most 11 in absolute
    value, [compute_consensus] returns; the sub-scores it reports are those
    of its inputs, [p = 100 * max(d2, Monte Carlo)], the volatility sub-score
    [v] of lines 18-25 (the one of the spec when a present HV is positive),
    [o = 100 - min(100, |spike| * 10 + anomaly * 10)] and the mean [m] of the
    mean-reversion, trend and regime components; each lies in [0,100], and
    the confidence is exactly [0.35*p + 0.25*v + 0.15*o + 0.25*m]: the clamp
    does not act. *)
Theorem compute_consensus_scores_in_range
    (probability : schemas.ProbabilityResult) (volatility : schemas.IVResponse)
    (oi : schemas.OIResponse) (market : schemas.MarketResponse) :
  0 <= schemas.d2_probability probability <= 1 ->
  0 <= schemas.monte_carlo_itm_probability probability <= 1 ->
  (forall h : R, schemas.hv volatility = Some h -> h > 0 -> 0 < schemas.iv volatility) ->
  (forall k : R, schemas.iv_rank volatility = Some k -> 0 <= k <= 100) ->
  (forall k : R, schemas.iv_percentile volatility = Some k -> 0 <= k <= 100) ->
  0 <= schemas.anomaly_score oi ->
  Rabs (schemas.mean_reversion_score market) <= 11 ->
  exists (r : schemas.ConsensusResponse) (v : R),
    consensus_engine.compute_consensus probability volatility oi market = Ok r
    /\ consensus_engine.vol_score volatility = Ok v
    /\ schemas.details r
       = {[ "probability_score" := probability_sub_score probability;
            "volatility_score" := v;
            "oi_score" := oi_sub_score oi;
            "market_score" := market_sub_score market ]}
    /\ 0 <= probability_sub_score probability <= 100
    /\ 0 <= v <= 100
    /\ 0 <= oi_sub_score oi <= 100
    /\ 0 <= market_sub_score market <= 100
    /\ schemas.confidence_score r
       = 0.35 * probability_sub_score probability + 0.25 * v
         + 0.15 * oi_sub_score oi + 0.25 * market_sub_score market
    /\ ((forall h : R, schemas.hv volatility = Some h -> h > 0) ->
        v = volatility_sub_score volatility).
Proof.
  intros Hd2 Hmc Hhv Hrank Hpct Han Hmr.
  destruct (vol_score_range volatility Hhv Hrank Hpct) as (v & Hv & Hvr).
  eexists _, v. split; [apply compute_consensus_Ok, Hv |]. split; [exact Hv |].
  cbn [schemas.details schemas.confidence_score].
  split; [reflexivity |].
  assert (Hp : 0 <= probability_sub_score probability <= 100).
  { unfold probability_sub_score, Rmax. destruct (Rle_dec _ _); lra. }
  assert (Ho : 0 <= oi_sub_score oi <= 100).
  { unfold oi_sub_score. pose proof (Rabs_pos (schemas.spike_score oi)).
    unfold Rmin. destruct (Rle_dec _ _); lra. }
  assert (Hm : 0 <= market_sub_score market <= 100).
  { unfold market_sub_score. apply Rabs_bounds in Hmr.
    destruct (schemas.trend_signal market), (schemas.regime market); lra. }
  split; [exact Hp |]. split; [exact Hvr |]. split; [exact Ho |]. split; [exact Hm |].
  split.
  - rewrite Rmin_right by lra. apply Rmax_right. lra.
  - intros Hpos.
    assert (Hagree : forall h : R, schemas.hv volatility = Some h ->
                       h > 0 /\ schemas.iv volatility > 0).
    { intros h Hh. split; [exact (Hpos h Hh) | exact (Hhv h Hh (Hpos h Hh))]. }
    rewrite (vol_score_spec volatility Hagree) in Hv. injection Hv as <-. reflexivity.
Qed.

Lemma compute_consensus_scores_in_range_witness :
  (0 <= schemas.d2_probability neutral_probability <= 1
   /\ 0 <= schemas.anomaly_score quiet_oi
   /\ Rabs (schemas.mean_reversion_score sideways_market) <= 11)
  /\ exists r : schemas.ConsensusResponse,
       consensus_engine.compute_consensus neutral_probability positive_iv_volatility
         quiet_oi sideways_market = Ok r
       /\ schemas.details r !! "probability_score" = Some 50
       /\ schemas.details r !! "oi_score" = Some 100
       /\ schemas.details r !! "market_score" = Some 50
       /\ 45 <= schemas.confidence_score r <= 70.
Proof.
  assert (H1 : 0 <= schemas.d2_probability neutral_probability <= 1) by (cbn; lra).
  assert (H2 : 0 <= schemas.monte_carlo_itm_probability neutral_probability <= 1)
    by (cbn; lra).
  assert (H3 : forall h : R, schemas.hv positive_iv_volatility = Some h -> h > 0 ->
                 0 < schemas.iv positive_iv_volatility) by (intros; cbn; lra).
  assert (H4 : forall k : R, schemas.iv_rank positive_iv_volatility = Some k ->
                 0 <= k <= 100) by (cbn; intros k [= <-]; lra).
  assert (H5 : forall k : R, schemas.iv_percentile positive_iv_volatility = Some k ->
                 0 <= k <= 100) by (cbn; intros k [= <-]; lra).
  assert (H6 : 0 <= schemas.anomaly_score quiet_oi) by (cbn; lra).
  assert (H7 : Rabs (schemas.mean_reversion_score sideways_market) <= 11)
    by (cbn; rewrite Rabs_R0; lra).
  split; [repeat split; first [apply H1 | assumption] |].
  destruct (compute_consensus_scores_in_range neutral_probability positive_iv_volatility
              quiet_oi sideways_market H1 H2 H3 H4 H5 H6 H7)
    as (r & v & Hr & _ & Hd & _ & Hv & _ & _ & Hc & _).
  assert (Hp : probability_sub_score neutral_probability = 50).
  { unfold probability_sub_score, neutral_probability.
    cbn [schemas.d2_probability schemas.monte_carlo_itm_probability].
    rewrite Rmax_left by lra. lra. }
  assert (Ho : oi_sub_score quiet_oi = 100).
  { unfold oi_sub_score, quiet_oi. cbn [schemas.spike_score schemas.anomaly_score].
    rewrite Rabs_R0, Rmin_right by lra. lra. }
  assert (Hm : market_sub_score sideways_market = 50).
  { unfold market_sub_score, sideways_market.
    cbn [schemas.mean_reversion_score schemas.trend_signal schemas.regime]. lra. }
  exists r. split; [exact Hr |].
  rewrite Hd, Hc, Hp, Ho, Hm.
  split; [reflexivity |]. split; [reflexivity |]. split; [reflexivity |]. lra.
Defined.

(** ** The [/iv] route *)

Section iv_route.
Import routes.

Lemma post_iv_nonpositive_price (req : IVRequest) :
  iv_option_price req <= 0 ->
  (2 <= length (or_empty (historical_iv_series req)))%nat ->
  exists (resp : schemas.IVResponse) (h rank pct : R),
    post_iv req = Ok (Some resp)
    /\ schemas.iv resp = 0
    /\ schemas.hv resp = Some h /\ 0 <= h
    /\ (h = 0 <-> exists c : R,
                    Forall (fun x : R => c = x) (or_empty (historical_iv_series req)))
    /\ schemas.iv_rank resp = Some rank /\ 0 <= rank <= 100
    /\ schemas.iv_percentile resp = Some pct /\ pct <= rank.
Proof.
  intros Hp Hlen. unfold post_iv.
  rewrite implied_volatility_nonpositive_price by exact Hp.
  cbn [mbind result_bind mret result_ret].
  set (history := or_empty (historical_iv_series req)) in *.
  destruct (historical_volatility_sign history 252 Hlen ltac:(lia)) as (h & Hh & Hh0 & Hhz).
  rewrite Hh.
  destruct history as [| x l] eqn:E; [cbn in Hlen; lia |].
  rewrite iv_rank_eq, iv_percentile_eq. cbn [mbind result_bind mret result_ret option_bind].
  do 4 eexists. split; [reflexivity |].
  cbn [schemas.iv schemas.hv schemas.iv_rank schemas.iv_percentile].
  split; [reflexivity |]. split; [reflexivity |]. split; [exact Hh0 |].
  split; [apply Hhz; lia |]. split; [reflexivity |].
  assert (Hn : (0 < length (x :: l))%nat) by (cbn; lia).
  split; [apply percentage_bounds; [apply length_filter | exact Hn] |].
  split; [reflexivity |].
  apply percentage_mono; [apply length_filter_lt_le | exact Hn].
Qed.

End iv_route.

(** X25.  From [/iv] to [/consensus].  For an option price that is not
    positive the route [/iv] answers with an IV of exactly 0; with a history
    of two values or more it reports their historical volatility, which is
    positive unless all values are equal.  Such an answer with a varying
    history makes [compute_consensus] raise [ZeroDivisionError], whatever the
    other three inputs. *)
Theorem post_iv_zero_iv_breaks_consensus (req : routes.IVRequest) :
  routes.iv_option_price req <= 0 ->
  (2 <= length (routes.or_empty (routes.historical_iv_series req)))%nat ->
  exists (resp : schemas.IVResponse) (h : R),
    routes.post_iv req = Ok (Some resp)
    /\ schemas.iv resp = 0
    /\ schemas.hv resp = Some h /\ 0 <= h
    /\ (h = 0 <-> exists c : R,
                    Forall (fun x : R => c = x)
                           (routes.or_empty (routes.historical_iv_series req)))
    /\ (0 < h ->
        forall (probability : schemas.ProbabilityResult) (oi : schemas.OIResponse)
               (market : schemas.MarketResponse),
          consensus_engine.compute_consensus probability resp oi market
          = Raise ZeroDivisionError).
Proof.
  intros Hp Hlen.
  destruct (post_iv_nonpositive_price req Hp Hlen)
    as (resp & h & rank & pct & Hresp & Hiv & Hhv & Hh0 & Hhz & _).
  exists resp, h. split; [exact Hresp |]. split; [exact Hiv |].
  split; [exact Hhv |]. split; [exact Hh0 |]. split; [exact Hhz |].
  intros Hpos probability oi market.
  unfold consensus_engine.compute_consensus, consensus_engine.vol_score,
    consensus_engine.hv_iv_component.
  rewrite Hhv, Hiv.
  destruct (decide (h > 0)) as [_ | Hn]; [| lra].
  rewrite truediv_zero. reflexivity.
Qed.

Lemma post_iv_zero_iv_breaks_consensus_witness :
  (routes.iv_option_price worthless_option_request <= 0
   /\ (2 <= length (routes.or_empty
                      (routes.historical_iv_series worthless_option_request)))%nat)
  /\ exists (resp : schemas.IVResponse) (h : R),
       routes.post_iv worthless_option_request = Ok (Some resp)
       /\ schemas.iv resp = 0
       /\ schemas.hv resp = Some h
       /\ 0 < h
       /\ consensus_engine.compute_consensus neutral_probability resp quiet_oi
            sideways_market = Raise ZeroDivisionError.
Proof.
  assert (H1 : routes.iv_option_price worthless_option_request <= 0) by (cbn; lra).
  assert (H2 : (2 <= length (routes.or_empty
                               (routes.historical_iv_series worthless_option_request)))%nat)
    by (cbn; lia).
  split; [split; assumption |].
  destruct (post_iv_zero_iv_breaks_consensus worthless_option_request H1 H2)
    as (resp & h & Hresp & Hiv & Hhv & Hh0 & Hhz & Hraise).
  assert (Hpos : 0 < h).
  { destruct Hh0 as [Hlt | Heq]; [exact Hlt |]. exfalso.
    symmetry in Heq. apply Hhz in Heq. destruct Heq as [c Hc]. cbn in Hc.
    inversion Hc as [| ? ? Hc1 Hc']; subst. inversion Hc' as [| ? ? Hc2 _]; subst. lra. }
  exists resp, h. repeat split; try assumption. apply Hraise, Hpos.
Defined.
Section market_scores.
Import backtest_engine market.

Lemma suffix_length (n : nat) (xs : list R) :
  (1 <= n <= length xs)%nat -> length (suffix n xs) = n.
Proof.
  intros Hn. unfold suffix.
  destruct (decide (n = 0%nat)) as [H0 | _]; [lia |].
  rewrite length_drop. lia.
Qed.

Lemma suffix_constant (c : R) (n : nat) (xs : list R) :
  Forall (fun x : R => c = x) xs -> Forall (fun x : R => c = x) (suffix n xs).
Proof.
  intros Hc. unfold suffix.
  destruct (decide (n = 0%nat)); [exact Hc | apply Forall_drop, Hc].
Qed.

Lemma mean_reversion_score_bound (close : list R) (lookback : nat) :
  (1 <= lookback)%nat ->
  exists v : R,
    mean_reversion_score close lookback = Some v
    /\ Rabs v <= sqrt (INR (lookback - 1))
    /\ ((length close < lookback)%nat -> v = 0)
    /\ ((exists c : R, Forall (fun x : R => c = x) (suffix lookback close)) -> v = 0).
Proof.
  intros Hlb. unfold mean_reversion_score.
  destruct (decide (length close < lookback)%nat) as [Hshort | Hlong].
  { exists 0. split; [reflexivity |]. rewrite Rabs_R0.
    split; [apply sqrt_pos |]. split; reflexivity. }
  cbv zeta.
  set (window := suffix lookback close).
  assert (Hlen : length window = lookback) by (apply suffix_length; lia).
  assert (Hne : window <> []).
  { intros Hnil. rewrite Hnil in Hlen. cbn in Hlen. lia. }
  rewrite np_mean_eq by exact Hne. cbn [mbind option_bind].
  rewrite np_std_eq by exact Hne. cbn [mbind option_bind].
  destruct (last_app_singleton window Hne) as (pre & x & Hw & Hlast).
  rewrite Hlast. cbn [mbind option_bind].
  set (mu := np_sum window / INR (length window)).
  set (sd := sqrt (np_sum ((fun y : R => (y - mu) ^ 2) <$> window) / INR (length window))).
  assert (Hsd : 0 <= sd) by apply sqrt_pos.
  rewrite np_divide_Some by lra. cbn [mbind option_bind].
  eexists. split; [reflexivity |].
  split.
  { rewrite Rabs_Ropp, <- Hlen.
    apply (last_z_score_bound window x (1 / 100000000) Hlast); [lra |].
    fold mu sd. lra. }
  split; [intros; lia |].
  intros [c Hc].
  assert (Hn : INR (length window) <> 0) by (apply not_0_INR; lia).
  assert (Hmu : mu = c).
  { unfold mu, np_sum. rewrite (constant_sum c window Hc). field. exact Hn. }
  assert (Hx : c = x).
  { rewrite Forall_forall in Hc. apply Hc. rewrite Hw.
    apply elem_of_app. right. apply list_elem_of_singleton. reflexivity. }
  rewrite Hmu, <- Hx. unfold Rdiv. rewrite Rminus_diag, Rmult_0_l. lra.
Qed.

End market_scores.

(** X26.  The z-scores of the last value.  [oi_spike_detector],
    [oi_anomaly_score] and [mean_reversion_score] always return a number.
    On a series of [n] points the spike score is at most [sqrt (n - 2)] in
    absolute value, and 0 for fewer than three points; the anomaly score
    lies between 0 and [sqrt (n - 1)], and is 0 on a constant series; with a
    lookback of [k >= 1] the mean-reversion score is at most [sqrt (k - 1)]
    in absolute value, and 0 for fewer than [k] points or a constant
    window. *)
Theorem last_value_z_scores (series : list R) (lookback : nat) :
  (exists s : R,
     oi.oi_spike_detector series = Some s
     /\ Rabs s <= sqrt (INR (length series - 2))
     /\ ((length series < 3)%nat -> s = 0))
  /\ (exists a : R,
        oi.oi_anomaly_score series = Some a
        /\ 0 <= a <= sqrt (INR (length series - 1))
        /\ ((exists c : R, Forall (fun x : R => c = x) series) -> a = 0))
  /\ ((1 <= lookback)%nat ->
      exists m : R,
        market.mean_reversion_score series lookback = Some m
        /\ Rabs m <= sqrt (INR (lookback - 1))
        /\ ((length series < lookback)%nat -> m = 0)
        /\ ((exists c : R, Forall (fun x : R => c = x) (market.suffix lookback series))
            -> m = 0)).
Proof.
  split; [| split].
  - destruct (oi_spike_detector_bound series) as (v & Hv & Hb).
    exists v. split; [exact Hv |]. split; [exact Hb |].
    intros Hlen.
    replace (length series - 2)%nat with 0%nat in Hb by lia.
    cbn in Hb. rewrite sqrt_0 in Hb.
    pose proof (Rabs_pos v). apply Rabs_bounds in Hb. lra.
  - destruct (oi_anomaly_score_bound series) as (v & Hv & Hb).
    exists v. split; [exact Hv |]. split; [exact Hb |].
    intros [c Hc]. rewrite (oi_anomaly_score_constant c _ Hc) in Hv.
    injection Hv as <-. reflexivity.
  - apply mean_reversion_score_bound.
Qed.

Section oi_metrics.
Import backtest_engine oi.

Lemma multi_day_trend_classifier_total (oi_series : list R) :
  exists label : string,
    multi_day_trend_classifier oi_series = Some label
    /\ (label = "rising" \/ label = "falling" \/ label = "flat").
Proof.
  unfold multi_day_trend_classifier.
  destruct (decide (length oi_series < 2)%nat) as [_ | Hlong];
    [exists "flat"; split; [reflexivity | tauto] |].
  destruct (polyfit_slope_affine 1 0 oi_series ltac:(lia)) as (slope & Hslope & _).
  rewrite Hslope. cbn [mbind option_bind].
  destruct (decide (slope > 0)); [exists "rising"; split; [reflexivity | tauto] |].
  destruct (decide (slope < 0)); [exists "falling" | exists "flat"];
    (split; [reflexivity | tauto]).
Qed.

(** Every part of [compute_oi_metrics] returns. *)
Lemma compute_oi_metrics_parts (oi_series volume_series : list R) :
  exists (s v a : R) (label : string),
    compute_oi_metrics oi_series volume_series
    = Ok (Some {| metrics_spike_score := s; metrics_volume_oi_ratio := v;
                  metrics_trend := label; metrics_anomaly_score := a |})
    /\ oi_spike_detector oi_series = Some s
    /\ volume_oi_ratio (default 0 (last volume_series)) (default 0 (last oi_series)) = Ok v
    /\ multi_day_trend_classifier oi_series = Some label
    /\ oi_anomaly_score oi_series = Some a.
Proof.
  destruct (oi_spike_detector_bound oi_series) as (s & Hs & _).
  destruct (oi_anomaly_score_bound oi_series) as (a & Ha & _).
  destruct (multi_day_trend_classifier_total oi_series) as (label & Hl & _).
  destruct (ratio_guarded (default 0 (last volume_series)) (default 0 (last oi_series)))
    as (v & Hv & _).
  exists s, v, a, label. unfold compute_oi_metrics.
  fold (volume_oi_ratio (default 0 (last volume_series)) (default 0 (last oi_series))) in Hv.
  rewrite Hv, Hs, Hl, Ha. repeat split; try assumption.
Qed.

End oi_metrics.

(** X27.  [compute_oi_metrics] never fails.  For every pair of series it
    returns the four metrics: the volume/OI ratio is the last volume over the
    last OI when that OI is positive and 0 otherwise (and on empty series);
    the trend is rising, falling or flat; the anomaly score is not negative.
    The three guarded ratios [volume_oi_ratio], [calculate_pcr] and
    [calculate_pcr_volume] never raise: each returns 0 for a non-positive
    denominator and the quotient for a positive one. *)
Theorem compute_oi_metrics_total (oi_series volume_series : list R) :
  (exists m : oi.OIMetrics,
     oi.compute_oi_metrics oi_series volume_series = Ok (Some m)
     /\ (default 0 (last oi_series) <= 0 -> oi.metrics_volume_oi_ratio m = 0)
     /\ (0 < default 0 (last oi_series) ->
         oi.metrics_volume_oi_ratio m
         = default 0 (last volume_series) / default 0 (last oi_series))
     /\ (oi.metrics_trend m = "rising" \/ oi.metrics_trend m = "falling"
         \/ oi.metrics_trend m = "flat")
     /\ 0 <= oi.metrics_anomaly_score m
     /\ Rabs (oi.metrics_spike_score m) <= sqrt (INR (length oi_series - 2)))
  /\ (forall x y : R,
        exists v : R,
          oi.volume_oi_ratio x y = Ok v
          /\ oi.calculate_pcr x y = Ok v
          /\ oi.calculate_pcr_volume x y = Ok v
          /\ (y <= 0 -> v = 0) /\ (0 < y -> v = x / y) /\ (0 <= x -> 0 <= v)).
Proof.
  split.
  - destruct (compute_oi_metrics_parts oi_series volume_series)
      as (s & v & a & label & Hm & Hs & Hv & Hl & Ha).
    eexists. split; [exact Hm |]. cbn.
    destruct (ratio_guarded (default 0 (last volume_series)) (default 0 (last oi_series)))
      as (v' & Hv' & H1 & H2 & _).
    unfold oi.volume_oi_ratio in Hv. rewrite Hv' in Hv. injection Hv as <-.
    split; [exact H1 |]. split; [exact H2 |].
    destruct (multi_day_trend_classifier_total oi_series) as (label' & Hl' & Hcases).
    rewrite Hl' in Hl. injection Hl as <-.
    split; [exact Hcases |].
    destruct (oi_anomaly_score_bound oi_series) as (a' & Ha' & Hb).
    rewrite Ha' in Ha. injection Ha as <-.
    split; [apply Hb |].
    destruct (oi_spike_detector_bound oi_series) as (s' & Hs' & Hsb).
    rewrite Hs' in Hs. injection Hs as <-. exact Hsb.
  - intros x y.
    destruct (ratio_guarded x y) as (v & Hv & H1 & H2 & H3).
    exists v. unfold oi.volume_oi_ratio, oi.calculate_pcr, oi.calculate_pcr_volume.
    repeat split; assumption.
Qed.

Section oi_route.
Import backtest_engine oi.

Lemma np_diff_progression (a d : R) (k m : nat) :
  Forall (fun x : R => d = x) (np_diff ((fun i : nat => a + INR i * d) <$> seq k m)).
Proof.
  revert k. induction m as [| m IH]; intros k; [constructor |].
  destruct m as [| m]; [constructor |].
  specialize (IH (S k)).
  cbn [seq] in *. rewrite !fmap_cons in *. rewrite np_diff_cons.
  constructor; [rewrite S_INR; lra | exact IH].
Qed.

Lemma last_progression (f : nat -> R) (m : nat) :
  last (f <$> seq 0 (S m)) = Some (f m).
Proof.
  rewrite seq_S, fmap_app. cbn [fmap list_fmap Nat.add]. apply last_snoc.
Qed.

End oi_route.

(** X28.  The route [/oi].  For every number of days it returns: the spike
    score is 0 and the two put-call ratios are 1.25 and 10/9; for two days
    or more the trend is rising, the volume/OI ratio is
    [(100 + 5 (days - 1)) / (1000 + 10 (days - 1))] and the anomaly score
    lies between 0 and [sqrt (days - 1)]; for fewer than two days the trend
    is flat and the anomaly score 0, and for no day at all the volume/OI
    ratio is 0. *)
Theorem post_oi_response (days : Z) :
  exists resp : schemas.OIResponse,
    routes.post_oi days = Ok (Some resp)
    /\ schemas.spike_score resp = 0
    /\ schemas.pcr_oi resp = Some 1.25
    /\ schemas.pcr_volume resp = Some (10 / 9)
    /\ 0 <= schemas.anomaly_score resp <= sqrt (INR (Z.to_nat days - 1))
    /\ ((2 <= days)%Z ->
        schemas.trend resp = "rising"
        /\ schemas.volume_oi_ratio resp
           = (100 + 5 * (IZR days - 1)) / (1000 + 10 * (IZR days - 1)))
    /\ ((days < 2)%Z -> schemas.trend resp = "flat" /\ schemas.anomaly_score resp = 0)
    /\ ((days <= 0)%Z -> schemas.volume_oi_ratio resp = 0).
Proof.
  unfold routes.post_oi. cbv zeta.
  set (n := Z.to_nat days).
  set (oi_series := (fun i : nat => 1000 + INR i * 10) <$> seq 0 n).
  set (vol_series := (fun i : nat => 100 + INR i * 5) <$> seq 0 n).
  destruct (compute_oi_metrics_parts oi_series vol_series)
    as (s & v & a & label & Hm & Hs & Hv & Hl & Ha).
  rewrite Hm. cbn [mbind result_bind mret result_ret].
  unfold oi.calculate_pcr, oi.calculate_pcr_volume.
  destruct (decide (1200000 <= 0)) as [H0 | _]; [lra |].
  destruct (decide (450000 <= 0)) as [H0 | _]; [lra |].
  rewrite !truediv_Ok by lra. cbn [mbind result_bind mret result_ret option_bind].
  eexists. split; [reflexivity |]. cbn.
  assert (Hlen : length oi_series = n)
    by (unfold oi_series; rewrite length_fmap, length_seq; reflexivity).
  assert (Hspike : s = 0).
  { pose proof (oi_spike_detector_constant 10 oi_series
                  (np_diff_progression 1000 10 0 n)) as H0.
    rewrite Hs in H0. injection H0 as ->. reflexivity. }
  destruct (oi_anomaly_score_bound oi_series) as (a' & Ha' & Hab).
  rewrite Ha in Ha'. injection Ha' as <-. rewrite Hlen in Hab.
  split; [exact Hspike |].
  split; [f_equal; lra |]. split; [f_equal; lra |].
  split; [exact Hab |].
  split; [| split].
  - intros Hdays.
    assert (Hn : (2 <= n)%nat) by (unfold n; lia).
    split.
    + destruct (polyfit_slope_rising oi_series) as (slope & Hslope & Hpos).
      { rewrite Hlen. exact Hn. }
      { eapply Forall_impl; [apply np_diff_progression |]. intros x Hx.
        cbn in Hx. lra. }
      unfold oi.multi_day_trend_classifier in Hl.
      destruct (decide (length oi_series < 2)%nat) as [Hshort | _]; [lia |].
      rewrite Hslope in Hl. cbn [mbind option_bind] in Hl.
      destruct (decide (slope > 0)) as [_ | Hn0]; [| lra].
      injection Hl as <-. reflexivity.
    + destruct n as [| m] eqn:En; [lia |].
      unfold oi_series, vol_series in Hv. rewrite !last_progression in Hv.
      cbn [default from_option] in Hv. unfold Datatypes.id in Hv.
      unfold oi.volume_oi_ratio in Hv.
      pose proof (pos_INR m) as Hm0.
      destruct (ratio_guarded (100 + INR m * 5) (1000 + INR m * 10))
        as (v' & Hv' & _ & H2 & _).
      rewrite Hv' in Hv. injection Hv as <-. rewrite H2 by lra.
      assert (Hdm : IZR days - 1 = INR m).
      { rewrite INR_IZR_INZ. replace (Z.of_nat m) with (days - 1)%Z by lia.
        rewrite minus_IZR. reflexivity. }
      rewrite Hdm. f_equal; lra.
  - intros Hdays.
    assert (Hn : (n < 2)%nat) by (unfold n; lia).
    split.
    + unfold oi.multi_day_trend_classifier in Hl.
      destruct (decide (length oi_series < 2)%nat) as [_ | Hlong]; [| lia].
      injection Hl as <-. reflexivity.
    + replace (n - 1)%nat with 0%nat in Hab by lia. cbn in Hab. rewrite sqrt_0 in Hab. lra.
  - intros Hdays.
    assert (Hn : n = 0%nat) by (unfold n; lia).
    unfold oi_series, vol_series in Hv. rewrite Hn in Hv.
    cbn [seq fmap list_fmap last default from_option] in Hv.
    unfold oi.volume_oi_ratio in Hv.
    destruct (ratio_guarded 0 0) as (v' & Hv' & H1 & _).
    rewrite Hv' in Hv. injection Hv as <-. apply H1. lra.
Qed.

(** ** Market indicators *)

Section price_indicators.
Import backtest_engine market.

Lemma np_sum_bounds (lo hi : R) (xs : list R) :
  Forall (fun x : R => lo <= x <= hi) xs ->
  INR (length xs) * lo <= np_sum xs <= INR (length xs) * hi.
Proof.
  induction 1 as [| x xs Hx _ IH]; [cbn; lra |].
  rewrite np_sum_cons. change (length (x :: xs)) with (S (length xs)).
  rewrite S_INR. lra.
Qed.

Lemma np_mean_bounds (lo hi : R) (xs : list R) :
  xs <> [] -> Forall (fun x : R => lo <= x <= hi) xs ->
  lo <= np_sum xs / INR (length xs) <= hi.
Proof.
  intros Hne Hxs. pose proof (np_sum_bounds lo hi xs Hxs) as Hb.
  assert (Hn : 0 < INR (length xs)).
  { apply lt_0_INR. destruct xs; [contradiction | cbn; lia]. }
  split.
  - apply Rmult_le_reg_r with (INR (length xs)); [exact Hn |].
    unfold Rdiv. rewrite Rmult_assoc, Rinv_l by lra. lra.
  - apply Rmult_le_reg_r with (INR (length xs)); [exact Hn |].
    unfold Rdiv. rewrite Rmult_assoc, Rinv_l by lra. lra.
Qed.

(** The standard deviation of values within [[lo, hi]] is at most the width
    of the interval. *)
Lemma np_std_range (lo hi : R) (xs : list R) :
  xs <> [] -> Forall (fun x : R => lo <= x <= hi) xs ->
  exists sd : R, np_std xs = Some sd /\ 0 <= sd <= hi - lo.
Proof.
  intros Hne Hxs. rewrite np_std_eq by exact Hne.
  eexists. split; [reflexivity |].
  pose proof (np_mean_bounds lo hi xs Hne Hxs) as Hmu.
  set (mu := np_sum xs / INR (length xs)) in *.
  split; [apply sqrt_pos |].
  assert (Hn : 0 < INR (length xs)).
  { apply lt_0_INR. destruct xs; [contradiction | cbn; lia]. }
  assert (Hsq : Forall (fun d : R => 0 <= d <= (hi - lo) ^ 2)
                       ((fun x : R => (x - mu) ^ 2) <$> xs)).
  { apply Forall_fmap. eapply Forall_impl; [exact Hxs |].
    intros x Hx. cbn in *. split; [apply pow2_ge_0 |].
    pose proof (Rmult_le_pos (hi - lo - (x - mu)) (hi - lo + (x - mu))
                  ltac:(lra) ltac:(lra)) as Hprod.
    lra. }
  pose proof (np_sum_bounds _ _ _ Hsq) as Hs. rewrite length_fmap in Hs.
  assert (Hw : 0 <= hi - lo).
  { destruct xs as [| x xs']; [contradiction |].
    inversion Hxs as [| ? ? Hx _]; subst. lra. }
  rewrite <- (sqrt_pow2 (hi - lo)) by exact Hw.
  apply sqrt_le_1_alt.
  apply Rmult_le_reg_r with (INR (length xs)); [exact Hn |].
  unfold Rdiv. rewrite Rmult_assoc, Rinv_l by lra. lra.
Qed.

Lemma weighted_sum_bounds (lo hi : R) (xs ws : list R) :
  Forall (fun x : R => lo <= x <= hi) xs -> length ws = length xs ->
  Forall (fun w : R => 0 <= w) ws ->
  lo * np_sum ws <= np_sum (zip_with Rmult xs ws) <= hi * np_sum ws.
Proof.
  intros Hxs. revert ws.
  induction Hxs as [| x xs Hx _ IH]; intros [| w ws] Hlen Hws; try discriminate.
  - cbn. lra.
  - inversion Hws as [| ? ? Hw Hws']; subst.
    cbn [zip_with]. rewrite !np_sum_cons.
    specialize (IH ws ltac:(injection Hlen as Hlen; exact Hlen) Hws'). nra.
Qed.

Lemma np_sum_nonneg (ws : list R) :
  Forall (fun w : R => 0 <= w) ws -> 0 <= np_sum ws.
Proof. apply foldr_Rplus_nonneg. Qed.

Lemma last_Forall (P : R -> Prop) (xs : list R) (x : R) :
  Forall P xs -> last xs = Some x -> P x.
Proof.
  intros Hxs Hlast. rewrite Forall_forall in Hxs. apply Hxs.
  apply last_Some in Hlast as [pre ->].
  apply elem_of_app. right. apply list_elem_of_singleton. reflexivity.
Qed.

Lemma suffix_Forall (P : R -> Prop) (n : nat) (xs : list R) :
  Forall P xs -> Forall P (suffix n xs).
Proof.
  intros Hxs. unfold suffix.
  destruct (decide (n = 0%nat)); [exact Hxs | apply Forall_drop, Hxs].
Qed.

Lemma vwap_range (lo hi : R) (prices volumes : list R) :
  0 <= lo -> prices <> [] -> Forall (fun p : R => lo <= p <= hi) prices ->
  length volumes = length prices -> Forall (fun w : R => 0 <= w) volumes ->
  exists v : R,
    vwap prices volumes = Some v
    /\ lo * np_sum volumes <= v * (np_sum volumes + 1 / 100000000) <= hi * np_sum volumes
    /\ 0 <= v <= hi.
Proof.
  intros Hlo Hne Hp Hlen Hw.
  pose proof (np_sum_nonneg volumes Hw) as HV.
  pose proof (weighted_sum_bounds lo hi prices volumes Hp Hlen Hw) as Hs.
  unfold vwap.
  destruct (decide (prices = [] \/ volumes = [] \/ length prices <> length volumes))
    as [[H | [H | H]] | _].
  - contradiction.
  - rewrite H in Hlen. destruct prices; [contradiction | discriminate].
  - exfalso. apply H. symmetry. exact Hlen.
  - rewrite np_divide_Some by lra. eexists. split; [reflexivity |].
    set (S := np_sum (zip_with Rmult prices volumes)) in *.
    set (V := np_sum volumes) in *.
    assert (HD : 0 < V + 1 / 100000000) by lra.
    assert (Hv : S / (V + 1 / 100000000) * (V + 1 / 100000000) = S) by (field; lra).
    rewrite Hv. split; [exact Hs |].
    assert (Hhi : lo <= hi).
    { destruct prices as [| p prices']; [contradiction |].
      inversion Hp as [| ? ? Hp0 _]; subst. lra. }
    split.
    + apply Rmult_le_reg_r with (V + 1 / 100000000); [exact HD |].
      rewrite Hv. nra.
    + apply Rmult_le_reg_r with (V + 1 / 100000000); [exact HD |].
      rewrite Hv. nra.
Qed.

Lemma bollinger_squeeze_range (lo hi : R) (close : list R) (period : nat) (num_std : R) :
  0 < lo -> lo <= hi -> Forall (fun p : R => lo <= p <= hi) close ->
  (1 <= period)%nat -> 0 <= num_std ->
  exists b : R,
    bollinger_squeeze close period num_std = Some b
    /\ 0 <= b <= 2 * num_std * (hi - lo) / lo
    /\ ((length close < period)%nat -> b = 0).
Proof.
  intros Hlo Hhi Hp Hperiod Hk. unfold bollinger_squeeze.
  destruct (decide (length close < period)%nat) as [Hshort | Hlong].
  { exists 0. split; [reflexivity |]. split; [| reflexivity].
    split; [lra |]. apply Rmult_le_reg_r with lo; [exact Hlo |].
    unfold Rdiv. rewrite Rmult_assoc, Rinv_l by lra. nra. }
  cbv zeta.
  assert (Hne : suffix period close <> []).
  { intros Hnil. apply (f_equal length) in Hnil.
    rewrite suffix_length in Hnil by lia. cbn in Hnil. lia. }
  pose proof (suffix_Forall _ period close Hp) as Hw.
  rewrite (np_mean_eq _ Hne). cbn [mbind option_bind].
  pose proof (np_mean_bounds lo hi _ Hne Hw) as Hmu.
  destruct (np_std_range lo hi _ Hne Hw) as (sd & Hsd & Hsd0 & Hsd1).
  rewrite Hsd. cbn [mbind option_bind].
  set (mu := np_sum (suffix period close) / INR (length (suffix period close))) in *.
  rewrite np_divide_Some by lra.
  eexists. split; [reflexivity |]. split; [| intros; lia].
  replace (mu + num_std * sd - (mu - num_std * sd)) with (2 * num_std * sd) by ring.
  assert (HD : 0 < mu + 1 / 100000000) by lra.
  assert (Hnum : 0 <= 2 * num_std * sd) by nra.
  split.
  - apply Rmult_le_reg_r with (mu + 1 / 100000000); [exact HD |].
    unfold Rdiv. rewrite Rmult_assoc, Rinv_l by lra. lra.
  - apply Rmult_le_reg_r with (mu + 1 / 100000000); [exact HD |].
    unfold Rdiv at 1. rewrite Rmult_assoc, Rinv_l by lra.
    apply Rmult_le_reg_r with lo; [exact Hlo |].
    replace (2 * num_std * (hi - lo) / lo * (mu + 1 / 100000000) * lo)
      with (2 * num_std * (hi - lo) * (mu + 1 / 100000000)) by (field; lra).
    assert (H1 : 2 * num_std * sd <= 2 * num_std * (hi - lo)) by nra.
    assert (H2 : 0 <= 2 * num_std * (hi - lo)) by nra.
    nra.
Qed.

End price_indicators.

(** X29.  The price indicators stay within the price range.  For a
    non-empty series of prices between [lo >= 0] and [hi], with one volume
    per price and no negative volume: the VWAP times the total volume plus
    [1e-8] lies between [lo] and [hi] times the total volume, so the VWAP
    lies in [0, hi]; [vwap_signal] answers above_vwap, below_vwap or
    near_vwap, never below_vwap when the last price is the highest; with no
    volume at all the VWAP is 0 and every positive last price is above it.
    For [lo > 0] the Bollinger bandwidth lies between 0 and
    [2 * num_std * (hi - lo) / lo], and is 0 on fewer points than the
    period. *)
Theorem price_indicators_in_range (lo hi : R) (prices volumes : list R) :
  0 <= lo ->
  prices <> [] ->
  Forall (fun p : R => lo <= p <= hi) prices ->
  length volumes = length prices ->
  Forall (fun w : R => 0 <= w) volumes ->
  exists (v final : R) (signal : string),
    market.vwap prices volumes = Some v
    /\ last prices = Some final
    /\ market.vwap_signal prices volumes = Some signal
    /\ lo * backtest_engine.np_sum volumes
       <= v * (backtest_engine.np_sum volumes + 1 / 100000000)
       <= hi * backtest_engine.np_sum volumes
    /\ 0 <= v <= hi
    /\ (signal = "above_vwap" \/ signal = "below_vwap" \/ signal = "near_vwap")
    /\ (final = hi -> signal <> "below_vwap")
    /\ (backtest_engine.np_sum volumes = 0 ->
        v = 0 /\ (0 < final -> signal = "above_vwap"))
    /\ (forall (period : nat) (num_std : R),
          0 < lo -> (1 <= period)%nat -> 0 <= num_std ->
          exists b : R,
            market.bollinger_squeeze prices period num_std = Some b
            /\ 0 <= b <= 2 * num_std * (hi - lo) / lo
            /\ ((length prices < period)%nat -> b = 0)).
Proof.
  intros Hlo Hne Hp Hlen Hw.
  destruct (vwap_range lo hi prices volumes Hlo Hne Hp Hlen Hw) as (v & Hv & Hprod & Hv0).
  destruct (last_app_singleton prices Hne) as (pre & final & _ & Hlast).
  pose proof (last_Forall _ _ _ Hp Hlast) as Hfinal. cbn in Hfinal.
  assert (Hsig : market.vwap_signal prices volumes
                 = Some (if decide (final > v * 1.001) then "above_vwap"
                         else if decide (final < v * 0.999) then "below_vwap"
                         else "near_vwap")).
  { unfold market.vwap_signal.
    destruct (decide (prices = [])) as [H | _]; [contradiction |].
    rewrite Hv, Hlast. cbn [mbind option_bind].
    destruct (decide (final > v * 1.001)); [reflexivity |].
    destruct (decide (final < v * 0.999)); reflexivity. }
  exists v, final. eexists. split; [exact Hv |]. split; [exact Hlast |].
  split; [exact Hsig |]. split; [exact Hprod |]. split; [exact Hv0 |].
  split; [| split; [| split]].
  - destruct (decide (final > v * 1.001)); [left; reflexivity |].
    destruct (decide (final < v * 0.999)); [right; left | right; right]; reflexivity.
  - intros Hhigh.
    destruct (decide (final > v * 1.001)); [discriminate |].
    destruct (decide (final < v * 0.999)) as [Hlt | _]; [lra | discriminate].
  - intros HV. rewrite HV in Hprod.
    assert (Hz : v = 0) by lra.
    split; [exact Hz |]. intros Hpos.
    destruct (decide (final > v * 1.001)) as [_ | Hn]; [reflexivity | lra].
  - intros period num_std Hlo' Hperiod Hk.
    apply (bollinger_squeeze_range lo hi); try assumption.
    destruct prices as [| p prices']; [contradiction |].
    inversion Hp as [| ? ? Hp0 _]; subst. lra.
Qed.

Lemma price_indicators_in_range_witness :
  (0 <= 100
   /\ [100; 110] <> []
   /\ length [0; 0] = length [100; 110])
  /\ exists (v : R) (signal : string),
       market.vwap [100; 110] [0; 0] = Some v
       /\ market.vwap_signal [100; 110] [0; 0] = Some signal
       /\ v = 0 /\ signal = "above_vwap".
Proof.
  assert (H1 : 0 <= 100) by lra.
  assert (H2 : [100; 110] <> []) by discriminate.
  assert (H3 : Forall (fun p : R => 100 <= p <= 110) [100; 110])
    by (repeat constructor; lra).
  assert (H4 : length [0; 0] = length [100; 110]) by reflexivity.
  assert (H5 : Forall (fun w : R => 0 <= w) [0; 0]) by (repeat constructor; lra).
  split; [repeat split; assumption |].
  destruct (price_indicators_in_range 100 110 [100; 110] [0; 0] H1 H2 H3 H4 H5)
    as (v & final & signal & Hv & Hlast & Hsig & _ & _ & _ & _ & Hzero & _).
  exists v, signal. split; [exact Hv |]. split; [exact Hsig |].
  assert (HV : backtest_engine.np_sum [0; 0] = 0) by (cbn; lra).
  destruct (Hzero HV) as [Hvz Habove].
  split; [exact Hvz |]. apply Habove.
  cbn in Hlast. injection Hlast as <-. lra.
Defined.

Section market_regimes.
Import backtest_engine market.

Lemma mapM_np_log (xs : list R) :
  Forall (fun x : R => 0 < x) xs -> mapM volatility.np_log xs = Some (ln <$> xs).
Proof.
  induction 1 as [| x xs Hx _ IH]; [reflexivity |].
  cbn [mapM]. rewrite IH. unfold volatility.np_log.
  destruct (decide (0 < x)) as [_ | Hn]; [reflexivity | contradiction].
Qed.

(** Prices move the way their logarithms do. *)
Lemma np_diff_ln_sign (xs : list R) :
  Forall (fun x : R => 0 < x) xs ->
  (Forall (fun d : R => 0 < d) (np_diff (ln <$> xs)) ->
   Forall (fun d : R => 0 < d) (np_diff xs))
  /\ (Forall (fun d : R => d < 0) (np_diff (ln <$> xs)) ->
      Forall (fun d : R => d < 0) (np_diff xs)).
Proof.
  induction 1 as [| x xs Hx Hxs IH]; [split; intros; constructor |].
  destruct xs as [| y xs]; [split; intros; constructor |].
  inversion Hxs as [| ? ? Hy _]; subst.
  rewrite !fmap_cons, !np_diff_cons. rewrite fmap_cons in IH.
  destruct IH as [IHup IHdown].
  split; intros Hd; inversion Hd as [| ? ? Hd0 Hd']; subst; constructor.
  - assert (x < y) by (apply ln_lt_inv; [assumption | assumption | lra]). lra.
  - apply IHup, Hd'.
  - assert (y < x) by (apply ln_lt_inv; [assumption | assumption | lra]). lra.
  - apply IHdown, Hd'.
Qed.

Lemma sqrt_252_lt_16 : sqrt 252 < 16.
Proof.
  replace 16 with (sqrt (16 ^ 2)) by (apply sqrt_pow2; lra).
  apply sqrt_lt_1_alt. lra.
Qed.

Lemma market_regime_cases (close : list R) :
  Forall (fun x : R => 0 < x) close -> (30 <= length close)%nat ->
  exists sd slope : R,
    np_std (np_diff (ln <$> close)) = Some sd
    /\ 0 <= sd
    /\ polyfit_slope (np_arange (length close)) close = Some slope
    /\ market_regime close
       = Some (if decide (sd * sqrt 252 < 0.15 /\ slope > 0) then enums.BULL
               else if decide (sd * sqrt 252 < 0.15 /\ slope < 0) then enums.BEAR
               else if decide (sd * sqrt 252 >= 0.15 /\ Rabs slope < 1 / 1000000)
                    then enums.VOLATILE
               else enums.RANGE).
Proof.
  intros Hpos Hlen.
  assert (Hne : np_diff (ln <$> close) <> []).
  { intros Hnil. apply (f_equal length) in Hnil.
    rewrite np_diff_length, length_fmap in Hnil. cbn in Hnil. lia. }
  destruct (polyfit_slope_affine 1 0 close ltac:(lia)) as (slope & Hslope & _).
  exists (sqrt (np_sum ((fun x : R =>
                           (x - np_sum (np_diff (ln <$> close))
                                / INR (length (np_diff (ln <$> close)))) ^ 2)
                          <$> np_diff (ln <$> close))
                / INR (length (np_diff (ln <$> close))))), slope.
  split; [apply np_std_eq, Hne |]. split; [apply sqrt_pos |].
  split; [exact Hslope |].
  unfold market_regime.
  destruct (decide (length close < 30)%nat) as [Hshort | _]; [lia |].
  rewrite (mapM_np_log close Hpos). cbn [mbind option_bind]. cbv zeta.
  rewrite (np_std_eq _ Hne). cbn [mbind option_bind].
  rewrite Hslope. cbn [mbind option_bind].
  repeat match goal with |- context [decide ?P] => destruct (decide P) end;
    reflexivity.
Qed.

End market_regimes.

(** X30.  The market regime follows the trend.  On positive closes
    [market_regime] always returns a regime: RANGE for fewer than 30 points;
    with 30 points or more, never BEAR on a series that rises at every step
    and never BULL on one that falls at every step; BULL when every daily
    log-return lies in (0, 0.009], and BEAR when every one lies in
    [-0.009, 0): such steady returns keep the annualised volatility below
    0.15. *)
Theorem market_regime_follows_trend (close : list R) :
  Forall (fun x : R => 0 < x) close ->
  exists regime : enums.MarketRegime,
    market.market_regime close = Some regime
    /\ ((length close < 30)%nat -> regime = enums.RANGE)
    /\ ((30 <= length close)%nat ->
        (Forall (fun d : R => 0 < d) (backtest_engine.np_diff close) ->
         regime <> enums.BEAR)
        /\ (Forall (fun d : R => d < 0) (backtest_engine.np_diff close) ->
            regime <> enums.BULL)
        /\ (Forall (fun d : R => 0 < d <= 0.009)
                   (backtest_engine.np_diff (ln <$> close)) ->
            regime = enums.BULL)
        /\ (Forall (fun d : R => -0.009 <= d < 0)
                   (backtest_engine.np_diff (ln <$> close)) ->
            regime = enums.BEAR)).
Proof.
  intros Hpos.
  destruct (decide (length close < 30)%nat) as [Hshort | Hlong].
  { exists enums.RANGE. unfold market.market_regime.
    destruct (decide (length close < 30)%nat) as [_ | Hn]; [| contradiction].
    split; [reflexivity |]. split; [reflexivity | intros; lia]. }
  assert (Hlen : (30 <= length close)%nat) by lia.
  destruct (market_regime_cases close Hpos Hlen) as (sd & slope & Hsd & Hsd0 & Hslope & Hr).
  assert (Hne : backtest_engine.np_diff (ln <$> close) <> []).
  { intros Hnil. apply (f_equal length) in Hnil.
    rewrite np_diff_length, length_fmap in Hnil. cbn in Hnil. lia. }
  assert (Hrise : Forall (fun d : R => 0 < d) (backtest_engine.np_diff close) ->
                  0 < slope).
  { intros H. destruct (polyfit_slope_rising close ltac:(lia) H) as (s & Hs & Hs0).
    rewrite Hslope in Hs. injection Hs as <-. exact Hs0. }
  assert (Hfall : Forall (fun d : R => d < 0) (backtest_engine.np_diff close) ->
                  slope < 0).
  { intros H. destruct (polyfit_slope_falling close ltac:(lia) H) as (s & Hs & Hs0).
    rewrite Hslope in Hs. injection Hs as <-. exact Hs0. }
  assert (Hcalm : forall lo hi : R,
             hi - lo <= 0.009 ->
             Forall (fun d : R => lo <= d <= hi)
                    (backtest_engine.np_diff (ln <$> close)) ->
             sd * sqrt 252 < 0.15).
  { intros lo hi Hwidth H.
    destruct (np_std_range lo hi _ Hne H) as (sd' & Hsd' & _ & Hle).
    rewrite Hsd in Hsd'. injection Hsd' as <-.
    pose proof sqrt_252_lt_16 as H16.
    pose proof (sqrt_pos 252) as H0.
    assert (sd * sqrt 252 <= 0.009 * 16) by (apply Rmult_le_compat; lra).
    lra. }
  eexists. split; [exact Hr |]. split; [intros; lia |]. intros _.
  split; [| split; [| split]].
  - intros H. specialize (Hrise H).
    repeat match goal with |- context [decide ?P] => destruct (decide P) end;
      try discriminate; lra.
  - intros H. specialize (Hfall H).
    repeat match goal with |- context [decide ?P] => destruct (decide P) end;
      try discriminate; lra.
  - intros H.
    assert (Hup : Forall (fun d : R => 0 < d)
                         (backtest_engine.np_diff (ln <$> close)))
      by (eapply Forall_impl; [exact H |]; intros d Hd; cbn in Hd; lra).
    apply (np_diff_ln_sign close Hpos) in Hup. specialize (Hrise Hup).
    assert (Hvol : sd * sqrt 252 < 0.15).
    { apply (Hcalm 0 0.009); [lra |].
      eapply Forall_impl; [exact H |]. intros d Hd. cbn in Hd. lra. }
    destruct (decide (sd * sqrt 252 < 0.15 /\ slope > 0)) as [_ | Hn];
      [reflexivity | exfalso; apply Hn; split; lra].
  - intros H.
    assert (Hdown : Forall (fun d : R => d < 0)
                           (backtest_engine.np_diff (ln <$> close)))
      by (eapply Forall_impl; [exact H |]; intros d Hd; cbn in Hd; lra).
    apply (np_diff_ln_sign close Hpos) in Hdown. specialize (Hfall Hdown).
    assert (Hvol : sd * sqrt 252 < 0.15).
    { apply (Hcalm (-0.009) 0); [lra |].
      eapply Forall_impl; [exact H |]. intros d Hd. cbn in Hd. lra. }
    destruct (decide (sd * sqrt 252 < 0.15 /\ slope > 0)) as [[_ Hc] | _]; [lra |].
    destruct (decide (sd * sqrt 252 < 0.15 /\ slope < 0)) as [_ | Hn];
      [reflexivity | exfalso; apply Hn; split; lra].
Qed.

Lemma market_regime_follows_trend_witness :
  Forall (fun x : R => 0 < x) steady_rise
  /\ exists regime : enums.MarketRegime,
       market.market_regime steady_rise = Some regime /\ regime = enums.BULL.
Proof.
  assert (H : Forall (fun x : R => 0 < x) steady_rise).
  { unfold steady_rise. apply Forall_fmap, Forall_forall. intros i _. apply exp_pos. }
  split; [exact H |].
  destruct (market_regime_follows_trend steady_rise H) as (regime & Hr & _ & Hlong).
  exists regime. split; [exact Hr |].
  assert (Hlen : (30 <= length steady_rise)%nat).
  { unfold steady_rise. rewrite length_fmap, length_seq. lia. }
  destruct (Hlong Hlen) as (_ & _ & Hbull & _).
  apply Hbull.
  assert (Hlogs : ln <$> steady_rise
                  = (fun i : nat => 0 + INR i * 0.005) <$> seq 0 30).
  { unfold steady_rise. rewrite <- list_fmap_compose.
    apply list_fmap_ext. intros i x _. cbn. rewrite ln_exp. lra. }
  rewrite Hlogs.
  eapply Forall_impl; [apply np_diff_progression |].
  intros d Hd. cbn in Hd. rewrite <- Hd. lra.
Defined.
